(** * CodeLandscapeViewer: the analyzer back end, embedded and verified

    A shallow embedding of [backend/analyzer]: the graph model
    ([graph.py]), the generic extractor ([generic_analyzer.py]), the
    AST-driven Python extractor ([python_analyzer.py]), the regex-driven
    JavaScript extractor ([js_analyzer.py]) and the orchestration of the
    passes ([orchestrator.py]).

    Conventions of the embedding.
    - Python [str] is [string]; [str.lower], [str.upper] and
      [str.isupper] act on the ASCII letters.
    - A [dict] used as a lookup table is a [gmap]; a [set] of keys is a
      [gset]; the node store of a graph, whose insertion order is the
      order of the serialized output, is a list of nodes in insertion
      order.
    - What the libraries compute from the text of a file ([ast.parse],
      [re.finditer], [re.search]) is an input of the extractors: a
      syntax tree, or the list of the matches with their groups and
      offsets.
    - A loop that mutates an object in place becomes a function from the
      old value to the new one. *)

From Stdlib Require Import Ascii.
From stdpp Require Import gmap strings list fin_maps.

Local Open Scope string_scope.
Local Open Scope list_scope.

(** ** Python string methods *)

Module PyStr.

(** [s.startswith(p)] *)
Definition startswith (s p : string) : bool := String.prefix p s.

(** [s[n:]] *)
Fixpoint drop (n : nat) (s : string) : string :=
  match n, s with
  | S n', String _ s' => drop n' s'
  | _, _ => s
  end.

(** [s[:n]] *)
Fixpoint take (n : nat) (s : string) : string :=
  match n, s with
  | S n', String c s' => String c (take n' s')
  | _, _ => EmptyString
  end.

(** [s.endswith(suf)] *)
Definition endswith (s suf : string) : bool :=
  bool_decide (drop (String.length s - String.length suf) s = suf).

(** [s[:-n]] for [n > 0] *)
Definition drop_last (n : nat) (s : string) : string :=
  take (String.length s - n) s.

(** [s.replace(old, new)] for a non-empty [old]: the occurrences are
    replaced from left to right and do not overlap. [skip] counts the
    characters of the occurrence that is being replaced. *)
Fixpoint replace_from (old new : string) (skip : nat) (s : string) : string :=
  match s with
  | EmptyString => EmptyString
  | String c s' =>
      match skip with
      | S k => replace_from old new k s'
      | O =>
          if String.prefix old s
          then new +:+ replace_from old new (String.length old - 1) s'
          else String c (replace_from old new 0 s')
      end
  end.

Definition replace (old new s : string) : string := replace_from old new 0 s.

(** [s.split(sep)] for a separator of one character; the result is
    never empty: [''.split('.') == ['']]. *)
Fixpoint split (sep : ascii) (s : string) : list string :=
  match s with
  | EmptyString => [EmptyString]
  | String c s' =>
      if decide (c = sep) then EmptyString :: split sep s'
      else match split sep s' with
           | h :: t => String c h :: t
           | [] => [String c EmptyString]
           end
  end.

(** [sep.join(l)] *)
Fixpoint join (sep : string) (l : list string) : string :=
  match l with
  | [] => EmptyString
  | [x] => x
  | x :: t => x +:+ sep +:+ join sep t
  end.

(** [sub in s] *)
Fixpoint contains (s sub : string) : bool :=
  String.prefix sub s ||
  match s with
  | EmptyString => false
  | String _ s' => contains s' sub
  end.

(** [s.count(c)] for one character *)
Fixpoint count (c : ascii) (s : string) : nat :=
  match s with
  | EmptyString => 0
  | String a s' => (if decide (a = c) then 1 else 0) + count c s'
  end.

Definition is_upper_char (c : ascii) : bool :=
  let n := nat_of_ascii c in Nat.leb 65 n && Nat.leb n 90.

Definition is_lower_char (c : ascii) : bool :=
  let n := nat_of_ascii c in Nat.leb 97 n && Nat.leb n 122.

Definition lower_char (c : ascii) : ascii :=
  if is_upper_char c then ascii_of_nat (nat_of_ascii c + 32) else c.

Definition upper_char (c : ascii) : ascii :=
  if is_lower_char c then ascii_of_nat (nat_of_ascii c - 32) else c.

Fixpoint map_chars (f : ascii → ascii) (s : string) : string :=
  match s with
  | EmptyString => EmptyString
  | String c s' => String (f c) (map_chars f s')
  end.

(** [s.lower()] and [s.upper()] *)
Definition lower : string → string := map_chars lower_char.
Definition upper : string → string := map_chars upper_char.

(** [s[0].isupper()]; the callers only pass names matched by [\w+],
    which are not empty. *)
Definition first_isupper (s : string) : bool :=
  match s with
  | EmptyString => false
  | String c _ => is_upper_char c
  end.

(** [s.rfind(c)]: the index of the last occurrence, if any. *)
Fixpoint rfind (c : ascii) (s : string) : option nat :=
  match s with
  | EmptyString => None
  | String a s' =>
      match rfind c s' with
      | Some i => Some (S i)
      | None => if decide (a = c) then Some 0 else None
      end
  end.

End PyStr.

(** ** [pathlib.PurePosixPath], as far as the analyzers use it

    A path is a root ([""], ["/"] or ["//"]) and the components that
    remain when the text is split at ["/"] and the empty and ["."]
    components are dropped. [".."] is kept: [pathlib] never collapses
    it. *)

Module PosixPath.

Record t := mk { root : string; names : list string }.

Definition parse_root (s : string) : string :=
  if PyStr.startswith s "/" then
    if PyStr.startswith s "//" && negb (PyStr.startswith s "///")
    then "//" else "/"
  else "".

Definition keep_component (x : string) : bool :=
  negb (bool_decide (x = "")) && negb (bool_decide (x = ".")).

(** [Path(s)] *)
Definition parse (s : string) : t :=
  mk (parse_root s) (filter (λ x, keep_component x = true) (PyStr.split "/" s)).

(** [str(p)] *)
Definition to_str (p : t) : string :=
  match root p, names p with
  | EmptyString, [] => "."
  | r, ns => r +:+ PyStr.join "/" ns
  end.

(** [p.parent] *)
Definition parent (p : t) : t := mk (root p) (removelast (names p)).

(** [p / s] *)
Definition joinpath (p : t) (s : string) : t :=
  let q := parse s in
  if bool_decide (root q = "") then mk (root p) (names p ++ names q) else q.

(** [p.parts] *)
Definition parts (p : t) : list string :=
  (if bool_decide (root p = "") then [] else [root p]) ++ names p.

(** [p.name] *)
Definition name (p : t) : string := List.last (names p) "".

(** [p.stem]: the name without its last suffix; a leading or a
    trailing dot does not start a suffix. *)
Definition stem (p : t) : string :=
  let n := name p in
  match PyStr.rfind "." n with
  | Some i =>
      if Nat.ltb 0 i && Nat.ltb i (String.length n - 1) then PyStr.take i n else n
  | None => n
  end.

End PosixPath.

(** ** The graph model ([graph.py]) *)

(** The values that the extractors store in a [metadata] dict. *)
Inductive MetaValue :=
| MStr (s : string)
| MBool (b : bool)
| MList (l : list string)
| MNone.

Definition Metadata := list (string * MetaValue).

Record Node := mkNode {
  node_id : string;
  node_label : string;
  node_type : string;
  node_file_path : string;
  node_line_number : nat;
  node_metadata : Metadata
}.

Record Edge := mkEdge {
  edge_source : string;
  edge_target : string;
  edge_type : string;
  edge_metadata : Metadata
}.

(** [Graph.nodes] is a dict from [node.id] to the node: [add_node] is
    its only writer. The list keeps the insertion order of the dict. *)
Record Graph := mkGraph {
  nodes : list Node;
  edges : list Edge
}.

Definition empty_graph : Graph := mkGraph [] [].

Definition node_ids (g : Graph) : list string := node_id <$> nodes g.

(** [nid in self.nodes] *)
Definition has_node (g : Graph) (nid : string) : bool :=
  bool_decide (nid ∈ node_ids g).

(** [self.nodes.get(nid)] *)
Definition get_node (g : Graph) (nid : string) : option Node :=
  List.find (λ n, bool_decide (node_id n = nid)) (nodes g).

Definition add_node (n : Node) (g : Graph) : Graph :=
  if has_node g (node_id n) then g
  else mkGraph (nodes g ++ [n]) (edges g).

Definition add_edge (e : Edge) (g : Graph) : Graph :=
  if has_node g (edge_source e) && has_node g (edge_target e)
  then mkGraph (nodes g) (edges g ++ [e])
  else g.

Definition add_edge_deferred (e : Edge) (g : Graph) : Graph :=
  mkGraph (nodes g) (edges g ++ [e]).

Definition merge (other : Graph) (g : Graph) : Graph :=
  let g' := foldl (λ acc n, add_node n acc) g (nodes other) in
  mkGraph (nodes g') (edges g' ++ edges other).

Definition edge_key (e : Edge) : string * string * string :=
  (edge_source e, edge_target e, edge_type e).

(** One iteration of the loop of [resolve_edges] on its state
    [(valid, seen)]. *)
Definition resolve_step (ids : gset string)
    (st : list Edge * gset (string * string * string)) (e : Edge)
    : list Edge * gset (string * string * string) :=
  let '(valid, seen) := st in
  let key := edge_key e in
  if bool_decide (edge_source e ∈ ids) && bool_decide (edge_target e ∈ ids)
     && bool_decide (key ∉ seen)
  then (valid ++ [e], {[ key ]} ∪ seen)
  else (valid, seen).

Definition resolve_edges (g : Graph) : Graph :=
  let ids : gset string := list_to_set (node_ids g) in
  mkGraph (nodes g) (foldl (resolve_step ids) ([], ∅) (edges g)).1.

(** *** Serialization ([Graph.to_dict]) *)

Definition NODE_COLORS : list (string * string) :=
  [("endpoint", "#00bcd4"); ("file", "#66bb6a"); ("class", "#ffa726");
   ("function", "#42a5f5"); ("router", "#ef5350"); ("model", "#ec407a");
   ("service", "#26a69a"); ("utility", "#78909c"); ("middleware", "#ab47bc");
   ("task", "#ff7043"); ("config", "#8d6e63"); ("test", "#9ccc65");
   ("component", "#29b6f6"); ("module", "#d4e157")].

Definition EDGE_COLORS : list (string * string) :=
  [("imports", "#4fc3f7"); ("calls", "#81c784"); ("inherits", "#ffb74d");
   ("endpoint_handler", "#e57373"); ("db_read", "#4dd0e1");
   ("db_write", "#f06292"); ("api_call", "#aed581"); ("uses", "#90a4ae");
   ("middleware_chain", "#ce93d8")].

(** [d[k] = d.get(k, 0) + 1] *)
Definition bump (k : string) (d : gmap string nat) : gmap string nat :=
  <[k := default 0 (d !! k) + 1]> d.

(** The dict [node_degree] after the loop over the edges. *)
Definition node_degree (g : Graph) : gmap string nat :=
  foldl (λ d e, bump (edge_target e) (bump (edge_source e) d))
        (list_to_map ((λ n, (node_id n, 0)) <$> nodes g))
        (edges g).

Record NodeDict := mkNodeDict {
  nd_node : Node;
  nd_degree : nat
}.

Record GraphDict := mkGraphDict {
  gd_nodes : list NodeDict;
  gd_edges : list Edge;
  gd_node_colors : list (string * string);
  gd_edge_colors : list (string * string);
  gd_node_type_counts : gmap string nat;
  gd_edge_type_counts : gmap string nat;
  gd_total_nodes : nat;
  gd_total_edges : nat
}.

Definition to_dict (g : Graph) : GraphDict :=
  let degree := node_degree g in
  mkGraphDict
    ((λ n, mkNodeDict n (default 0 (degree !! node_id n))) <$> nodes g)
    (edges g)
    NODE_COLORS
    EDGE_COLORS
    (foldl (λ d n, bump (node_type n) d) ∅ (nodes g))
    (foldl (λ d e, bump (edge_type e) d) ∅ (edges g))
    (length (nodes g))
    (length (edges g)).


(** ** File descriptors and what reading a file yields *)

(** The dict that [collect_files] builds for a file. *)
Record FileInfo := mkFileInfo {
  full_path : string;
  rel_path : string;
  ext : string;
  name : string
}.

(** [f"file:{file_info['rel_path']}"] *)
Definition file_id_of (fi : FileInfo) : string := "file:" +:+ rel_path fi.

(** Iterating over a Python [set] of strings: every element once, in an
    order that the language leaves open. *)
Definition set_iter (targets : list string) : list string :=
  elements (list_to_set targets : gset string).

(** [x in (a, b, ...)] and [x in SOME_SET] for the constant tables. *)
Definition member (x : string) (table : list string) : bool :=
  bool_decide (x ∈ table).

(** ** The generic extractor ([generic_analyzer.py]) *)

Definition CONFIG_NAMES : list string :=
  ["config"; "settings"; "configuration"; ".env"; "env";
   "webpack"; "babel"; "eslint"; "prettier"; "tsconfig";
   "jest"; "karma"; "rollup"; "vite"; "next.config";
   "pyproject"; "setup.cfg"; "tox"; "mypy"; "flake8";
   "docker-compose"; "dockerfile"; "makefile"; "cmake";
   "package.json"; "cargo.toml"; "go.mod"; "gemfile";
   "pipfile"; "poetry"; "requirements"].

Definition CONFIG_EXTENSIONS : list string :=
  [".json"; ".yaml"; ".yml"; ".toml"; ".ini"; ".cfg";
   ".env"; ".conf"; ".xml"; ".properties"].

Definition TEST_PATTERNS : list string :=
  ["test"; "tests"; "spec"; "specs"; "__tests__"; "test_"; "_test"].

Definition ROUTE_DIR_PATTERNS : list string :=
  ["routes"; "api"; "endpoints"; "views"; "controllers"].
Definition MODEL_DIR_PATTERNS : list string := ["models"; "entities"; "schemas"].
Definition SERVICE_DIR_PATTERNS : list string := ["services"; "providers"; "managers"].
Definition UTIL_DIR_PATTERNS : list string :=
  ["utils"; "utilities"; "helpers"; "lib"; "common"; "shared"].
Definition MIDDLEWARE_DIR_PATTERNS : list string := ["middleware"; "middlewares"].

(** [any(p.lower() in table for p in parts)] *)
Definition any_part_in (parts table : list string) : bool :=
  existsb (λ p, member (PyStr.lower p) table) parts.

Definition _classify_by_path (rel_path name ext : string) : string :=
  let parts := removelast (PosixPath.parts (PosixPath.parse rel_path)) in
  let stem := PyStr.lower (PosixPath.stem (PosixPath.parse name)) in
  if any_part_in parts TEST_PATTERNS || PyStr.contains stem "test"
     || PyStr.contains stem "spec" then "test"
  else if member stem CONFIG_NAMES || member ext CONFIG_EXTENSIONS then "config"
  else if any_part_in parts ROUTE_DIR_PATTERNS then "endpoint"
  else if any_part_in parts MODEL_DIR_PATTERNS then "model"
  else if any_part_in parts SERVICE_DIR_PATTERNS then "service"
  else if any_part_in parts UTIL_DIR_PATTERNS then "utility"
  else if any_part_in parts MIDDLEWARE_DIR_PATTERNS then "middleware"
  else "file".

(** Group 1 of the matches of [RE_INCLUDE], [RE_USING], [RE_USE] and
    [RE_GO_IMPORT] in the first 50,000 characters of a file, each list
    in the order of [finditer]. *)
Record GenericMatches := mkGenericMatches {
  gm_include : list string;
  gm_using : list string;
  gm_use : list string;
  gm_go_import : list string
}.

(** [module:<target>] import edge, as every extractor emits it. *)
Definition import_edge (file_id target : string) : Edge :=
  mkEdge file_id ("module:" +:+ target) "imports" [].

Definition emit_imports (file_id : string) (targets : list string) (g : Graph) : Graph :=
  foldl (λ acc target, add_edge_deferred (import_edge file_id target) acc)
        g (set_iter targets).

(** [read] is [None] when opening or reading the file raises [OSError]
    or [UnicodeDecodeError]. *)
Definition _extract_generic_imports (read : option GenericMatches)
    (file_id : string) (g : Graph) : Graph :=
  match read with
  | None => g
  | Some m =>
      emit_imports file_id
        (gm_include m ++ gm_using m
         ++ (PyStr.replace "::" "/" <$> gm_use m) ++ gm_go_import m) g
  end.

Definition DEDICATED_EXTENSIONS : list string :=
  [".py"; ".pyi"; ".js"; ".jsx"; ".ts"; ".tsx"; ".mjs"; ".cjs"].

(** The node that [analyze_file] builds for a file. *)
Definition file_node (fi : FileInfo) : Node :=
  let file_id := file_id_of fi in
  let node_type := _classify_by_path (rel_path fi) (name fi) (ext fi) in
  mkNode file_id (name fi) node_type (rel_path fi) 0 [("extension", MStr (ext fi))].

Definition generic_analyze_file (fi : FileInfo) (read : option GenericMatches)
    (g : Graph) : Graph :=
  let file_id := file_id_of fi in
  let g1 := add_node (file_node fi) g in
  if member (ext fi) DEDICATED_EXTENSIONS then g1
  else _extract_generic_imports read file_id g1.

(** ** The Python extractor ([python_analyzer.py]) *)

#[local] Set Warnings "-register-all".

(** The syntax tree of [ast.parse], with the node classes and the fields
    that the extractor reads. [Other] stands for every other node class
    and lists its child nodes in the order of [ast.iter_child_nodes].
    The [alias] children of the import statements and the expression
    contexts are leaves that no extractor looks at; they are left out. *)
Inductive ast :=
| PyModule (body : list ast)
| ClassDef (cname : string) (bases keywords body decorator_list : list ast)
           (lineno : nat)
| FunctionDef (fname : string) (args : ast) (body decorator_list : list ast)
              (returns : option ast) (lineno : nat)
| AsyncFunctionDef (fname : string) (args : ast) (body decorator_list : list ast)
                   (returns : option ast) (lineno : nat)
| PyImport (names : list string)
| PyImportFrom (module : option string) (names : list string)
| Call (func : ast) (args keywords : list ast)
| Attribute (value : ast) (attr : string)
| Name (id : string)
| Other (children : list ast).

(** [ast.iter_child_nodes]: the child nodes in the order of [_fields]. *)
Definition iter_child_nodes (t : ast) : list ast :=
  match t with
  | PyModule body => body
  | ClassDef _ bases keywords body decos _ => bases ++ keywords ++ body ++ decos
  | FunctionDef _ args body decos returns _
  | AsyncFunctionDef _ args body decos returns _ =>
      args :: body ++ decos ++ option_list returns
  | PyImport _ | PyImportFrom _ _ => []
  | Call f args kws => f :: args ++ kws
  | Attribute v _ => [v]
  | Name _ => []
  | Other ch => ch
  end.

(** The number of nodes of a tree. *)
Fixpoint ast_size (t : ast) : nat :=
  let fix sizes (l : list ast) : nat :=
    match l with
    | [] => 0
    | x :: r => ast_size x + sizes r
    end in
  match t with
  | PyModule body => S (sizes body)
  | ClassDef _ bases keywords body decos _ =>
      S (sizes bases + (sizes keywords + (sizes body + sizes decos)))
  | FunctionDef _ args body decos returns _
  | AsyncFunctionDef _ args body decos returns _ =>
      S (ast_size args
         + (sizes body + (sizes decos
            + match returns with Some r => ast_size r + 0 | None => 0 end)))
  | PyImport _ | PyImportFrom _ _ => 1
  | Call f args kws => S (ast_size f + (sizes args + sizes kws))
  | Attribute v _ => S (ast_size v + 0)
  | Name _ => 1
  | Other ch => S (sizes ch)
  end.

(** The number of nodes of the trees of a queue. *)
Definition forest_size (l : list ast) : nat := sum_list_with ast_size l.

(** [ast.walk]: breadth first, from a queue. Every step takes one node
    from the queue, so [ast_size] steps empty it. *)
Fixpoint walk_queue (fuel : nat) (todo : list ast) : list ast :=
  match fuel, todo with
  | S fuel', node :: rest => node :: walk_queue fuel' (rest ++ iter_child_nodes node)
  | _, _ => []
  end.

Definition walk (t : ast) : list ast := walk_queue (ast_size t) [t].

Definition ENDPOINT_DECORATORS : list string :=
  ["route"; "get"; "post"; "put"; "patch"; "delete"; "head"; "options";
   "api_view"; "action"; "websocket"].

Definition ROUTER_PATTERNS : list string :=
  ["APIRouter"; "Blueprint"; "Router"; "Namespace"; "DefaultRouter"; "SimpleRouter"].

Definition MODEL_BASES : list string :=
  ["Model"; "models.Model"; "db.Model"; "Base"; "Document"; "EmbeddedDocument";
   "ModelBase"].

Definition TASK_DECORATORS : list string :=
  ["task"; "shared_task"; "periodic_task"; "job"; "background_task"].

Definition DB_READ_METHODS : list string :=
  ["filter"; "get"; "all"; "first"; "last"; "count";
   "exists"; "aggregate"; "values"; "values_list";
   "select_related"; "prefetch_related"; "annotate";
   "order_by"; "distinct"; "exclude";
   "find"; "find_one"; "find_many";
   "query"; "execute"; "fetchone"; "fetchall"; "fetchmany";
   "select"; "where"].

Definition DB_WRITE_METHODS : list string :=
  ["save"; "create"; "update"; "delete"; "bulk_create";
   "bulk_update"; "insert"; "insert_one"; "insert_many";
   "update_one"; "update_many"; "delete_one"; "delete_many";
   "commit"; "add"; "merge"; "flush"; "put_item"; "delete_item"].

Definition API_CALL_NAMES : list string :=
  ["get"; "post"; "put"; "patch"; "delete"; "head"; "options";
   "request"; "fetch"; "urlopen"].

Definition API_CALL_MODULES : list string := ["requests"; "httpx"; "aiohttp"; "urllib"].

Definition HTTP_VERBS : list string :=
  ["get"; "post"; "put"; "patch"; "delete"; "head"; "options"].

(** [getattr(node, "decorator_list", [])] *)
Definition decorators_of (t : ast) : list ast :=
  match t with
  | ClassDef _ _ _ _ decos _ => decos
  | FunctionDef _ _ _ decos _ _ | AsyncFunctionDef _ _ _ decos _ _ => decos
  | _ => []
  end.

Definition decorator_name (dec : ast) : option string :=
  match dec with
  | Name id => Some id
  | Attribute _ attr => Some attr
  | Call (Name id) _ _ => Some id
  | Call (Attribute _ attr) _ _ => Some attr
  | _ => None
  end.

Definition _get_decorator_names (t : ast) : list string :=
  omap decorator_name (decorators_of t).

(** The list [parts] of [_attr_chain], before it is reversed. *)
Fixpoint attr_chain_parts (t : ast) : list string :=
  match t with
  | Attribute v attr => attr :: attr_chain_parts v
  | Name id => [id]
  | _ => []
  end.

Definition _attr_chain (t : ast) : string :=
  PyStr.join "." (reverse (attr_chain_parts t)).

Definition base_name (base : ast) : option string :=
  match base with
  | Name id => Some id
  | Attribute _ _ => Some (_attr_chain base)
  | _ => None
  end.

Definition _get_base_names (bases : list ast) : list string := omap base_name bases.

Definition _guess_http_method (decorators : list string) : string :=
  match List.find (λ d, member (PyStr.lower d) HTTP_VERBS) decorators with
  | Some d => PyStr.upper (PyStr.lower d)
  | None => "GET"
  end.

Definition is_function_def (t : ast) : bool :=
  match t with
  | FunctionDef _ _ _ _ _ _ | AsyncFunctionDef _ _ _ _ _ _ => true
  | _ => false
  end.

Definition def_name (t : ast) : string :=
  match t with
  | ClassDef n _ _ _ _ _ => n
  | FunctionDef n _ _ _ _ _ | AsyncFunctionDef n _ _ _ _ _ => n
  | _ => ""
  end.

Definition def_lineno (t : ast) : nat :=
  match t with
  | ClassDef _ _ _ _ _ l => l
  | FunctionDef _ _ _ _ _ l | AsyncFunctionDef _ _ _ _ _ l => l
  | _ => 0
  end.

Definition class_node_type (cname : string) (bases : list string) : string :=
  if existsb (λ b, member b MODEL_BASES) bases then "model"
  else if existsb (λ n, member n ROUTER_PATTERNS) (cname :: bases) then "router"
  else if PyStr.contains (PyStr.lower cname) "service" then "service"
  else if PyStr.contains (PyStr.lower cname) "middleware" then "middleware"
  else if PyStr.contains (PyStr.lower cname) "util"
          || PyStr.contains (PyStr.lower cname) "helper" then "utility"
  else "class".

Definition IGNORED_BASES : list string := ["object"; "type"; "ABC"; "Exception"].

(** The body of the loop of [_extract_classes] for one node of the walk. *)
Definition extract_class (fi : FileInfo) (file_id : string) (g : Graph) (node : ast)
    : Graph :=
  match node with
  | ClassDef cname bases _ _ _ lineno =>
      let class_id := "class:" +:+ rel_path fi +:+ ":" +:+ cname in
      let decorators := _get_decorator_names node in
      let base_names := _get_base_names bases in
      let g1 := add_node (mkNode class_id cname (class_node_type cname base_names)
                                 (rel_path fi) lineno
                                 [("bases", MList base_names);
                                  ("decorators", MList decorators)]) g in
      let g2 := add_edge (mkEdge file_id class_id "uses" []) g1 in
      let g3 :=
        foldl (λ acc base,
                 if member base IGNORED_BASES then acc
                 else
                   let inherit_id := "class_ref:" +:+ base in
                   add_edge_deferred (mkEdge class_id inherit_id "inherits" [])
                     (add_node (mkNode inherit_id base "class" "" 0
                                       [("external_ref", MBool true)]) acc))
              g2 base_names in
      foldl (λ acc item,
               if is_function_def item then
                 let method_decorators := _get_decorator_names item in
                 if existsb (λ d, member d ENDPOINT_DECORATORS) method_decorators then
                   let label := cname +:+ "." +:+ def_name item in
                   let ep_id := "endpoint:" +:+ rel_path fi +:+ ":" +:+ label in
                   add_edge (mkEdge class_id ep_id "endpoint_handler" [])
                     (add_node (mkNode ep_id label "endpoint" (rel_path fi)
                                       (def_lineno item)
                                       [("method",
                                         MStr (_guess_http_method method_decorators))])
                               acc)
                 else acc
               else acc)
            g3 (walk node)
  | _ => g
  end.

Definition _extract_classes (tree : ast) (fi : FileInfo) (file_id : string)
    (g : Graph) : Graph :=
  foldl (extract_class fi file_id) g (walk tree).

Definition function_node_type (fname : string) (decorators : list string) : string :=
  if existsb (λ d, member d ENDPOINT_DECORATORS) decorators then "endpoint"
  else if existsb (λ d, member d TASK_DECORATORS) decorators then "task"
  else if PyStr.contains (PyStr.lower fname) "middleware" then "middleware"
  else "function".

Definition is_async_def (t : ast) : bool :=
  match t with AsyncFunctionDef _ _ _ _ _ _ => true | _ => false end.

Definition extract_function (fi : FileInfo) (file_id : string) (g : Graph) (node : ast)
    : Graph :=
  if is_function_def node then
    let decorators := _get_decorator_names node in
    let func_id := "func:" +:+ rel_path fi +:+ ":" +:+ def_name node in
    let node_type := function_node_type (def_name node) decorators in
    let g1 := add_node (mkNode func_id (def_name node) node_type (rel_path fi)
                               (def_lineno node)
                               [("decorators", MList decorators);
                                ("is_async", MBool (is_async_def node))]) g in
    let g2 := add_edge (mkEdge file_id func_id "uses" []) g1 in
    if bool_decide (node_type = "endpoint")
    then add_edge (mkEdge file_id func_id "endpoint_handler" []) g2
    else g2
  else g.

Definition _extract_functions (tree : ast) (fi : FileInfo) (file_id : string)
    (g : Graph) : Graph :=
  foldl (extract_function fi file_id) g (iter_child_nodes tree).

Definition extract_import (file_id : string) (g : Graph) (node : ast) : Graph :=
  match node with
  | PyImport names =>
      foldl (λ acc alias, add_edge_deferred (import_edge file_id alias) acc) g names
  | PyImportFrom (Some module) _ =>
      if bool_decide (module = "") then g
      else add_edge_deferred (import_edge file_id module) g
  | _ => g
  end.

Definition py_extract_imports (tree : ast) (file_id : string) (g : Graph) : Graph :=
  foldl (extract_import file_id) g (walk tree).

Definition self_edge (file_id etype : string) (md : Metadata) : Edge :=
  mkEdge file_id file_id etype md.

Definition extract_call (file_id : string) (g : Graph) (node : ast) : Graph :=
  match node with
  | Call (Attribute value method) _ _ =>
      let obj_name := match value with Name id => id | _ => "" end in
      let g1 :=
        if member method DB_READ_METHODS then
          add_edge_deferred
            (self_edge file_id "db_read"
                       [("method", MStr method); ("object", MStr obj_name)]) g
        else if member method DB_WRITE_METHODS then
          add_edge_deferred
            (self_edge file_id "db_write"
                       [("method", MStr method); ("object", MStr obj_name)]) g
        else g in
      if member obj_name API_CALL_MODULES && member method API_CALL_NAMES then
        add_edge_deferred
          (self_edge file_id "api_call"
                     [("method", MStr method); ("module", MStr obj_name)]) g1
      else g1
  | Call (Name func_name) _ _ =>
      if member func_name ["fetch"; "urlopen"] then
        add_edge_deferred
          (self_edge file_id "api_call" [("function", MStr func_name)]) g
      else g
  | _ => g
  end.

Definition _extract_calls (tree : ast) (file_id : string) (g : Graph) : Graph :=
  foldl (extract_call file_id) g (walk tree).

(** What [open], [read] and [ast.parse] yield for a Python file: the
    two failures that [analyze_file] catches, or the tree. *)
Inductive PySource :=
| PyUnreadable
| PySyntaxError
| PyParsed (tree : ast).

Definition py_analyze_file (fi : FileInfo) (src : PySource) (g : Graph) : Graph :=
  match src with
  | PyUnreadable => g
  | PySyntaxError => g
  | PyParsed tree =>
      let file_id := file_id_of fi in
      _extract_calls tree file_id
        (py_extract_imports tree file_id
           (_extract_functions tree fi file_id
              (_extract_classes tree fi file_id g)))
  end.

(** ** The JavaScript extractor ([js_analyzer.py]) *)

(** The alternatives of group 1 of [RE_EXPRESS_ROUTE]. *)
Inductive RouteVerb :=
| VGet | VPost | VPut | VPatch | VDelete | VAll | VUse | VHead | VOptions.

(** The text that group 1 matched. *)
Definition verb_text (v : RouteVerb) : string :=
  match v with
  | VGet => "get" | VPost => "post" | VPut => "put" | VPatch => "patch"
  | VDelete => "delete" | VAll => "all" | VUse => "use" | VHead => "head"
  | VOptions => "options"
  end.

(** A match of [RE_EXPRESS_ROUTE]: groups 1 and 2 and [m.start()]. *)
Record RouteMatch := mkRouteMatch {
  rm_verb : RouteVerb;
  rm_path : string;
  rm_start : nat
}.

(** A match of [RE_CLASS_DECL]: group 1, group 2 ([None] when the class
    extends nothing) and [m.start()]. *)
Record ClassMatch := mkClassMatch {
  cm_name : string;
  cm_base : option string;
  cm_start : nat
}.

(** A match of a pattern with one group: group 1 and [m.start()]. *)
Record NameMatch := mkNameMatch {
  nm_name : string;
  nm_start : nat
}.

(** The text of a script file and what the patterns find in it: the
    matches of [finditer] in their order, and whether [search] finds
    anything. *)
Record JsMatches := mkJsMatches {
  js_source : string;
  js_express_route : list RouteMatch;
  js_class_decl : list ClassMatch;
  js_function_export : list NameMatch;
  js_const_arrow : list NameMatch;
  js_mongoose_model : list NameMatch;
  js_sequelize_define : list NameMatch;
  js_import_from : list string;
  js_require : list string;
  js_dynamic_import : list string;
  js_fetch_call : bool;
  js_axios_method : bool;
  js_db_read : bool;
  js_db_write : bool;
  js_router_init : bool
}.

Definition newline : ascii := ascii_of_nat 10.

Definition _line_of (source : string) (match_start : nat) : nat :=
  PyStr.count newline (PyStr.take match_start source) + 1.

Definition route_method (m : RouteMatch) : string := PyStr.upper (verb_text (rm_verb m)).

Definition route_id (fi : FileInfo) (m : RouteMatch) : string :=
  "endpoint:" +:+ rel_path fi +:+ ":" +:+ route_method m +:+ ":" +:+ rm_path m.

Definition route_label (m : RouteMatch) : string :=
  if bool_decide (rm_path m = "") then route_method m +:+ " (middleware)"
  else route_method m +:+ " " +:+ rm_path m.

Definition route_node_type (m : RouteMatch) : string :=
  if bool_decide (route_method m = "USE") then "middleware" else "endpoint".

Definition route_node (source : string) (fi : FileInfo) (m : RouteMatch) : Node :=
  mkNode (route_id fi m) (route_label m) (route_node_type m) (rel_path fi)
         (_line_of source (rm_start m))
         [("method", MStr (route_method m)); ("path", MStr (rm_path m))].

Definition route_edge (fi : FileInfo) (file_id : string) (m : RouteMatch) : Edge :=
  mkEdge file_id (route_id fi m) "endpoint_handler" [].

(** The body of the loop of [_extract_routes] for one match. *)
Definition extract_route (source : string) (fi : FileInfo) (file_id : string)
    (g : Graph) (m : RouteMatch) : Graph :=
  add_edge (route_edge fi file_id m) (add_node (route_node source fi m) g).

Definition _extract_routes (source : string) (matches : list RouteMatch)
    (fi : FileInfo) (file_id : string) (g : Graph) : Graph :=
  foldl (extract_route source fi file_id) g matches.

Definition js_class_node_type (cname : string) : string :=
  let nl := PyStr.lower cname in
  if PyStr.contains nl "component" || PyStr.contains nl "view" then "component"
  else if PyStr.contains nl "service" then "service"
  else if PyStr.contains nl "middleware" then "middleware"
  else if PyStr.contains nl "controller" || PyStr.contains nl "router" then "router"
  else if PyStr.contains nl "model" then "model"
  else "class".

(** The state of [_extract_functions_and_classes]: the graph and the
    set [seen_names]. *)
Definition extract_js_class (source : string) (fi : FileInfo) (file_id : string)
    (st : Graph * gset string) (m : ClassMatch) : Graph * gset string :=
  let '(g, seen_names) := st in
  let class_id := "class:" +:+ rel_path fi +:+ ":" +:+ cm_name m in
  let g1 := add_node (mkNode class_id (cm_name m) (js_class_node_type (cm_name m))
                             (rel_path fi) (_line_of source (cm_start m))
                             [("extends",
                               match cm_base m with
                               | Some b => MStr b
                               | None => MNone
                               end)]) g in
  let g2 := add_edge (mkEdge file_id class_id "uses" []) g1 in
  let g3 :=
    match cm_base m with
    | Some base =>
        if bool_decide (base = "") then g2
        else
          let ref_id := "class_ref:" +:+ base in
          add_edge_deferred (mkEdge class_id ref_id "inherits" [])
            (add_node (mkNode ref_id base "class" "" 0
                              [("external_ref", MBool true)]) g2)
    | None => g2
    end in
  (g3, {[ cm_name m ]} ∪ seen_names).

Definition js_function_node_type (fname : string) (fi : FileInfo) : string :=
  let nl := PyStr.lower fname in
  if PyStr.contains nl "middleware" then "middleware"
  else if PyStr.contains nl "handler" || PyStr.contains nl "controller" then "endpoint"
  else if PyStr.first_isupper fname && member (ext fi) [".jsx"; ".tsx"] then "component"
  else "function".

Definition extract_js_function (source : string) (fi : FileInfo) (file_id : string)
    (st : Graph * gset string) (m : NameMatch) : Graph * gset string :=
  let '(g, seen_names) := st in
  if bool_decide (nm_name m ∈ seen_names) then st
  else
    let func_id := "func:" +:+ rel_path fi +:+ ":" +:+ nm_name m in
    let g1 := add_node (mkNode func_id (nm_name m)
                               (js_function_node_type (nm_name m) fi)
                               (rel_path fi) (_line_of source (nm_start m)) []) g in
    (add_edge (mkEdge file_id func_id "uses" []) g1, {[ nm_name m ]} ∪ seen_names).

Definition _extract_functions_and_classes (src : JsMatches) (fi : FileInfo)
    (file_id : string) (g : Graph) : Graph :=
  let st1 := foldl (extract_js_class (js_source src) fi file_id) (g, ∅)
                   (js_class_decl src) in
  let st2 := foldl (extract_js_function (js_source src) fi file_id) st1
                   (js_function_export src) in
  (foldl (extract_js_function (js_source src) fi file_id) st2 (js_const_arrow src)).1.

Definition extract_model (source : string) (fi : FileInfo) (file_id : string)
    (g : Graph) (m : NameMatch) : Graph :=
  let model_id := "model:" +:+ rel_path fi +:+ ":" +:+ nm_name m in
  add_edge (mkEdge file_id model_id "uses" [])
    (add_node (mkNode model_id (nm_name m) "model" (rel_path fi)
                      (_line_of source (nm_start m)) []) g).

Definition _extract_models (src : JsMatches) (fi : FileInfo) (file_id : string)
    (g : Graph) : Graph :=
  foldl (extract_model (js_source src) fi file_id)
        (foldl (extract_model (js_source src) fi file_id) g (js_mongoose_model src))
        (js_sequelize_define src).

Definition js_extract_imports (src : JsMatches) (file_id : string) (g : Graph) : Graph :=
  emit_imports file_id (js_import_from src ++ js_require src ++ js_dynamic_import src) g.

Definition _extract_api_calls (src : JsMatches) (file_id : string) (g : Graph) : Graph :=
  if js_fetch_call src || js_axios_method src
  then add_edge_deferred (self_edge file_id "api_call" []) g
  else g.

Definition _extract_db_ops (src : JsMatches) (file_id : string) (g : Graph) : Graph :=
  let g1 := if js_db_read src
            then add_edge_deferred (self_edge file_id "db_read" []) g else g in
  if js_db_write src
  then add_edge_deferred (self_edge file_id "db_write" []) g1 else g1.

Definition _detect_router (src : JsMatches) (fi : FileInfo) (file_id : string)
    (g : Graph) : Graph :=
  if js_router_init src then
    let router_id := "router:" +:+ rel_path fi in
    add_edge (mkEdge file_id router_id "uses" [])
      (add_node (mkNode router_id
                        (PosixPath.stem (PosixPath.parse (rel_path fi)) +:+ " (router)")
                        "router" (rel_path fi) 0 []) g)
  else g.

(** [read] is [None] when opening or reading the file raises. *)
Definition js_analyze_file (fi : FileInfo) (read : option JsMatches) (g : Graph)
    : Graph :=
  match read with
  | None => g
  | Some src =>
      let file_id := file_id_of fi in
      _detect_router src fi file_id
        (_extract_db_ops src file_id
           (_extract_api_calls src file_id
              (js_extract_imports src file_id
                 (_extract_models src fi file_id
                    (_extract_functions_and_classes src fi file_id
                       (_extract_routes (js_source src) (js_express_route src)
                                        fi file_id g))))))
  end.

(** ** The import resolvers *)

(** [edge.target = fid] *)
Definition set_target (e : Edge) (fid : string) : Edge :=
  mkEdge (edge_source e) fid (edge_type e) (edge_metadata e).

(** [edge.type == "imports" and edge.target.startswith("module:")] *)
Definition is_module_import (e : Edge) : bool :=
  bool_decide (edge_type e = "imports") && PyStr.startswith (edge_target e) "module:".

(** [edge.target[len("module:"):]] *)
Definition module_of (e : Edge) : string := PyStr.drop 7 (edge_target e).

(** *** Python ([PythonAnalyzer.resolve_imports]) *)

Definition py_module_name (rel : string) : string :=
  let mod1 := PyStr.replace "\" "." (PyStr.replace "/" "." rel) in
  let mod2 := if PyStr.endswith mod1 ".py" then PyStr.drop_last 3 mod1 else mod1 in
  if PyStr.endswith mod2 ".__init__" then PyStr.drop_last 9 mod2 else mod2.

(** [d.setdefault(k, v)] *)
Definition setdefault (k v : string) (d : gmap string string) : gmap string string :=
  match d !! k with
  | Some _ => d
  | None => <[k := v]> d
  end.

(** The body of the first loop for one file, on the state
    [(module_map, suffix_map)]. *)
Definition py_register (maps : gmap string string * gmap string string)
    (fi : FileInfo) : gmap string string * gmap string string :=
  let '(module_map, suffix_map) := maps in
  let mod_ := py_module_name (rel_path fi) in
  let file_id := file_id_of fi in
  let parts := PyStr.split "." mod_ in
  (<[mod_ := file_id]> module_map,
   foldl (λ sm i, setdefault (PyStr.join "." (drop (length parts - i) parts)) file_id sm)
         suffix_map (seq 1 (length parts))).

Definition py_maps (python_files : list FileInfo)
    : gmap string string * gmap string string :=
  foldl py_register (∅, ∅) python_files.

(** The loop [for i in range(len(parts), 0, -1)] with its two [break]s,
    entered at [i]. *)
Fixpoint py_prefix_loop (module_map suffix_map : gmap string string)
    (parts : list string) (i : nat) : option string :=
  match i with
  | O => None
  | S i' =>
      let prefix := PyStr.join "." (take i parts) in
      match module_map !! prefix with
      | Some fid => Some fid
      | None =>
          match suffix_map !! prefix with
          | Some fid => Some fid
          | None => py_prefix_loop module_map suffix_map parts i'
          end
      end
  end.

Definition py_resolve_edge (module_map suffix_map : gmap string string) (e : Edge)
    : Edge :=
  if is_module_import e then
    let mod_name := module_of e in
    match module_map !! mod_name with
    | Some fid => set_target e fid
    | None =>
        match suffix_map !! mod_name with
        | Some fid => set_target e fid
        | None =>
            let parts := PyStr.split "." mod_name in
            match py_prefix_loop module_map suffix_map parts (length parts) with
            | Some fid => set_target e fid
            | None => e
            end
        end
    end
  else e.

Definition py_resolve_imports (python_files : list FileInfo) (g : Graph) : Graph :=
  let '(module_map, suffix_map) := py_maps python_files in
  mkGraph (nodes g) (py_resolve_edge module_map suffix_map <$> edges g).

(** *** JavaScript ([JsAnalyzer.resolve_imports]) *)

Definition JS_STEM_EXTENSIONS : list string :=
  [".js"; ".jsx"; ".ts"; ".tsx"; ".mjs"; ".cjs"].

(** The loop that strips the first extension that the path ends with. *)
Definition js_stem (rel : string) : string :=
  match List.find (λ e, PyStr.endswith rel e) JS_STEM_EXTENSIONS with
  | Some e => PyStr.drop_last (String.length e) rel
  | None => rel
  end.

Definition js_register (file_paths : gmap string string) (fi : FileInfo)
    : gmap string string :=
  let rel := rel_path fi in
  let file_id := file_id_of fi in
  let stem := js_stem rel in
  let fp := <[rel := file_id]> (<[stem := file_id]> file_paths) in
  if PyStr.endswith stem "/index" then <[PyStr.drop_last 6 stem := file_id]> fp
  else fp.

Definition js_file_paths (js_files : list FileInfo) : gmap string string :=
  foldl js_register ∅ js_files.

(** The path that a relative specifier [mod_] names, seen from the file
    of the edge source. *)
Definition js_resolved (source mod_ : string) : string :=
  let source_file := PyStr.replace "file:" "" source in
  let source_dir0 :=
    PyStr.replace "\" "/" (PosixPath.to_str (PosixPath.parent (PosixPath.parse source_file))) in
  let source_dir := if bool_decide (source_dir0 = ".") then "" else source_dir0 in
  let resolved :=
    PyStr.replace "\" "/"
      (PosixPath.to_str (PosixPath.joinpath (PosixPath.parse source_dir) mod_)) in
  PyStr.replace "\" "/" (PosixPath.to_str (PosixPath.parse resolved)).

Definition JS_PROBE_EXTENSIONS : list string := [".js"; ".jsx"; ".ts"; ".tsx"].

(** The loop [for ext in (".js", ".jsx", ".ts", ".tsx")] with its two
    [break]s. *)
Fixpoint js_probe_loop (file_paths : gmap string string) (resolved : string)
    (exts : list string) : option string :=
  match exts with
  | [] => None
  | e :: rest =>
      match file_paths !! (resolved +:+ PyStr.replace "." "/" e) with
      | Some fid => Some fid
      | None =>
          let candidate := resolved in
          match file_paths !! candidate with
          | Some fid => Some fid
          | None => js_probe_loop file_paths resolved rest
          end
      end
  end.

Definition js_resolve_edge (file_paths : gmap string string) (e : Edge) : Edge :=
  if is_module_import e then
    let mod_ := module_of e in
    if PyStr.startswith mod_ "." then
      let resolved := js_resolved (edge_source e) mod_ in
      match file_paths !! resolved with
      | Some fid => set_target e fid
      | None =>
          match js_probe_loop file_paths resolved JS_PROBE_EXTENSIONS with
          | Some fid => set_target e fid
          | None => e
          end
      end
    else e
  else e.

Definition js_resolve_imports (js_files : list FileInfo) (g : Graph) : Graph :=
  mkGraph (nodes g) (js_resolve_edge (js_file_paths js_files) <$> edges g).

(** ** The orchestrator ([orchestrator.py]) *)

(** A discovered file: its descriptor and what each extractor gets when
    it opens the file. *)
Record SourceFile := mkSourceFile {
  sf_info : FileInfo;
  sf_generic : option GenericMatches;
  sf_python : PySource;
  sf_js : option JsMatches
}.

Definition PYTHON_EXTENSIONS : list string := [".py"; ".pyi"].
Definition JS_EXTENSIONS : list string := [".js"; ".jsx"; ".ts"; ".tsx"; ".mjs"; ".cjs"].

Definition python_files_of (files : list SourceFile) : list SourceFile :=
  filter (λ f, member (ext (sf_info f)) PYTHON_EXTENSIONS = true) files.

Definition js_files_of (files : list SourceFile) : list SourceFile :=
  filter (λ f, member (ext (sf_info f)) JS_EXTENSIONS = true) files.

(** [for f in files: generic.analyze_file(f, graph)] *)
Definition generic_pass (files : list SourceFile) (g : Graph) : Graph :=
  foldl (λ acc f, generic_analyze_file (sf_info f) (sf_generic f) acc) g files.

(** [for f in python_files: py_analyzer.analyze_file(f, graph)] *)
Definition python_extraction (python_files : list SourceFile) (g : Graph) : Graph :=
  foldl (λ acc f, py_analyze_file (sf_info f) (sf_python f) acc) g python_files.

(** [if python_files: ...] *)
Definition python_pass (files : list SourceFile) (g : Graph) : Graph :=
  let python_files := python_files_of files in
  match python_files with
  | [] => g
  | _ => py_resolve_imports (sf_info <$> python_files) (python_extraction python_files g)
  end.

(** [for f in js_files: js_analyzer.analyze_file(f, graph)] *)
Definition js_extraction (js_files : list SourceFile) (g : Graph) : Graph :=
  foldl (λ acc f, js_analyze_file (sf_info f) (sf_js f) acc) g js_files.

(** [if js_files: ...] *)
Definition js_pass (files : list SourceFile) (g : Graph) : Graph :=
  let js_files := js_files_of files in
  match js_files with
  | [] => g
  | _ => js_resolve_imports (sf_info <$> js_files) (js_extraction js_files g)
  end.

(** The graph of [analyze_repo] before and after [resolve_edges], for
    the files that [collect_files] returned. *)
Definition pending_graph (files : list SourceFile) : Graph :=
  js_pass files (python_pass files (generic_pass files empty_graph)).

Definition final_graph (files : list SourceFile) : Graph :=
  resolve_edges (pending_graph files).

Record RepoResult := mkRepoResult {
  rr_graph : GraphDict;
  rr_repo_name : string
}.

(** [analyze_repo], from the list of the discovered files on;
    [repo_name] is [Path(repo_path).name]. *)
Definition analyze_repo (repo_name : string) (files : list SourceFile) : RepoResult :=
  mkRepoResult (to_dict (final_graph files)) repo_name.

(** ** Definitions used to state the properties *)

(** The loop of [resolve_edges] as a recursive filter: the edges it
    keeps, given the ids and the keys seen so far. *)
Fixpoint resolve_from (ids : gset string) (seen : gset (string * string * string))
    (es : list Edge) : list Edge :=
  match es with
  | [] => []
  | e :: rest =>
      if bool_decide (edge_source e ∈ ids) && bool_decide (edge_target e ∈ ids)
         && bool_decide (edge_key e ∉ seen)
      then e :: resolve_from ids ({[ edge_key e ]} ∪ seen) rest
      else resolve_from ids seen rest
  end.

(** The first edge of a list with the key of [e]. *)
Definition first_with_key (e : Edge) (es : list Edge) : option Edge :=
  List.find (λ e', bool_decide (edge_key e' = edge_key e)) es.

(** The ids of the nodes of a serialized graph. *)
Definition dict_node_ids (d : GraphDict) : list string :=
  (λ nd, node_id (nd_node nd)) <$> gd_nodes d.

(** What the serialized output of a validated graph satisfies. *)
Definition validated_output (input : list Edge) (d : GraphDict) : Prop :=
  Forall (λ e, edge_source e ∈ dict_node_ids d ∧ edge_target e ∈ dict_node_ids d)
         (gd_edges d)
  ∧ NoDup (edge_key <$> gd_edges d)
  ∧ Forall (λ e, first_with_key e input = Some e) (gd_edges d).

(** The number of edges that leave a node, that enter it, and that touch
    it at either end. *)
Definition out_count (nid : string) (es : list Edge) : nat :=
  length (filter (λ e, edge_source e = nid) es).

Definition in_count (nid : string) (es : list Edge) : nat :=
  length (filter (λ e, edge_target e = nid) es).

Definition touching_count (nid : string) (es : list Edge) : nat :=
  length (filter (λ e, edge_source e = nid ∨ edge_target e = nid) es).

(** The number of edges from a node to itself. *)
Definition loop_count (nid : string) (es : list Edge) : nat :=
  length (filter (λ e, edge_source e = nid ∧ edge_target e = nid) es).

(** No node id is a [module:] placeholder. *)
Definition not_placeholder (nid : string) : Prop :=
  PyStr.startswith nid "module:" = false.

(** [g'] has the nodes of [g], in their order, and after them nodes
    whose ids are no placeholders. *)
Definition grows (g g' : Graph) : Prop :=
  ∃ extra, nodes g' = nodes g ++ extra
           ∧ Forall (λ n, not_placeholder (node_id n)) extra.

(** The first [Some] of a list of lookups. *)
Fixpoint first_hit (probes : list (option string)) : option string :=
  match probes with
  | [] => None
  | Some fid :: _ => Some fid
  | None :: rest => first_hit rest
  end.

(** The dotted prefixes of a module path that are shorter than the path,
    from the longest to the shortest. *)
Definition shorter_prefixes (mod_name : string) : list string :=
  let parts := PyStr.split "." mod_name in
  (λ i, PyStr.join "." (take i parts)) <$> reverse (seq 1 (length parts - 1)).

(** The sequence of lookups that the specification gives for the
    Python resolver: the module map, the suffix map, then each shorter
    prefix in the module map and in the suffix map. *)
Definition spec_py_probes (module_map suffix_map : gmap string string)
    (mod_name : string) : list (option string) :=
  [module_map !! mod_name; suffix_map !! mod_name]
  ++ flat_map (λ p, [module_map !! p; suffix_map !! p]) (shorter_prefixes mod_name).

Definition spec_py_resolve_edge (module_map suffix_map : gmap string string)
    (e : Edge) : Edge :=
  if is_module_import e then
    match first_hit (spec_py_probes module_map suffix_map (module_of e)) with
    | Some fid => set_target e fid
    | None => e
    end
  else e.

(** The lookups that the specification gives for the JavaScript
    resolver: the resolved path with each known extension, and the bare
    path. *)
Definition spec_js_probes (file_paths : gmap string string) (resolved : string)
    : list (option string) :=
  ((λ e, file_paths !! (resolved +:+ e)) <$> JS_PROBE_EXTENSIONS)
  ++ [file_paths !! resolved].

(** The lookups that the code makes, in its order. *)
Definition code_js_probes (file_paths : gmap string string) (resolved : string)
    : list (option string) :=
  file_paths !! resolved
  :: ((λ e, file_paths !! (resolved +:+ PyStr.replace "." "/" e)) <$> JS_PROBE_EXTENSIONS).



(** Two route matches with the same verb and the same path. *)
Definition same_route (m m' : RouteMatch) : Prop :=
  rm_verb m = rm_verb m' ∧ rm_path m = rm_path m'.

(** The number of nodes of a graph with a given id. *)
Definition id_count (nid : string) (g : Graph) : nat :=
  length (filter (λ n, node_id n = nid) (nodes g)).

(** ** Example repositories *)

(** A Python file that calls [db.commit()]: one file node and one
    self-referencing [db_write] edge. *)
Definition db_file : SourceFile :=
  mkSourceFile (mkFileInfo "/repo/a.py" "a.py" ".py" "a.py") None
    (PyParsed (PyModule [Other [Call (Attribute (Name "db") "commit") [] []]]))
    None.

(** Two script files: [a/x.js] imports its sibling [./y]. *)
Definition no_matches (source : string) : JsMatches :=
  mkJsMatches source [] [] [] [] [] [] [] [] [] false false false false false.

Definition sibling_importer : SourceFile :=
  mkSourceFile (mkFileInfo "/repo/a/x.js" "a/x.js" ".js" "x.js") None PyUnreadable
    (Some (mkJsMatches "import y from './y'" [] [] [] [] [] [] ["./y"] [] []
                       false false false false false)).

Definition sibling_y : SourceFile :=
  mkSourceFile (mkFileInfo "/repo/a/y.js" "a/y.js" ".js" "y.js") None PyUnreadable
    (Some (no_matches "export default 1")).

(** A package [pkg/mod] and a module beside it. *)
Definition package_files : list FileInfo :=
  [mkFileInfo "/repo/pkg/mod/__init__.py" "pkg/mod/__init__.py" ".py" "__init__.py";
   mkFileInfo "/repo/pkg/util.py" "pkg/util.py" ".py" "util.py"].

(** A TypeScript file named [js.ts] in the directory [a/y], and one
    named [y.js.ts] in [a]. *)
Definition nested_js_ts : SourceFile :=
  mkSourceFile (mkFileInfo "/repo/a/y/js.ts" "a/y/js.ts" ".ts" "js.ts") None PyUnreadable
    (Some (no_matches "export {}")).

Definition y_js_ts : SourceFile :=
  mkSourceFile (mkFileInfo "/repo/a/y.js.ts" "a/y.js.ts" ".ts" "y.js.ts") None PyUnreadable
    (Some (no_matches "export {}")).

(** A server file with three route registrations, two of them alike. *)
Definition server_source : string :=
  "const app = express()" +:+ String newline
    ("app.get('/users', list)" +:+ String newline
       ("app.use('', log)" +:+ String newline "app.get('/users', again)")).

Definition server_routes : list RouteMatch :=
  [mkRouteMatch VGet "/users" 22; mkRouteMatch VUse "" 46; mkRouteMatch VGet "/users" 63].

Definition server_info : FileInfo := mkFileInfo "/repo/server.js" "server.js" ".js" "server.js".

(** ** The vocabularies of [graph.py] *)

Definition NODE_TYPES : list string :=
  ["endpoint"; "file"; "class"; "function"; "router"; "model"; "service";
   "utility"; "middleware"; "task"; "config"; "test"; "component"; "module"].

Definition EDGE_TYPES : list string :=
  ["imports"; "calls"; "inherits"; "endpoint_handler"; "db_read"; "db_write";
   "api_call"; "uses"; "middleware_chain"].

(** ** Definitions used to state further properties *)

Definition typed_node (n : Node) : Prop := node_type n ∈ NODE_TYPES.
Definition typed_edge (e : Edge) : Prop := edge_type e ∈ EDGE_TYPES.

(** [built P Q g g']: the graph [g'] comes from [g] by calls of
    [add_node], [add_edge] and [add_edge_deferred] alone, with nodes
    that satisfy [P] and edges that satisfy [Q]. *)
Inductive built (P : Node → Prop) (Q : Edge → Prop) (g : Graph) : Graph → Prop :=
| built_refl : built P Q g g
| built_node (n : Node) (g1 : Graph) :
    built P Q g g1 → P n → built P Q g (add_node n g1)
| built_edge (e : Edge) (g1 : Graph) :
    built P Q g g1 → Q e → built P Q g (add_edge e g1)
| built_deferred (e : Edge) (g1 : Graph) :
    built P Q g g1 → Q e → built P Q g (add_edge_deferred e g1).

(** No edge of the graph dangles. *)
Definition closed (g : Graph) : Prop :=
  Forall (λ e, has_node g (edge_source e) = true ∧ has_node g (edge_target e) = true)
         (edges g).

(** The number of nodes, and of edges, of a type. *)
Definition node_type_count (t : string) (ns : list Node) : nat :=
  length (filter (λ n, node_type n = t) ns).

Definition edge_type_count (t : string) (es : list Edge) : nat :=
  length (filter (λ e, edge_type e = t) es).

(** The sum of the degrees that a serialized graph reports. *)
Definition degree_sum (d : GraphDict) : nat := sum_list_with nd_degree (gd_nodes d).

(** The sum of the counts of a dict of counts. *)
Definition count_total (d : gmap string nat) : nat :=
  map_fold (λ _ v acc, v + acc) 0 d.

(** An edge whose source is a node and whose target is a node or the
    [module:] placeholder of an [imports] edge. *)
Definition edge_ok (g : Graph) (e : Edge) : Prop :=
  has_node g (edge_source e) = true
  ∧ (has_node g (edge_target e) = true ∨ is_module_import e = true).

Definition sound (g : Graph) : Prop := Forall (edge_ok g) (edges g).

(** [sound], in a graph that holds the node of the file at hand. *)
Definition sound_with (file_id : string) (g : Graph) : Prop :=
  sound g ∧ has_node g file_id = true.

(** A value of one of the two maps of the Python resolver. *)
Definition in_py_maps (maps : gmap string string * gmap string string) (v : string)
    : Prop :=
  ∃ k, maps.1 !! k = Some v ∨ maps.2 !! k = Some v.

(** ** What the extractors emit *)

(** The node types that the classifier and the extractors assign: all
    of [NODE_TYPES] but ["module"]. *)
Definition EMITTED_NODE_TYPES : list string :=
  ["endpoint"; "file"; "class"; "function"; "router"; "model"; "service";
   "utility"; "middleware"; "task"; "config"; "test"; "component"].

(** The types of the edges that record what the code of a file does. *)
Definition ACTIVITY_TYPES : list string := ["db_read"; "db_write"; "api_call"].

(** A node as the analysis of the file [rel] builds it: a node of that
    file, or the reference to a base class. *)
Definition node_from (rel : string) (n : Node) : Prop :=
  node_type n ∈ EMITTED_NODE_TYPES
  ∧ (node_file_path n = rel
     ∨ (node_file_path n = "" ∧ node_type n = "class"
        ∧ PyStr.startswith (node_id n) "class_ref:" = true)).

(** An edge as the analysis of the file with the node [file_id] builds
    it, by its type. *)
Definition edge_from (file_id : string) (e : Edge) : Prop :=
  (edge_type e = "imports" ∧ edge_source e = file_id)
  ∨ (edge_type e ∈ ACTIVITY_TYPES
     ∧ edge_source e = file_id ∧ edge_target e = file_id)
  ∨ (edge_type e = "uses" ∧ edge_source e = file_id)
  ∨ (edge_type e = "endpoint_handler"
     ∧ (edge_source e = file_id ∨ PyStr.startswith (edge_source e) "class:" = true))
  ∨ (edge_type e = "inherits"
     ∧ PyStr.startswith (edge_source e) "class:" = true
     ∧ PyStr.startswith (edge_target e) "class_ref:" = true).

Definition node_of_files (files : list SourceFile) (n : Node) : Prop :=
  ∃ f, f ∈ files ∧ node_from (rel_path (sf_info f)) n.

Definition edge_of_files (files : list SourceFile) (e : Edge) : Prop :=
  ∃ f, f ∈ files ∧ edge_from (file_id_of (sf_info f)) e.

(** The types of the edges that attach a node to the node of the file
    or of the class it was found in. *)
Definition LINK_TYPES : list string := ["uses"; "endpoint_handler"; "inherits"].

(** A node of a file by its id, or the target of a link among [es]. *)
Definition linked (es : list Edge) (n : Node) : Prop :=
  PyStr.startswith (node_id n) "file:" = true
  ∨ ∃ e, e ∈ es ∧ edge_target e = node_id n ∧ edge_type e ∈ LINK_TYPES.

Definition anchored (g : Graph) : Prop := Forall (linked (edges g)) (nodes g).

(** [anchored], in a graph that holds the node of the file at hand. *)
Definition anchored_with (file_id : string) (g : Graph) : Prop :=
  anchored g ∧ has_node g file_id = true.

(** ** Discovery of the files ([collect_files] of [orchestrator.py]) *)

Definition ALWAYS_SKIP_DIRS : list string :=
  [".git"; ".hg"; ".svn"; "__pycache__"; "node_modules"; ".tox"; ".mypy_cache";
   ".pytest_cache"; ".ruff_cache"; "dist"; "build"; ".eggs"; "*.egg-info";
   ".venv"; "venv"; "env"; ".env"; ".idea"; ".vscode"; ".cursor"; "coverage";
   ".next"; ".nuxt"].

Definition BINARY_EXTENSIONS : list string :=
  [".png"; ".jpg"; ".jpeg"; ".gif"; ".bmp"; ".ico"; ".svg";
   ".woff"; ".woff2"; ".ttf"; ".eot";
   ".zip"; ".tar"; ".gz"; ".bz2"; ".rar"; ".7z";
   ".exe"; ".dll"; ".so"; ".dylib";
   ".pyc"; ".pyo"; ".class";
   ".pdf"; ".doc"; ".docx"; ".xls"; ".xlsx";
   ".mp3"; ".mp4"; ".avi"; ".mov"; ".wav";
   ".db"; ".sqlite"; ".sqlite3";
   ".lock"].

Definition _should_skip_dir (name : string) : bool :=
  member name ALWAYS_SKIP_DIRS || PyStr.startswith name ".".

Definition _is_binary (ext : string) : bool :=
  member (PyStr.lower ext) BINARY_EXTENSIONS.

(** [Path(s).suffix]: the last suffix of the name; a leading or a
    trailing dot does not start a suffix. *)
Definition path_suffix (s : string) : string :=
  let n := PosixPath.name (PosixPath.parse s) in
  match PyStr.rfind "." n with
  | Some i =>
      if Nat.ltb 0 i && Nat.ltb i (String.length n - 1) then PyStr.drop i n else ""
  | None => ""
  end.

(** What [os.walk] reads of a directory: [filenames], and [dirnames]
    with what it reads of each sub-directory that it may enter, both in
    the order of the listing. *)
Inductive FsDir :=
| Dir (filenames : list string) (dirnames : list (string * FsDir)).

(** The result of [_load_gitignore]: [None] without a [.gitignore] file,
    else the [match_file] of the [PathSpec]. The test [if gitignore_spec
    and ...] is false for a [PathSpec] without patterns, whose
    [match_file] accepts nothing. *)
Definition GitIgnore := option (string → bool).

Definition ignored (spec : GitIgnore) (path : string) : bool :=
  match spec with
  | None => false
  | Some match_file => match_file path
  end.

(** The test of the comprehension that prunes [dirnames]. *)
Definition keep_dir (spec : GitIgnore) (rel_dir : PosixPath.t) (d : string) : bool :=
  negb (_should_skip_dir d)
  && negb (ignored spec (PosixPath.to_str (PosixPath.joinpath rel_dir d) +:+ "/")).

(** The body of the loop over [filenames]: the dict of a file, or
    [None] when the loop continues without it. *)
Definition file_entry (spec : GitIgnore) (dirpath rel_dir : PosixPath.t)
    (fname : string) : option FileInfo :=
  let ext := PyStr.lower (path_suffix fname) in
  if _is_binary ext then None
  else
    let rel0 :=
      PyStr.replace "\" "/" (PosixPath.to_str (PosixPath.joinpath rel_dir fname)) in
    let rel := if PyStr.startswith rel0 "./" then PyStr.drop 2 rel0 else rel0 in
    if ignored spec rel then None
    else Some (mkFileInfo (PosixPath.to_str (PosixPath.joinpath dirpath fname))
                          rel ext fname).

(** The loop over [os.walk(root)], top down: the files of a directory,
    then the sub-directories that the pruning kept, in their order. *)
Fixpoint walk_files (spec : GitIgnore) (dirpath rel_dir : PosixPath.t) (d : FsDir)
    : list FileInfo :=
  match d with
  | Dir filenames dirnames =>
      omap (file_entry spec dirpath rel_dir) filenames
      ++ flat_map (λ p, let '(name, sub) := p in
                        if keep_dir spec rel_dir name
                        then walk_files spec (PosixPath.joinpath dirpath name)
                                        (PosixPath.joinpath rel_dir name) sub
                        else [])
                  dirnames
  end.

(** [collect_files]: [root] is [Path(repo_path).resolve()], [tree] what
    is below it, [None] when it is not a directory and the function
    raises [ValueError]. *)
Definition collect_files (root : PosixPath.t) (tree : option FsDir) (spec : GitIgnore)
    : option (list FileInfo) :=
  match tree with
  | None => None
  | Some d => Some (walk_files spec root (PosixPath.mk "" []) d)
  end.

(** *** Paths in a tree *)

(** [in_tree d dirs fname]: the directory reached from [d] through the
    sub-directories [dirs] lists the file [fname]. *)
Inductive in_tree : FsDir → list string → string → Prop :=
| in_tree_here (filenames : list string) (dirnames : list (string * FsDir))
    (fname : string) :
    fname ∈ filenames → in_tree (Dir filenames dirnames) [] fname
| in_tree_below (filenames : list string) (dirnames : list (string * FsDir))
    (name : string) (sub : FsDir) (dirs : list string) (fname : string) :
    (name, sub) ∈ dirnames → in_tree sub dirs fname →
    in_tree (Dir filenames dirnames) (name :: dirs) fname.

(** The path [p / d1 / ... / dn]. *)
Definition descend (p : PosixPath.t) (dirs : list string) : PosixPath.t :=
  foldl PosixPath.joinpath p dirs.

(** The pruning keeps every directory of [dirs], on the way from
    [rel_dir]. *)
Fixpoint path_kept (spec : GitIgnore) (rel_dir : PosixPath.t) (dirs : list string)
    : bool :=
  match dirs with
  | [] => true
  | d :: ds => keep_dir spec rel_dir d && path_kept spec (PosixPath.joinpath rel_dir d) ds
  end.

(** *** The names of a listing

    [os.walk] lists the entries of a directory: a name is not empty, is
    not ["."] and holds no ["/"]; the names of the files of a directory
    are distinct, and so are those of its sub-directories. The names
    below hold no backslash either, which [collect_files] would turn
    into ["/"]. *)
Definition ok_name (x : string) : bool :=
  negb (bool_decide (x = "")) && negb (bool_decide (x = "."))
  && bool_decide (PyStr.count "/" x = 0) && bool_decide (PyStr.count "\" x = 0).

Fixpoint well_formed (d : FsDir) : bool :=
  match d with
  | Dir filenames dirnames =>
      forallb ok_name filenames && bool_decide (NoDup filenames)
      && forallb (λ p, ok_name p.1) dirnames && bool_decide (NoDup dirnames.*1)
      && forallb (λ p, let '(_, sub) := p in well_formed sub) dirnames
  end.

(** A small repository: two files at the root, a package, and a
    directory that the walk prunes. *)
Definition sample_tree : FsDir :=
  Dir ["README.md"; "app.py"]
      [("src", Dir ["app.py"; "logo.png"] [("tests", Dir ["test_app.py"] [])]);
       (".git", Dir ["config"] [])].

(** ** Keys of the resolvers, plain names and dotted expressions *)

(** The keys under which [PythonAnalyzer.resolve_imports] enters a file
    into [suffix_map]: the dotted suffixes of its module name. *)
Definition py_suffixes (rel : string) : list string :=
  let parts := PyStr.split "." (py_module_name rel) in
  (λ i, PyStr.join "." (drop (length parts - i) parts)) <$> seq 1 (length parts).

(** The keys under which [JsAnalyzer.resolve_imports] enters a file
    into [file_paths]. *)
Definition js_keys (rel : string) : list string :=
  [js_stem rel; rel]
  ++ (if PyStr.endswith (js_stem rel) "/index" then [PyStr.drop_last 6 (js_stem rel)]
      else []).

(** A name without a dot, a slash or a backslash: a directory of a
    package, or the name of a module file without its extension. *)
Definition plain_name (x : string) : bool :=
  bool_decide (PyStr.count "/" x = 0) && bool_decide (PyStr.count "\" x = 0)
  && bool_decide (PyStr.count "." x = 0).

(** [Attribute(... Attribute(base, a1) ..., an)]: the expression
    [base.a1. ... .an]. *)
Definition dotted (base : ast) (attrs : list string) : ast := foldl Attribute base attrs.

(** The methods that [_guess_http_method] returns. *)
Definition HTTP_METHODS : list string :=
  ["GET"; "POST"; "PUT"; "PATCH"; "DELETE"; "HEAD"; "OPTIONS"].

(** ** Further example inputs *)

(** Two script files whose routes spell the same id: [a.js] registers
    the path [/b.js:GET:/p], and [b.js] of the directory [a.js:GET:]
    registers the path [/p]. *)
Definition colon_route_a : SourceFile :=
  mkSourceFile (mkFileInfo "/repo/a.js" "a.js" ".js" "a.js") None PyUnreadable
    (Some (mkJsMatches "app.get('/b.js:GET:/p', h)" [mkRouteMatch VGet "/b.js:GET:/p" 0]
                       [] [] [] [] [] [] [] [] false false false false false)).

Definition colon_route_b : SourceFile :=
  mkSourceFile (mkFileInfo "/repo/a.js:GET:/b.js" "a.js:GET:/b.js" ".js" "b.js") None
    PyUnreadable
    (Some (mkJsMatches "app.get('/p', h)" [mkRouteMatch VGet "/p" 0]
                       [] [] [] [] [] [] [] [] false false false false false)).



(** A graph of two nodes and the edge between them, and an edge back. *)
Definition two_node_graph : Graph :=
  mkGraph [mkNode "file:a.py" "a.py" "file" "a.py" 0 [];
           mkNode "func:a.py:f" "f" "function" "a.py" 1 []]
          [mkEdge "file:a.py" "func:a.py:f" "uses" []].

Definition back_edge : Edge := mkEdge "func:a.py:f" "file:a.py" "uses" [].

(** * Verification *)

(** ** [ast.walk] visits every node

    The fuel of [walk] is the size of the tree. The lemmas below show
    that this is enough: more fuel yields the same list, and the list
    has one entry for each node of the tree. *)

Lemma forest_size_app (l1 l2 : list ast) :
  forest_size (l1 ++ l2) = forest_size l1 + forest_size l2.
Proof. unfold forest_size. apply sum_list_with_app. Qed.

Lemma forest_size_cons (t : ast) (l : list ast) :
  forest_size (t :: l) = ast_size t + forest_size l.
Proof. reflexivity. Qed.

Lemma ast_size_children (t : ast) :
  ast_size t = S (forest_size (iter_child_nodes t)).
Proof.
  destruct t as [body|n bases kws body decos l|n args body decos ret l
                |n args body decos ret l|ns|m ns|f args kws|v a|i|ch];
    try destruct ret; unfold forest_size; simpl;
    rewrite ?sum_list_with_app; simpl; unfold sum_list_with; lia.
Qed.

Lemma walk_queue_enough (fuel : nat) (todo : list ast) :
  (forest_size todo ≤ fuel)%nat →
  walk_queue fuel todo = walk_queue (forest_size todo) todo.
Proof.
  revert todo. induction fuel as [|fuel IH]; intros todo Hle.
  - destruct todo as [|x rest]; [reflexivity|].
    rewrite forest_size_cons, ast_size_children in Hle. lia.
  - destruct todo as [|x rest]; [reflexivity|].
    rewrite forest_size_cons, ast_size_children in *. simpl.
    f_equal. rewrite IH by (rewrite forest_size_app; lia).
    f_equal. rewrite forest_size_app. lia.
Qed.

Lemma walk_queue_length (todo : list ast) :
  length (walk_queue (forest_size todo) todo) = forest_size todo.
Proof.
  remember (forest_size todo) as n eqn:Hn. revert todo Hn.
  induction n as [|n IH]; intros todo Hn; [reflexivity|].
  destruct todo as [|x rest]; [discriminate|].
  rewrite forest_size_cons, ast_size_children in Hn. simpl. f_equal.
  apply IH. rewrite forest_size_app. lia.
Qed.

Lemma walk_length (t : ast) : length (walk t) = ast_size t.
Proof.
  unfold walk.
  replace (ast_size t) with (forest_size [t]) by (unfold forest_size; simpl; lia).
  apply walk_queue_length.
Qed.

(** ** The node store *)

Lemma has_node_true (g : Graph) (nid : string) :
  has_node g nid = true ↔ nid ∈ node_ids g.
Proof. unfold has_node. apply bool_decide_eq_true. Qed.

Lemma has_node_false (g : Graph) (nid : string) :
  has_node g nid = false ↔ nid ∉ node_ids g.
Proof. unfold has_node. apply bool_decide_eq_false. Qed.

Lemma find_app_first {A} (f : A → bool) (l1 l2 : list A) :
  List.find f (l1 ++ l2)
  = match List.find f l1 with Some x => Some x | None => List.find f l2 end.
Proof.
  induction l1 as [|x l1 IH]; simpl; [reflexivity|].
  destruct (f x); [reflexivity | exact IH].
Qed.

Lemma find_id_None (l : list Node) (nid : string) :
  List.find (λ n, bool_decide (node_id n = nid)) l = None ↔ nid ∉ node_id <$> l.
Proof.
  induction l as [|x l IH]; simpl.
  - split; [intros _; apply not_elem_of_nil | reflexivity].
  - rewrite not_elem_of_cons. case_bool_decide as Hx.
    + split; [discriminate | intros [Hne _]; congruence].
    + rewrite IH. split; [intros H; split; [congruence | exact H] | intros [_ H]; exact H].
Qed.

Lemma get_node_None (g : Graph) (nid : string) :
  get_node g nid = None ↔ has_node g nid = false.
Proof. rewrite has_node_false. apply find_id_None. Qed.

Lemma get_node_Some (g : Graph) (nid : string) (n : Node) :
  get_node g nid = Some n → node_id n = nid ∧ n ∈ nodes g.
Proof.
  unfold get_node. intros H. apply find_some in H as [Hin Hid].
  apply bool_decide_eq_true in Hid. split; [exact Hid | by apply list_elem_of_In].
Qed.

Lemma has_node_get (g : Graph) (nid : string) :
  has_node g nid = true → ∃ n, get_node g nid = Some n.
Proof.
  intros H. destruct (get_node g nid) as [n|] eqn:E; [by exists n|].
  apply get_node_None in E. congruence.
Qed.

(** What [add_node] does to a lookup. *)
Lemma get_node_add_node (g : Graph) (n : Node) (nid : string) :
  get_node (add_node n g) nid
  = match get_node g nid with
    | Some x => Some x
    | None => if bool_decide (node_id n = nid) then Some n else None
    end.
Proof.
  unfold add_node. destruct (has_node g (node_id n)) eqn:Hn.
  - destruct (get_node g nid) as [x|] eqn:E; [reflexivity|].
    case_bool_decide as Hid; [|reflexivity].
    subst nid. apply get_node_None in E. congruence.
  - unfold get_node at 1. simpl. rewrite find_app_first. fold (get_node g nid).
    destruct (get_node g nid); [reflexivity|]. simpl.
    destruct (bool_decide (node_id n = nid)); reflexivity.
Qed.

Lemma node_ids_add_node (g : Graph) (n : Node) (nid : string) :
  nid ∈ node_ids (add_node n g) ↔ nid ∈ node_ids g ∨ nid = node_id n.
Proof.
  unfold add_node. destruct (has_node g (node_id n)) eqn:Hn.
  - apply has_node_true in Hn. split; [by left | intros [H| ->]; assumption].
  - unfold node_ids. simpl. rewrite fmap_app, elem_of_app. simpl.
    rewrite list_elem_of_singleton. reflexivity.
Qed.

Lemma has_node_add_node_same (g : Graph) (n : Node) :
  has_node (add_node n g) (node_id n) = true.
Proof. apply has_node_true, node_ids_add_node. by right. Qed.

Lemma edges_add_node (g : Graph) (n : Node) : edges (add_node n g) = edges g.
Proof. unfold add_node. by destruct (has_node g (node_id n)). Qed.

Lemma nodes_add_edge (g : Graph) (e : Edge) : nodes (add_edge e g) = nodes g.
Proof. unfold add_edge. by destruct (_ && _). Qed.

Lemma nodes_add_edge_deferred (g : Graph) (e : Edge) :
  nodes (add_edge_deferred e g) = nodes g.
Proof. reflexivity. Qed.

Lemma id_count_add_node (g : Graph) (n : Node) (nid : string) :
  id_count nid (add_node n g)
  = id_count nid g
    + (if has_node g (node_id n) then 0
       else if bool_decide (node_id n = nid) then 1 else 0).
Proof.
  unfold add_node, id_count. destruct (has_node g (node_id n)); simpl; [lia|].
  rewrite filter_app, length_app. f_equal.
  rewrite filter_cons, filter_nil.
  case_bool_decide; destruct (decide (node_id n = nid)); simpl; congruence.
Qed.

Lemma id_count_absent (g : Graph) (nid : string) :
  has_node g nid = false → id_count nid g = 0.
Proof.
  rewrite has_node_false. unfold id_count, node_ids.
  induction (nodes g) as [|x l IH]; simpl; [reflexivity|].
  rewrite not_elem_of_cons. intros [Hne Hl]. rewrite filter_cons.
  destruct (decide (node_id x = nid)); [congruence | by apply IH].
Qed.

(** C2. [add_node] inserts the node exactly when its id is absent from
    the node set, it is defined on every graph and every node, and it
    never touches the edges. Once a node is stored under an id, a second
    [add_node] with the same id leaves the whole graph as it is, so the
    lookup of the id still returns the first node with every field
    (label, type, file path, line number, metadata) as it was. *)
Theorem add_node_first_wins (g : Graph) (n : Node) :
  (has_node g (node_id n) = false ↔ nodes (add_node n g) = nodes g ++ [n])
  ∧ (has_node g (node_id n) = true ↔ add_node n g = g)
  ∧ edges (add_node n g) = edges g
  ∧ (∀ first, get_node g (node_id n) = Some first →
       get_node (add_node n g) (node_id n) = Some first)
  ∧ (get_node g (node_id n) = None → get_node (add_node n g) (node_id n) = Some n)
  ∧ (∀ second, node_id second = node_id n →
       add_node second (add_node n g) = add_node n g).
Proof.
  assert (Hgrow : nodes g ≠ nodes g ++ [n]).
  { intros H. apply (f_equal length) in H. rewrite length_app in H. simpl in H. lia. }
  repeat split.
  - intros H. unfold add_node. by rewrite H.
  - intros H. destruct (has_node g (node_id n)) eqn:E; [|reflexivity].
    unfold add_node in H. rewrite E in H. by destruct Hgrow.
  - intros H. unfold add_node. by rewrite H.
  - intros H. destruct (has_node g (node_id n)) eqn:E; [reflexivity|].
    unfold add_node in H. rewrite E in H. apply (f_equal nodes) in H.
    simpl in H. by destruct Hgrow.
  - apply edges_add_node.
  - intros first H. by rewrite get_node_add_node, H.
  - intros H. rewrite get_node_add_node, H. by rewrite bool_decide_eq_true_2.
  - intros second Hid. unfold add_node at 1.
    by rewrite Hid, has_node_add_node_same.
Qed.

(** A second insertion under a taken id, on a concrete graph. *)
Lemma add_node_first_wins_witness :
  let first := mkNode "file:a.py" "a.py" "file" "a.py" 0 [("extension", MStr ".py")] in
  let second := mkNode "file:a.py" "other" "test" "b.py" 7 [] in
  get_node (add_node second (add_node first empty_graph)) "file:a.py" = Some first.
Proof.
  intros first second.
  destruct (add_node_first_wins (add_node first empty_graph) second)
    as (_ & _ & _ & Hkeep & _).
  apply Hkeep. reflexivity.
Defined.

(** ** The validation pass *)

Section validation.

(** The set [node_ids] of the pass; [keys] is the type of the set [seen]. *)
Context (ids : gset string).
Local Abbreviation keys := (gset (string * string * string)).

Lemma resolve_loop_from (es valid : list Edge) (seen : keys) :
  (foldl (resolve_step ids) (valid, seen) es).1 = valid ++ resolve_from ids seen es.
Proof.
  revert valid seen. induction es as [|e es IH]; intros valid seen; simpl.
  - by rewrite app_nil_r.
  - destruct (_ && _); rewrite IH; [by rewrite <- app_assoc | reflexivity].
Qed.

(** The three tests of the loop, as propositions. *)
Lemma resolve_test (seen : keys) (e : Edge) :
  bool_decide (edge_source e ∈ ids) && bool_decide (edge_target e ∈ ids)
  && bool_decide (edge_key e ∉ seen) = true
  ↔ edge_source e ∈ ids ∧ edge_target e ∈ ids ∧ edge_key e ∉ seen.
Proof.
  rewrite !andb_true_iff, !bool_decide_eq_true. tauto.
Qed.

Lemma resolve_from_kept (es : list Edge) (seen : keys) (e : Edge) :
  e ∈ resolve_from ids seen es →
  e ∈ es ∧ edge_source e ∈ ids ∧ edge_target e ∈ ids ∧ edge_key e ∉ seen.
Proof.
  revert seen. induction es as [|x es IH]; intros seen; simpl.
  - intros H. by apply elem_of_nil in H.
  - destruct (_ && _) eqn:T.
    + apply resolve_test in T as (Hs & Ht & Hk).
      intros [-> | H]%elem_of_cons.
      * repeat split; try assumption. apply elem_of_cons. by left.
      * apply IH in H as (Hin & Hs' & Ht' & Hk').
        repeat split; try assumption; [apply elem_of_cons; by right|].
        intros Hseen. apply Hk', elem_of_union. by right.
    + intros H. apply IH in H as (Hin & Hs' & Ht' & Hk').
      repeat split; try assumption. apply elem_of_cons. by right.
Qed.

Lemma resolve_from_NoDup (es : list Edge) (seen : keys) :
  NoDup (edge_key <$> resolve_from ids seen es).
Proof.
  revert seen. induction es as [|x es IH]; intros seen; simpl.
  - constructor.
  - destruct (_ && _); [|apply IH].
    rewrite fmap_cons. constructor; [|apply IH].
    intros (e & Hk & He)%list_elem_of_fmap.
    apply resolve_from_kept in He as (_ & _ & _ & Hnot).
    rewrite Hk in Hnot. set_solver.
Qed.

Lemma resolve_from_first (es : list Edge) (seen : keys) (e : Edge) :
  e ∈ resolve_from ids seen es → first_with_key e es = Some e.
Proof.
  unfold first_with_key. revert seen.
  induction es as [|x es IH]; intros seen; simpl.
  - intros H. by apply elem_of_nil in H.
  - destruct (_ && _) eqn:T.
    + intros [<- | H]%elem_of_cons.
      * by rewrite bool_decide_eq_true_2.
      * pose proof H as H'. apply resolve_from_kept in H' as (_ & _ & _ & Hk).
        rewrite bool_decide_eq_false_2; [by apply (IH _ H)|].
        intros Heq. apply Hk, elem_of_union. left. by apply elem_of_singleton.
    + intros H. pose proof H as H'.
      apply resolve_from_kept in H' as (_ & Hs & Ht & Hk).
      destruct (decide (edge_key x = edge_key e)) as [Hx|Hx];
        [|rewrite bool_decide_eq_false_2 by exact Hx; by apply (IH _ H)].
      exfalso. apply not_true_iff_false in T. apply T, resolve_test.
      unfold edge_key in Hx. injection Hx as Hxs Hxt Hxy.
      rewrite Hxs, Hxt. repeat split; try assumption.
      unfold edge_key. by rewrite Hxs, Hxt, Hxy.
Qed.

(** An edge with both ends known and a fresh key is represented in the
    result by an edge with its key. *)
Lemma resolve_from_complete (es : list Edge) (seen : keys) (e : Edge) :
  e ∈ es → edge_source e ∈ ids → edge_target e ∈ ids → edge_key e ∉ seen →
  edge_key e ∈ edge_key <$> resolve_from ids seen es.
Proof.
  revert seen. induction es as [|x es IH]; intros seen Hin Hs Ht Hk.
  - by apply elem_of_nil in Hin.
  - simpl. apply elem_of_cons in Hin as [-> | Hin].
    + rewrite (proj2 (resolve_test seen x)) by done.
      rewrite fmap_cons. apply elem_of_cons. by left.
    + destruct (_ && _) eqn:T; [|by apply IH].
      rewrite fmap_cons. apply elem_of_cons.
      destruct (decide (edge_key e = edge_key x)) as [Heq|Hne]; [by left|right].
      apply IH; try assumption.
      intros [Hin'|Hin']%elem_of_union; [|by apply Hk].
      by apply elem_of_singleton in Hin'.
Qed.

(** A list that is already valid passes the loop unchanged. *)
Lemma resolve_from_fixed (es : list Edge) (seen : keys) :
  Forall (λ e, edge_source e ∈ ids ∧ edge_target e ∈ ids ∧ edge_key e ∉ seen) es →
  NoDup (edge_key <$> es) →
  resolve_from ids seen es = es.
Proof.
  revert seen. induction es as [|x es IH]; intros seen Hall Hnd; [reflexivity|].
  simpl. apply Forall_cons in Hall as [Hx Hall].
  rewrite fmap_cons in Hnd. apply NoDup_cons in Hnd as [Hfresh Hnd].
  rewrite (proj2 (resolve_test seen x)) by exact Hx. f_equal.
  apply IH; [|exact Hnd].
  rewrite Forall_forall in Hall. apply Forall_forall. intros e He.
  destruct (Hall e He) as (Hs & Ht & Hk). repeat split; try assumption.
  intros [Hin | Hin]%elem_of_union; [|by apply Hk].
  apply elem_of_singleton in Hin. apply Hfresh, list_elem_of_fmap.
  by exists e.
Qed.

Lemma resolve_from_valid (es : list Edge) :
  Forall (λ e, edge_source e ∈ ids ∧ edge_target e ∈ ids
               ∧ edge_key e ∉ (∅ : keys))
         (resolve_from ids ∅ es).
Proof.
  apply Forall_forall. intros e He.
  apply resolve_from_kept in He as (_ & Hs & Ht & Hk). by repeat split.
Qed.

End validation.

Lemma edges_resolve_edges (g : Graph) :
  edges (resolve_edges g) = resolve_from (list_to_set (node_ids g)) ∅ (edges g).
Proof. unfold resolve_edges. simpl. by rewrite resolve_loop_from. Qed.

Lemma nodes_resolve_edges (g : Graph) : nodes (resolve_edges g) = nodes g.
Proof. reflexivity. Qed.

Lemma dict_node_ids_to_dict (g : Graph) : dict_node_ids (to_dict g) = node_ids g.
Proof.
  unfold dict_node_ids, to_dict, node_ids. simpl.
  rewrite <- list_fmap_compose. reflexivity.
Qed.

Lemma validated_output_resolve (g : Graph) :
  validated_output (edges g) (to_dict (resolve_edges g)).
Proof.
  unfold validated_output. rewrite dict_node_ids_to_dict.
  change (gd_edges (to_dict (resolve_edges g))) with (edges (resolve_edges g)).
  change (node_ids (resolve_edges g)) with (node_ids g).
  rewrite edges_resolve_edges. repeat split.
  - apply Forall_forall. intros e He.
    apply resolve_from_kept in He as (_ & Hs & Ht & _).
    by rewrite !elem_of_list_to_set in Hs, Ht.
  - apply resolve_from_NoDup.
  - apply Forall_forall. intros e He. by apply resolve_from_first in He.
Qed.

(** C1. In the serialized output of a validated graph every edge has its
    source and its target among the serialized nodes, no two edges have
    the same (source, target, type), and each edge of the output is the
    first edge of the input with its triple. This holds for the graph of
    every repository, since [analyze_repo] serializes the result of
    [resolve_edges]; conversely an edge whose ends are nodes is
    represented in the output by an edge with its triple. *)
Theorem resolve_edges_output_valid :
  (∀ g : Graph, validated_output (edges g) (to_dict (resolve_edges g)))
  ∧ (∀ (repo_name : string) (files : list SourceFile),
       validated_output (edges (pending_graph files))
                        (rr_graph (analyze_repo repo_name files)))
  ∧ (∀ g : Graph,
       Forall (λ e, has_node g (edge_source e) = true →
                    has_node g (edge_target e) = true →
                    edge_key e ∈ edge_key <$> gd_edges (to_dict (resolve_edges g)))
              (edges g)).
Proof.
  split; [exact validated_output_resolve|]. split.
  - intros repo_name files. unfold analyze_repo, final_graph. simpl.
    apply validated_output_resolve.
  - intros g. apply Forall_forall. intros e He Hs Ht.
    change (gd_edges (to_dict (resolve_edges g))) with (edges (resolve_edges g)).
    rewrite edges_resolve_edges.
    apply has_node_true in Hs, Ht.
    apply resolve_from_complete; rewrite ?elem_of_list_to_set; done.
Qed.

(** C10. [resolve_edges] never adds, removes or changes a node, and a
    second pass returns the graph of the first: the same nodes and the
    same list of edges. *)
Theorem resolve_edges_idempotent (g : Graph) :
  nodes (resolve_edges g) = nodes g
  ∧ edges (resolve_edges (resolve_edges g)) = edges (resolve_edges g)
  ∧ resolve_edges (resolve_edges g) = resolve_edges g.
Proof.
  assert (He : edges (resolve_edges (resolve_edges g)) = edges (resolve_edges g)).
  { rewrite (edges_resolve_edges (resolve_edges g)).
    change (node_ids (resolve_edges g)) with (node_ids g).
    rewrite edges_resolve_edges.
    apply resolve_from_fixed; [apply resolve_from_valid | apply resolve_from_NoDup]. }
  repeat split; [exact He|].
  destruct (resolve_edges (resolve_edges g)) as [ns es] eqn:E.
  destruct (resolve_edges g) as [ns' es'] eqn:E'.
  simpl in He. subst es'. f_equal.
  change ns with (nodes (mkGraph ns es)). rewrite <- E.
  change ns' with (nodes (mkGraph ns' es)). rewrite <- E'. reflexivity.
Qed.

(** ** Serialization: the degree of a node *)

Lemma bump_lookup (k : string) (d : gmap string nat) (nid : string) :
  default 0 (bump k d !! nid)
  = default 0 (d !! nid) + (if bool_decide (k = nid) then 1 else 0).
Proof.
  unfold bump. case_bool_decide as Hk.
  - subst k. by rewrite lookup_insert_eq.
  - rewrite lookup_insert_ne by exact Hk. lia.
Qed.

Lemma count_cons (P : Edge → Prop) `{∀ e, Decision (P e)} (e : Edge) (es : list Edge) :
  length (filter P (e :: es)) = (if bool_decide (P e) then 1 else 0) + length (filter P es).
Proof.
  rewrite filter_cons. case_bool_decide as HP.
  - by rewrite decide_True.
  - by rewrite decide_False.
Qed.

Lemma degree_loop (es : list Edge) (d : gmap string nat) (nid : string) :
  default 0 (foldl (λ d e, bump (edge_target e) (bump (edge_source e) d)) d es !! nid)
  = default 0 (d !! nid) + out_count nid es + in_count nid es.
Proof.
  revert d. induction es as [|e es IH]; intros d.
  - unfold out_count, in_count. simpl. lia.
  - simpl. rewrite IH, !bump_lookup. unfold out_count, in_count.
    rewrite !count_cons. lia.
Qed.

Lemma degree_init (l : list Node) (nid : string) :
  default 0 ((list_to_map ((λ n, (node_id n, 0)) <$> l) : gmap string nat) !! nid) = 0.
Proof.
  induction l as [|x l IH]; simpl; [by rewrite lookup_empty|].
  destruct (decide (node_id x = nid)) as [->|Hne].
  - by rewrite lookup_insert_eq.
  - by rewrite lookup_insert_ne.
Qed.

Lemma node_degree_counts (g : Graph) (nid : string) :
  default 0 (node_degree g !! nid) = out_count nid (edges g) + in_count nid (edges g).
Proof. unfold node_degree. by rewrite degree_loop, degree_init. Qed.

Lemma out_in_touching (nid : string) (es : list Edge) :
  out_count nid es + in_count nid es = touching_count nid es + loop_count nid es.
Proof.
  unfold out_count, in_count, touching_count, loop_count.
  induction es as [|e es IH]; [reflexivity|].
  rewrite !count_cons.
  repeat case_bool_decide; try lia; tauto.
Qed.

(** C8, as the code has it. [to_dict] reports for each node the number
    of edge ends at that node: the edges that leave it plus the edges
    that enter it. This is the number of edges touching the node plus
    the number of its self-referencing edges, so an edge with source =
    target adds two to the degree of its node. *)
Theorem to_dict_degree_counts_ends (g : Graph) :
  gd_nodes (to_dict g)
  = (λ n, mkNodeDict n (out_count (node_id n) (edges g) + in_count (node_id n) (edges g)))
      <$> nodes g
  ∧ Forall (λ nd, nd_degree nd
                  = touching_count (node_id (nd_node nd)) (edges g)
                    + loop_count (node_id (nd_node nd)) (edges g))
           (gd_nodes (to_dict g)).
Proof.
  assert (H : gd_nodes (to_dict g)
              = (λ n, mkNodeDict n (out_count (node_id n) (edges g)
                                    + in_count (node_id n) (edges g))) <$> nodes g).
  { unfold to_dict. simpl. apply list_fmap_ext. intros _ n _.
    by rewrite node_degree_counts. }
  split; [exact H|]. rewrite H. apply Forall_fmap, Forall_forall.
  intros n _. simpl. apply out_in_touching.
Qed.

(** C8, as stated, fails: one edge touches the node of the file, and the
    reported degree is two. *)
Lemma degree_self_edge_counterexample :
  let out := rr_graph (analyze_repo "repo" [db_file]) in
  gd_edges out = [self_edge "file:a.py" "db_write"
                            [("method", MStr "commit"); ("object", MStr "db")]]
  ∧ touching_count "file:a.py" (gd_edges out) = 1
  ∧ (λ nd, (node_id (nd_node nd), nd_degree nd)) <$> gd_nodes out = [("file:a.py", 2)].
Proof. vm_compute. repeat split. Qed.

(** ** The extraction passes only add nodes, and never a placeholder *)

Lemma grows_refl (g : Graph) : grows g g.
Proof. exists []. by rewrite app_nil_r. Qed.

Lemma grows_trans (g1 g2 g3 : Graph) : grows g1 g2 → grows g2 g3 → grows g1 g3.
Proof.
  intros (x1 & E1 & F1) (x2 & E2 & F2). exists (x1 ++ x2). split.
  - by rewrite E2, E1, app_assoc.
  - by apply Forall_app.
Qed.

Lemma grows_same_nodes (g g1 g2 : Graph) :
  nodes g2 = nodes g1 → grows g g1 → grows g g2.
Proof. intros E (x & E1 & F1). exists x. by rewrite E. Qed.

Lemma grows_add_node (g g1 : Graph) (n : Node) :
  not_placeholder (node_id n) → grows g g1 → grows g (add_node n g1).
Proof.
  intros Hn H. apply (grows_trans _ g1); [exact H|].
  unfold add_node. destruct (has_node g1 (node_id n)); [apply grows_refl|].
  exists [n]. split; [reflexivity|]. by constructor.
Qed.

Lemma grows_add_edge (g g1 : Graph) (e : Edge) : grows g g1 → grows g (add_edge e g1).
Proof. apply grows_same_nodes, nodes_add_edge. Qed.

Lemma grows_add_edge_deferred (g g1 : Graph) (e : Edge) :
  grows g g1 → grows g (add_edge_deferred e g1).
Proof. apply grows_same_nodes. reflexivity. Qed.

Lemma grows_foldl {A} (f : Graph → A → Graph) (l : list A) (g g1 : Graph) :
  (∀ acc x, grows acc (f acc x)) → grows g g1 → grows g (foldl f g1 l).
Proof.
  intros Hf. revert g1. induction l as [|x l IH]; intros g1 H; simpl; [exact H|].
  apply IH. apply (grows_trans _ g1); [exact H | apply Hf].
Qed.

Lemma grows_foldl_state {A S} (f : Graph * S → A → Graph * S) (l : list A)
    (g : Graph) (st : Graph * S) :
  (∀ st x, grows st.1 (f st x).1) → grows g st.1 → grows g (foldl f st l).1.
Proof.
  intros Hf. revert st. induction l as [|x l IH]; intros st H; simpl; [exact H|].
  apply IH. apply (grows_trans _ st.1); [exact H | apply Hf].
Qed.

(** One step of a proof that an extractor grows the graph. *)
Ltac grows_step :=
  first
    [ assumption
    | apply grows_refl
    | apply grows_add_edge
    | apply grows_add_edge_deferred
    | apply grows_add_node; [reflexivity|]
    | apply grows_foldl; [intros ? ?|]
    | match goal with |- grows _ (if ?c then _ else _) => destruct c end
    | match goal with |- grows _ (match ?c with _ => _ end) => destruct c end ].

Ltac grows_tac := repeat grows_step.

Lemma grows_emit_imports (file_id : string) (targets : list string) (g g1 : Graph) :
  grows g g1 → grows g (emit_imports file_id targets g1).
Proof. intros H. unfold emit_imports. grows_tac. Qed.

Lemma grows_generic_analyze_file (fi : FileInfo) (read : option GenericMatches)
    (g : Graph) :
  grows g (generic_analyze_file fi read g).
Proof.
  unfold generic_analyze_file, _extract_generic_imports, file_node, file_id_of.
  destruct (member (ext fi) DEDICATED_EXTENSIONS); [grows_tac|].
  destruct read; [apply grows_emit_imports|]; grows_tac.
Qed.

Lemma grows_extract_class (fi : FileInfo) (file_id : string) (g : Graph) (node : ast) :
  grows g (extract_class fi file_id g node).
Proof. unfold extract_class. destruct node; grows_tac. Qed.

Lemma grows_extract_function (fi : FileInfo) (file_id : string) (g : Graph)
    (node : ast) :
  grows g (extract_function fi file_id g node).
Proof. unfold extract_function. grows_tac. Qed.

Lemma grows_extract_import (file_id : string) (g : Graph) (node : ast) :
  grows g (extract_import file_id g node).
Proof. unfold extract_import. grows_tac. Qed.

Lemma grows_extract_call (file_id : string) (g : Graph) (node : ast) :
  grows g (extract_call file_id g node).
Proof. unfold extract_call. grows_tac. Qed.

Lemma grows_py_analyze_file (fi : FileInfo) (src : PySource) (g : Graph) :
  grows g (py_analyze_file fi src g).
Proof.
  unfold py_analyze_file. destruct src; try apply grows_refl.
  unfold _extract_calls, py_extract_imports, _extract_functions, _extract_classes.
  repeat (apply grows_foldl;
          [first [apply grows_extract_call | apply grows_extract_import
                 | apply grows_extract_function | apply grows_extract_class]|]).
  apply grows_refl.
Qed.

Lemma grows_extract_route (source : string) (fi : FileInfo) (file_id : string)
    (g : Graph) (m : RouteMatch) :
  grows g (extract_route source fi file_id g m).
Proof. unfold extract_route. grows_tac. Qed.

Lemma grows_extract_js_class (source : string) (fi : FileInfo) (file_id : string)
    (st : Graph * gset string) (m : ClassMatch) :
  grows st.1 (extract_js_class source fi file_id st m).1.
Proof. destruct st as [g seen]. unfold extract_js_class. simpl. grows_tac. Qed.

Lemma grows_extract_js_function (source : string) (fi : FileInfo) (file_id : string)
    (st : Graph * gset string) (m : NameMatch) :
  grows st.1 (extract_js_function source fi file_id st m).1.
Proof.
  destruct st as [g seen]. unfold extract_js_function.
  destruct (bool_decide (nm_name m ∈ seen)); simpl; grows_tac.
Qed.

Lemma grows_extract_model (source : string) (fi : FileInfo) (file_id : string)
    (g : Graph) (m : NameMatch) :
  grows g (extract_model source fi file_id g m).
Proof. unfold extract_model. grows_tac. Qed.

Lemma grows_js_analyze_file (fi : FileInfo) (read : option JsMatches) (g : Graph) :
  grows g (js_analyze_file fi read g).
Proof.
  unfold js_analyze_file. destruct read as [src|]; [|apply grows_refl].
  unfold _detect_router, _extract_db_ops, _extract_api_calls, js_extract_imports,
    _extract_models, _extract_functions_and_classes, _extract_routes.
  grows_tac; try apply grows_emit_imports; grows_tac;
    try apply grows_extract_model; try apply grows_extract_route;
    repeat (apply grows_foldl_state;
            [first [apply grows_extract_js_function | apply grows_extract_js_class]|]);
    simpl; grows_tac; apply grows_extract_route.
Qed.

Lemma grows_generic_pass (files : list SourceFile) (g : Graph) :
  grows g (generic_pass files g).
Proof.
  unfold generic_pass. apply grows_foldl; [|apply grows_refl].
  intros acc f. apply grows_generic_analyze_file.
Qed.

Lemma grows_python_extraction (l : list SourceFile) (g : Graph) :
  grows g (python_extraction l g).
Proof.
  unfold python_extraction. apply grows_foldl; [|apply grows_refl].
  intros acc f. apply grows_py_analyze_file.
Qed.

Lemma grows_js_extraction (l : list SourceFile) (g : Graph) :
  grows g (js_extraction l g).
Proof.
  unfold js_extraction. apply grows_foldl; [|apply grows_refl].
  intros acc f. apply grows_js_analyze_file.
Qed.

Lemma nodes_py_resolve_imports (l : list FileInfo) (g : Graph) :
  nodes (py_resolve_imports l g) = nodes g.
Proof. unfold py_resolve_imports. by destruct (py_maps l). Qed.

Lemma nodes_js_resolve_imports (l : list FileInfo) (g : Graph) :
  nodes (js_resolve_imports l g) = nodes g.
Proof. reflexivity. Qed.

Lemma grows_python_pass (files : list SourceFile) (g : Graph) :
  grows g (python_pass files g).
Proof.
  unfold python_pass. destruct (python_files_of files) as [|f l]; [apply grows_refl|].
  eapply grows_same_nodes; [apply nodes_py_resolve_imports|].
  apply grows_python_extraction.
Qed.

Lemma grows_js_pass (files : list SourceFile) (g : Graph) :
  grows g (js_pass files g).
Proof.
  unfold js_pass. destruct (js_files_of files) as [|f l]; [apply grows_refl|].
  eapply grows_same_nodes; [apply nodes_js_resolve_imports|].
  apply grows_js_extraction.
Qed.

Lemma grows_pending_graph (files : list SourceFile) :
  grows (generic_pass files empty_graph) (pending_graph files).
Proof.
  unfold pending_graph.
  eapply grows_trans; [apply grows_python_pass | apply grows_js_pass].
Qed.

Lemma grows_get_node (g g' : Graph) (nid : string) (n : Node) :
  grows g g' → get_node g nid = Some n → get_node g' nid = Some n.
Proof.
  intros (extra & E & _) H. unfold get_node in *.
  by rewrite E, find_app_first, H.
Qed.

Lemma grows_has_node (g g' : Graph) (nid : string) :
  grows g g' → has_node g nid = true → has_node g' nid = true.
Proof.
  intros (extra & E & _). rewrite !has_node_true. unfold node_ids.
  rewrite E, fmap_app, elem_of_app. by left.
Qed.

Lemma grows_no_placeholder (g g' : Graph) :
  grows g g' →
  Forall (λ n, not_placeholder (node_id n)) (nodes g) →
  Forall (λ n, not_placeholder (node_id n)) (nodes g').
Proof. intros (extra & E & F) H. rewrite E. by apply Forall_app. Qed.

Lemma pending_no_placeholder (files : list SourceFile) :
  Forall (λ n, not_placeholder (node_id n)) (nodes (pending_graph files)).
Proof.
  apply (grows_no_placeholder empty_graph); [|constructor].
  eapply grows_trans; [apply grows_generic_pass | apply grows_pending_graph].
Qed.

Lemma resolve_edges_target_known (g : Graph) (e : Edge) :
  e ∈ edges (resolve_edges g) →
  ∃ n, n ∈ nodes g ∧ node_id n = edge_target e.
Proof.
  rewrite edges_resolve_edges. intros (_ & _ & Ht & _)%resolve_from_kept.
  apply elem_of_list_to_set in Ht. unfold node_ids in Ht.
  apply list_elem_of_fmap in Ht as (n & Hid & Hn). by exists n.
Qed.

Lemma import_edge_placeholder (src target : string) :
  PyStr.startswith (edge_target (import_edge src target)) "module:" = true.
Proof.
  change (PyStr.startswith (edge_target (import_edge src target)) "module:")
    with (String.prefix "" target).
  by destruct target.
Qed.

Lemma import_edge_is_module_import (src target : string) :
  is_module_import (import_edge src target) = true.
Proof.
  unfold is_module_import. rewrite import_edge_placeholder.
  by rewrite bool_decide_eq_true_2.
Qed.

Lemma js_resolve_bare (file_paths : gmap string string) (src target : string) :
  PyStr.startswith target "." = false →
  js_resolve_edge file_paths (import_edge src target) = import_edge src target.
Proof.
  intros H. unfold js_resolve_edge. rewrite import_edge_is_module_import.
  change (module_of (import_edge src target)) with target.
  by rewrite H.
Qed.

(** C5. No edge of the final output of a repository has a target that
    starts with [module:]. No node is ever stored under such an id, the
    JavaScript resolver leaves the edge of a bare (non-relative)
    specifier on its placeholder, and [resolve_edges] drops every edge
    whose target is a placeholder: it returns a graph, never an error. *)
Theorem placeholder_edges_are_dropped :
  (∀ (repo_name : string) (files : list SourceFile),
     Forall (λ e, PyStr.startswith (edge_target e) "module:" = false)
            (gd_edges (rr_graph (analyze_repo repo_name files))))
  ∧ (∀ files : list SourceFile,
       Forall (λ n, not_placeholder (node_id n)) (nodes (pending_graph files)))
  ∧ (∀ (file_paths : gmap string string) (src target : string),
       PyStr.startswith target "." = false →
       js_resolve_edge file_paths (import_edge src target) = import_edge src target)
  ∧ (∀ (files : list SourceFile) (src target : string),
       import_edge src target ∉ edges (final_graph files)).
Proof.
  assert (Hdrop : ∀ files e, e ∈ edges (final_graph files) →
                             PyStr.startswith (edge_target e) "module:" = false).
  { intros files e He. unfold final_graph in He.
    apply resolve_edges_target_known in He as (n & Hn & Hid).
    pose proof (pending_no_placeholder files) as Hall.
    rewrite Forall_forall in Hall. rewrite <- Hid. by apply Hall. }
  repeat split.
  - intros repo_name files. apply Forall_forall. intros e He. by apply (Hdrop files).
  - exact pending_no_placeholder.
  - exact js_resolve_bare.
  - intros files src target He. apply Hdrop in He.
    rewrite import_edge_placeholder in He. discriminate He.
Qed.

(** The bare specifier [react] keeps its placeholder under the resolver. *)
Lemma placeholder_edges_are_dropped_witness :
  js_resolve_edge (js_file_paths [mkFileInfo "/repo/a.js" "a.js" ".js" "a.js"])
                  (import_edge "file:a.js" "react")
  = import_edge "file:a.js" "react".
Proof.
  destruct placeholder_edges_are_dropped as (_ & _ & Hbare & _).
  apply Hbare. reflexivity.
Defined.

(** ** The generic pass gives every file its node *)

Lemma get_node_same_nodes (g1 g2 : Graph) (nid : string) :
  nodes g1 = nodes g2 → get_node g1 nid = get_node g2 nid.
Proof. unfold get_node. by intros ->. Qed.

Lemma nodes_emit_imports (file_id : string) (targets : list string) (g : Graph) :
  nodes (emit_imports file_id targets g) = nodes g.
Proof.
  unfold emit_imports. generalize (set_iter targets). intros l. revert g.
  induction l as [|x l IH]; intros g; simpl; [reflexivity|]. by rewrite IH.
Qed.

Lemma nodes_generic_analyze_file (fi : FileInfo) (read : option GenericMatches)
    (g : Graph) :
  nodes (generic_analyze_file fi read g) = nodes (add_node (file_node fi) g).
Proof.
  unfold generic_analyze_file, _extract_generic_imports.
  destruct (member (ext fi) DEDICATED_EXTENSIONS); [reflexivity|].
  destruct read; [apply nodes_emit_imports | reflexivity].
Qed.

Lemma generic_pass_lookup (files : list SourceFile) (g : Graph) (nid : string) :
  get_node (generic_pass files g) nid
  = match get_node g nid with
    | Some n => Some n
    | None =>
        (λ f, file_node (sf_info f))
          <$> List.find (λ f, bool_decide (file_id_of (sf_info f) = nid)) files
    end.
Proof.
  unfold generic_pass. revert g.
  induction files as [|f files IH]; intros g; simpl.
  - by destruct (get_node g nid).
  - rewrite IH.
    rewrite (get_node_same_nodes _ _ nid (nodes_generic_analyze_file _ _ _)).
    rewrite get_node_add_node.
    destruct (get_node g nid); [reflexivity|].
    change (node_id (file_node (sf_info f))) with (file_id_of (sf_info f)).
    by destruct (bool_decide (file_id_of (sf_info f) = nid)).
Qed.


Lemma find_by_unique_key {A} (key : A → string) (l : list A) (x : A) :
  NoDup (key <$> l) → x ∈ l →
  List.find (λ y, bool_decide (key y = key x)) l = Some x.
Proof.
  induction l as [|y l IH]; intros Hnd Hin; [by apply elem_of_nil in Hin|].
  rewrite fmap_cons in Hnd. apply NoDup_cons in Hnd as [Hy Hnd]. simpl.
  apply elem_of_cons in Hin as [-> | Hin].
  - by rewrite bool_decide_eq_true_2.
  - rewrite bool_decide_eq_false_2; [by apply IH|].
    intros Heq. apply Hy. rewrite Heq. apply list_elem_of_fmap. by exists x.
Qed.

Lemma file_lookup_after_generic_pass (files : list SourceFile) (f : SourceFile) :
  NoDup ((λ f, rel_path (sf_info f)) <$> files) → f ∈ files →
  get_node (generic_pass files empty_graph) (file_id_of (sf_info f))
  = Some (file_node (sf_info f)).
Proof.
  intros Hnd Hin. rewrite generic_pass_lookup. simpl.
  rewrite (find_by_unique_key (λ f, file_id_of (sf_info f))); [reflexivity| |exact Hin].
  assert (E : (λ f, file_id_of (sf_info f)) <$> files
              = (λ r, "file:" +:+ r) <$> ((λ f, rel_path (sf_info f)) <$> files)).
  { by rewrite <- list_fmap_compose. }
  rewrite E. apply NoDup_fmap_2; [|exact Hnd].
  intros a b Hab. simpl in Hab. by injection Hab.
Qed.






(** ** The Python import resolver *)

Lemma split_not_nil (c : ascii) (s : string) : PyStr.split c s ≠ [].
Proof.
  destruct s as [|a s]; simpl; [discriminate|].
  destruct (decide (a = c)); [discriminate|].
  destruct (PyStr.split c s); discriminate.
Qed.

(** [sep.join(s.split(sep)) == s] *)
Lemma join_split (c : ascii) (s : string) :
  PyStr.join (String c EmptyString) (PyStr.split c s) = s.
Proof.
  induction s as [|a s IH]; [reflexivity|]. simpl.
  destruct (decide (a = c)) as [->|Hne].
  - pose proof (split_not_nil c s) as Hs.
    destruct (PyStr.split c s) as [|h t]; [congruence|].
    simpl in *. by rewrite IH.
  - pose proof (split_not_nil c s) as Hs.
    destruct (PyStr.split c s) as [|h t]; [congruence|].
    destruct t as [|h' t]; simpl in *; by rewrite <- IH.
Qed.

Lemma reverse_seq_S (i : nat) : reverse (seq 1 (S i)) = S i :: reverse (seq 1 i).
Proof. by rewrite seq_S, reverse_app. Qed.

(** The loop over the prefixes returns the first hit of its lookups. *)
Lemma py_prefix_loop_first_hit (module_map suffix_map : gmap string string)
    (parts : list string) (i : nat) :
  py_prefix_loop module_map suffix_map parts i
  = first_hit (flat_map (λ p, [module_map !! p; suffix_map !! p])
                        ((λ j, PyStr.join "." (take j parts)) <$> reverse (seq 1 i))).
Proof.
  induction i as [|i IH]; [reflexivity|].
  rewrite reverse_seq_S, fmap_cons. simpl.
  destruct (module_map !! _); [reflexivity|].
  destruct (suffix_map !! _); [reflexivity|]. exact IH.
Qed.

Lemma py_resolve_edge_spec (module_map suffix_map : gmap string string) (e : Edge) :
  py_resolve_edge module_map suffix_map e = spec_py_resolve_edge module_map suffix_map e.
Proof.
  unfold py_resolve_edge, spec_py_resolve_edge, spec_py_probes, shorter_prefixes.
  destruct (is_module_import e); [|reflexivity]. simpl.
  destruct (module_map !! module_of e) as [fid|] eqn:Em; [reflexivity|].
  destruct (suffix_map !! module_of e) as [fid|] eqn:Es; [reflexivity|].
  pose proof (split_not_nil "." (module_of e)) as Hne.
  pose proof (join_split "." (module_of e)) as Hjoin.
  destruct (PyStr.split "." (module_of e)) as [|h t] eqn:Ep; [congruence|].
  change (length (h :: t)) with (S (length t)).
  change (py_prefix_loop module_map suffix_map (h :: t) (S (length t)))
    with (match module_map !! PyStr.join "." (take (S (length t)) (h :: t)) with
          | Some fid => Some fid
          | None =>
              match suffix_map !! PyStr.join "." (take (S (length t)) (h :: t)) with
              | Some fid => Some fid
              | None => py_prefix_loop module_map suffix_map (h :: t) (length t)
              end
          end).
  change (S (length t)) with (length (h :: t)). rewrite firstn_all.
  rewrite Hjoin, Em, Es, py_prefix_loop_first_hit.
  change (length (h :: t) - 1) with (length t - 0). by rewrite Nat.sub_0_r.
Qed.

(** C3. The Python resolver leaves the nodes alone and maps every edge
    through the sequence of the specification: an [imports] edge on a
    [module:] placeholder gets as target the first hit among the module
    map at the module path, the suffix map at the module path, and then,
    for each dotted prefix shorter than the path, from the longest to
    the shortest, the module map and the suffix map at the prefix; with
    no hit the edge stays as it is, and so does every other edge. Only
    the target of an edge is ever rewritten. *)
Theorem py_resolve_imports_sequence (python_files : list FileInfo) (g : Graph) :
  nodes (py_resolve_imports python_files g) = nodes g
  ∧ edges (py_resolve_imports python_files g)
    = spec_py_resolve_edge (py_maps python_files).1 (py_maps python_files).2 <$> edges g
  ∧ (∀ module_map suffix_map e,
       is_module_import e = true →
       py_resolve_edge module_map suffix_map e
       = match first_hit (spec_py_probes module_map suffix_map (module_of e)) with
         | Some fid => mkEdge (edge_source e) fid (edge_type e) (edge_metadata e)
         | None => e
         end)
  ∧ (∀ module_map suffix_map e,
       is_module_import e = false → py_resolve_edge module_map suffix_map e = e).
Proof.
  repeat split.
  - apply nodes_py_resolve_imports.
  - unfold py_resolve_imports. destruct (py_maps python_files) as [mm sm]. simpl.
    apply list_fmap_ext. intros _ e _. apply py_resolve_edge_spec.
  - intros mm sm e He. rewrite py_resolve_edge_spec. unfold spec_py_resolve_edge.
    by rewrite He.
  - intros mm sm e He. unfold py_resolve_edge. by rewrite He.
Qed.

(** [import pkg.mod.sub] resolves through the prefix [pkg.mod] to the
    package file. *)
Lemma py_resolve_imports_sequence_witness :
  py_resolve_edge (py_maps package_files).1 (py_maps package_files).2
                  (import_edge "file:main.py" "pkg.mod.sub")
  = mkEdge "file:main.py" "file:pkg/mod/__init__.py" "imports" [].
Proof.
  destruct (py_resolve_imports_sequence package_files empty_graph)
    as (_ & _ & Hhit & _).
  rewrite Hhit by reflexivity. vm_compute. reflexivity.
Defined.

(** ** The JavaScript import resolver *)

(** What the resolver does to a relative import, in general: the target
    becomes the first hit among the bare resolved path and the path
    followed by [/js], [/jsx], [/ts] and [/tsx]. *)
Lemma js_probe_loop_first_hit (file_paths : gmap string string) (resolved : string)
    (exts : list string) :
  file_paths !! resolved = None →
  js_probe_loop file_paths resolved exts
  = first_hit ((λ e, file_paths !! (resolved +:+ PyStr.replace "." "/" e)) <$> exts).
Proof.
  intros Hbare. induction exts as [|e exts IH]; [reflexivity|]. simpl.
  destruct (file_paths !! (resolved +:+ _)); [reflexivity|]. by rewrite Hbare.
Qed.

Lemma js_resolve_edge_code_probes (file_paths : gmap string string) (e : Edge) :
  is_module_import e = true →
  PyStr.startswith (module_of e) "." = true →
  js_resolve_edge file_paths e
  = match first_hit (code_js_probes file_paths (js_resolved (edge_source e) (module_of e))) with
    | Some fid => set_target e fid
    | None => e
    end.
Proof.
  intros Hi Hrel. unfold js_resolve_edge, code_js_probes. rewrite Hi, Hrel.
  cbv zeta. cbn [first_hit].
  destruct (file_paths !! js_resolved _ _) eqn:Hbare; [reflexivity|].
  by rewrite js_probe_loop_first_hit.
Qed.

(** A relative import whose resolved path is a key of the map is
    rewritten to the file of that key. *)
Lemma js_resolve_edge_bare_hit (file_paths : gmap string string) (src target fid : string) :
  PyStr.startswith target "." = true →
  file_paths !! js_resolved src target = Some fid →
  js_resolve_edge file_paths (import_edge src target) = mkEdge src fid "imports" [].
Proof.
  intros Hrel Hhit. unfold js_resolve_edge. rewrite import_edge_is_module_import.
  change (module_of (import_edge src target)) with target.
  rewrite Hrel. cbv zeta. change (edge_source (import_edge src target)) with src.
  by rewrite Hhit.
Qed.

(** The import of the sibling [./y] from [a/x.js] ends on the node of
    [a/y.js] in the final output. *)
Lemma sibling_import_resolves :
  gd_edges (rr_graph (analyze_repo "repo" [sibling_importer; sibling_y]))
  = [mkEdge "file:a/x.js" "file:a/y.js" "imports" []].
Proof. vm_compute. reflexivity. Qed.

(** C4, at two inputs where the code leaves the specification. From
    [a/x.js] the specifier [./y] resolves to [a/y]. With the files
    [a/x.js] and [a/y/js.ts] none of the lookups of the specification
    (the path with an extension, or the bare path) is in the map, yet
    the code finds [a/y/js], the path with [/js] appended, and the
    final output has an edge to [a/y/js.ts]. With the files [a/x.js]
    and [a/y.js.ts] the lookup [a/y.js] of the specification is in the
    map, and the code, which never appends [.js], leaves the
    placeholder, so the edge is dropped. *)
Theorem js_resolver_appends_slash_not_extension :
  let importer := sf_info sibling_importer in
  let fp1 := js_file_paths [importer; sf_info nested_js_ts] in
  let fp2 := js_file_paths [importer; sf_info y_js_ts] in
  let e := import_edge "file:a/x.js" "./y" in
  js_resolved "file:a/x.js" "./y" = "a/y"
  ∧ spec_js_probes fp1 "a/y" = [None; None; None; None; None]
  ∧ code_js_probes fp1 "a/y" = [None; Some "file:a/y/js.ts"; None; None; None]
  ∧ js_resolve_edge fp1 e = mkEdge "file:a/x.js" "file:a/y/js.ts" "imports" []
  ∧ edges (final_graph [sibling_importer; nested_js_ts])
    = [mkEdge "file:a/x.js" "file:a/y/js.ts" "imports" []]
  ∧ spec_js_probes fp2 "a/y" = [Some "file:a/y.js.ts"; None; None; None; None]
  ∧ code_js_probes fp2 "a/y" = [None; None; None; None; None]
  ∧ js_resolve_edge fp2 e = e
  ∧ edges (final_graph [sibling_importer; y_js_ts]) = [].
Proof. vm_compute. repeat split. Qed.

(** ** The Python extractor on a file that does not parse *)

(** C6. [analyze_file] returns the graph it was given when the source
    of the file does not parse: no node and no edge is added. The loop
    over the Python files goes on: with such a file anywhere in the
    list, it builds the graph that it builds without the file. *)
Theorem syntax_error_leaves_graph_unchanged :
  (∀ (fi : FileInfo) (g : Graph),
     py_analyze_file fi PySyntaxError g = g
     ∧ nodes (py_analyze_file fi PySyntaxError g) = nodes g
     ∧ edges (py_analyze_file fi PySyntaxError g) = edges g)
  ∧ (∀ (before after : list SourceFile) (fi : FileInfo)
       (gen : option GenericMatches) (js : option JsMatches) (g : Graph),
       python_extraction (before ++ mkSourceFile fi gen PySyntaxError js :: after) g
       = python_extraction (before ++ after) g).
Proof.
  split.
  - intros fi g. repeat split.
  - intros before after fi gen js g. unfold python_extraction.
    rewrite !foldl_app. reflexivity.
Qed.

(** ** Route extraction *)

Lemma append_inj_l (a x y : string) : a +:+ x = a +:+ y → x = y.
Proof.
  induction a as [|c a IH]; simpl; [done|]. intros H. injection H as H. by apply IH.
Qed.

(** The id of a route node determines the verb and the path. *)
Lemma route_id_same_route (fi : FileInfo) (m m' : RouteMatch) :
  route_id fi m = route_id fi m' ↔ same_route m m'.
Proof.
  unfold same_route, route_id, route_method. split.
  - intros H. apply (append_inj_l "endpoint:"), append_inj_l in H.
    apply (append_inj_l ":") in H.
    destruct (rm_verb m), (rm_verb m'); cbv in H;
      first [discriminate H | injection H as H; by split].
  - intros [-> ->]. reflexivity.
Qed.

Lemma route_node_type_by_verb (m : RouteMatch) :
  route_node_type m = match rm_verb m with VUse => "middleware" | _ => "endpoint" end.
Proof. unfold route_node_type, route_method. by destruct (rm_verb m). Qed.

Lemma route_label_parts (m : RouteMatch) :
  route_label m
  = route_method m +:+ " "
    +:+ (if bool_decide (rm_path m = "") then "(middleware)" else rm_path m).
Proof. unfold route_label. by destruct (bool_decide (rm_path m = "")). Qed.

Lemma nodes_extract_route (source : string) (fi : FileInfo) (file_id : string)
    (g : Graph) (m : RouteMatch) :
  nodes (extract_route source fi file_id g m) = nodes (add_node (route_node source fi m) g).
Proof. apply nodes_add_edge. Qed.

Lemma extract_routes_lookup (source : string) (matches : list RouteMatch)
    (fi : FileInfo) (file_id : string) (g : Graph) (nid : string) :
  get_node (_extract_routes source matches fi file_id g) nid
  = match get_node g nid with
    | Some n => Some n
    | None =>
        route_node source fi
          <$> List.find (λ x, bool_decide (route_id fi x = nid)) matches
    end.
Proof.
  unfold _extract_routes. revert g.
  induction matches as [|x ms IH]; intros g; simpl.
  - by destruct (get_node g nid).
  - rewrite IH.
    rewrite (get_node_same_nodes _ _ nid (nodes_extract_route _ _ _ _ _)).
    rewrite get_node_add_node.
    destruct (get_node g nid); [reflexivity|].
    change (node_id (route_node source fi x)) with (route_id fi x).
    by destruct (bool_decide (route_id fi x = nid)).
Qed.

Lemma id_count_same_nodes (g1 g2 : Graph) (nid : string) :
  nodes g1 = nodes g2 → id_count nid g1 = id_count nid g2.
Proof. unfold id_count. by intros ->. Qed.

(** [add_node] never makes a second node with an id. *)
Lemma id_count_add_node_le (g : Graph) (n : Node) (nid : string) :
  (id_count nid g ≤ 1)%nat → (id_count nid (add_node n g) ≤ 1)%nat.
Proof.
  intros H. rewrite id_count_add_node.
  destruct (has_node g (node_id n)) eqn:Hn; [lia|].
  case_bool_decide as Hid; [|lia].
  subst nid. rewrite (id_count_absent _ _ Hn). lia.
Qed.

Lemma extract_routes_id_count_le (source : string) (matches : list RouteMatch)
    (fi : FileInfo) (file_id : string) (g : Graph) (nid : string) :
  (id_count nid g ≤ 1)%nat →
  (id_count nid (_extract_routes source matches fi file_id g) ≤ 1)%nat.
Proof.
  unfold _extract_routes. revert g.
  induction matches as [|x ms IH]; intros g H; simpl; [exact H|].
  apply IH. rewrite (id_count_same_nodes _ _ nid (nodes_extract_route _ _ _ _ _)).
  by apply id_count_add_node_le.
Qed.

Lemma id_count_present (g : Graph) (nid : string) (n : Node) :
  get_node g nid = Some n → (1 ≤ id_count nid g)%nat.
Proof.
  unfold get_node, id_count. induction (nodes g) as [|x l IH]; simpl; [discriminate|].
  rewrite filter_cons. case_bool_decide as Hx.
  - intros _. rewrite decide_True by exact Hx. simpl. lia.
  - intros H. rewrite decide_False by exact Hx. by apply IH.
Qed.

(** With the node of the file in the graph, every match adds its edge. *)
Lemma extract_routes_edges (source : string) (matches : list RouteMatch)
    (fi : FileInfo) (file_id : string) (g : Graph) :
  has_node g file_id = true →
  edges (_extract_routes source matches fi file_id g)
  = edges g ++ (route_edge fi file_id <$> matches).
Proof.
  unfold _extract_routes. revert g.
  induction matches as [|x ms IH]; intros g Hf; simpl; [by rewrite app_nil_r|].
  assert (Hf' : has_node (add_node (route_node source fi x) g) file_id = true).
  { apply has_node_true, node_ids_add_node. left. by apply has_node_true. }
  assert (Hstep : extract_route source fi file_id g x
                  = mkGraph (nodes (add_node (route_node source fi x) g))
                            (edges g ++ [route_edge fi file_id x])).
  { unfold extract_route, add_edge.
    change (edge_source (route_edge fi file_id x)) with file_id.
    change (edge_target (route_edge fi file_id x))
      with (node_id (route_node source fi x)).
    by rewrite Hf', has_node_add_node_same, edges_add_node. }
  rewrite IH; rewrite Hstep; [|exact Hf']. simpl. by rewrite <- app_assoc.
Qed.

(** A node that is in the graph is counted as before. *)
Lemma extract_routes_id_count_present (source : string) (matches : list RouteMatch)
    (fi : FileInfo) (file_id : string) (g : Graph) (nid : string) :
  has_node g nid = true →
  id_count nid (_extract_routes source matches fi file_id g) = id_count nid g.
Proof.
  unfold _extract_routes. revert g.
  induction matches as [|x ms IH]; intros g Hg; simpl; [reflexivity|].
  assert (Hstep : id_count nid (extract_route source fi file_id g x) = id_count nid g).
  { rewrite (id_count_same_nodes _ _ nid (nodes_extract_route _ _ _ _ _)).
    rewrite id_count_add_node.
    destruct (has_node g (node_id (route_node source fi x))) eqn:E; [lia|].
    rewrite bool_decide_eq_false_2; [lia|]. intros Heq. congruence. }
  rewrite IH; [exact Hstep|].
  apply has_node_true. unfold node_ids. rewrite nodes_extract_route.
  apply node_ids_add_node. left. by apply has_node_true.
Qed.

(** C7. In a graph that holds the node of the file, route extraction
    leaves for every match exactly as many nodes under the id built
    from the file, the verb and the path as before, or one when there
    was none: the node that was in the graph under that id, or else the
    node of the first match with that verb and that path. The type of
    that node is [middleware] for the verb [use] and [endpoint]
    otherwise, its label is the verb in upper case, a space, and the
    path or [(middleware)] for an empty path, and its line number is
    one more than the number of newlines before the offset of that
    first match. Every match appends an [endpoint_handler] edge from
    the node of the file to the node under its id, through the
    validating [add_edge]. Two matches of a file have the same id
    exactly when they have the same verb and the same path. *)
Theorem extract_routes_one_node_per_route (source : string)
    (matches : list RouteMatch) (fi : FileInfo) (file_id : string) (g : Graph)
    (m : RouteMatch) :
  m ∈ matches →
  has_node g file_id = true →
  let g' := _extract_routes source matches fi file_id g in
  ∃ first,
    List.find (λ x, bool_decide (route_id fi x = route_id fi m)) matches = Some first
    ∧ same_route first m
    ∧ get_node g' (route_id fi m)
      = Some (default (route_node source fi first) (get_node g (route_id fi m)))
    ∧ id_count (route_id fi m) g'
      = (if has_node g (route_id fi m) then id_count (route_id fi m) g else 1)
    ∧ node_type (route_node source fi first)
      = match rm_verb m with VUse => "middleware" | _ => "endpoint" end
    ∧ node_label (route_node source fi first)
      = PyStr.upper (verb_text (rm_verb m)) +:+ " "
        +:+ (if bool_decide (rm_path m = "") then "(middleware)" else rm_path m)
    ∧ node_line_number (route_node source fi first)
      = PyStr.count newline (PyStr.take (rm_start first) source) + 1
    ∧ edges g' = edges g ++ (route_edge fi file_id <$> matches)
    ∧ route_edge fi file_id m ∈ edges g'
    ∧ route_edge fi file_id m
      = mkEdge file_id (node_id (route_node source fi first)) "endpoint_handler" []
    ∧ (∀ m', route_id fi m' = route_id fi m ↔ same_route m' m).
Proof.
  intros Hin Hfile g'.
  destruct (List.find (λ x, bool_decide (route_id fi x = route_id fi m)) matches)
    as [first|] eqn:Hfind.
  2: { apply list_elem_of_In in Hin.
       pose proof (find_none _ _ Hfind m Hin) as Hm. simpl in Hm.
       by rewrite bool_decide_eq_true_2 in Hm. }
  pose proof Hfind as Hfirst. apply find_some in Hfirst as [_ Hid].
  apply bool_decide_eq_true in Hid.
  pose proof (proj1 (route_id_same_route fi first m) Hid) as Hsame.
  assert (Hget : get_node g' (route_id fi m)
                 = Some (default (route_node source fi first)
                                 (get_node g (route_id fi m)))).
  { unfold g'. rewrite extract_routes_lookup, Hfind.
    by destruct (get_node g (route_id fi m)). }
  assert (Hedges : edges g' = edges g ++ (route_edge fi file_id <$> matches)).
  { by apply extract_routes_edges. }
  exists first. pose proof Hsame as [Hv Hp].
  split_and!; try assumption; try reflexivity.
  - destruct (has_node g (route_id fi m)) eqn:Hfresh.
    { by apply extract_routes_id_count_present. }
    apply Nat.le_antisymm; [|by apply (id_count_present _ _ _ Hget)].
    apply extract_routes_id_count_le. rewrite id_count_absent by exact Hfresh. lia.
  - change (node_type (route_node source fi first)) with (route_node_type first).
    by rewrite route_node_type_by_verb, Hv.
  - change (node_label (route_node source fi first)) with (route_label first).
    rewrite route_label_parts. unfold route_method. by rewrite Hv, Hp.
  - rewrite Hedges, elem_of_app. right. apply list_elem_of_fmap. by exists m.
  - unfold route_edge. by rewrite <- Hid.
  - intros m'. apply route_id_same_route.
Qed.

(** The second [app.get('/users', ...)] of the example: the node is
    the one of the first registration, on line 2. *)
Lemma extract_routes_one_node_per_route_witness :
  let g := add_node (file_node server_info) empty_graph in
  let g' := _extract_routes server_source server_routes server_info "file:server.js" g in
  get_node g' "endpoint:server.js:GET:/users"
  = Some (mkNode "endpoint:server.js:GET:/users" "GET /users" "endpoint" "server.js" 2
                 [("method", MStr "GET"); ("path", MStr "/users")])
  ∧ id_count "endpoint:server.js:GET:/users" g' = 1.
Proof.
  intros g g'.
  assert (Hin : mkRouteMatch VGet "/users" 63 ∈ server_routes).
  { unfold server_routes. do 2 (apply elem_of_cons; right). apply elem_of_cons. by left. }
  destruct (extract_routes_one_node_per_route server_source server_routes server_info
              "file:server.js" g (mkRouteMatch VGet "/users" 63) Hin eq_refl)
    as (first & Hfind & _ & Hget & Hone & _).
  vm_compute in Hfind. injection Hfind as <-.
  split; [exact Hget | exact Hone].
Defined.

(** Two distinct (file, verb, path) and one node: the route [/p] of
    [a.js:GET:/b.js] has the id of the route [/b.js:GET:/p] of [a.js].
    The output holds one node under the id, the one of [a.js]; the
    route of the second file has no node of its own, and both files
    have an edge to that one node. *)
Lemma route_id_shared_by_two_files_counterexample :
  route_id (sf_info colon_route_a) (mkRouteMatch VGet "/b.js:GET:/p" 0)
  = route_id (sf_info colon_route_b) (mkRouteMatch VGet "/p" 0)
  ∧ bool_decide (rel_path (sf_info colon_route_a) = rel_path (sf_info colon_route_b))
    = false
  ∧ (let g := final_graph [colon_route_a; colon_route_b] in
     filter (λ n, node_type n = "endpoint") (nodes g)
     = [mkNode "endpoint:a.js:GET:/b.js:GET:/p" "GET /b.js:GET:/p" "endpoint" "a.js" 1
               [("method", MStr "GET"); ("path", MStr "/b.js:GET:/p")]]
     ∧ filter (λ n, node_label n = "GET /p") (nodes g) = []
     ∧ edge_source <$> filter (λ e, edge_type e = "endpoint_handler") (edges g)
       = ["file:a.js"; "file:a.js:GET:/b.js"]).
Proof. vm_compute. by split_and!. Qed.

(** * Further properties of the code *)

(** ** [Graph.merge] *)

Lemma add_nodes_lookup (l : list Node) (g : Graph) (nid : string) :
  get_node (foldl (λ acc n, add_node n acc) g l) nid
  = match get_node g nid with
    | Some x => Some x
    | None => List.find (λ n, bool_decide (node_id n = nid)) l
    end.
Proof.
  revert g. induction l as [|x l IH]; intros g; simpl.
  - by destruct (get_node g nid).
  - rewrite IH, get_node_add_node. destruct (get_node g nid); [reflexivity|].
    by destruct (bool_decide (node_id x = nid)).
Qed.

Lemma add_nodes_edges (l : list Node) (g : Graph) :
  edges (foldl (λ acc n, add_node n acc) g l) = edges g.
Proof.
  revert g. induction l as [|x l IH]; intros g; simpl; [reflexivity|].
  by rewrite IH, edges_add_node.
Qed.

Lemma add_nodes_ids (l : list Node) (g : Graph) (nid : string) :
  nid ∈ node_ids (foldl (λ acc n, add_node n acc) g l)
  ↔ nid ∈ node_ids g ∨ nid ∈ node_id <$> l.
Proof.
  revert g. induction l as [|x l IH]; intros g; simpl.
  - rewrite elem_of_nil. tauto.
  - rewrite IH, node_ids_add_node, elem_of_cons. tauto.
Qed.

Lemma NoDup_add_node (g : Graph) (n : Node) :
  NoDup (node_ids g) → NoDup (node_ids (add_node n g)).
Proof.
  intros H. unfold add_node. destruct (has_node g (node_id n)) eqn:E; [exact H|].
  unfold node_ids. simpl. rewrite fmap_app. apply NoDup_app. split; [exact H|].
  split; [|apply NoDup_singleton].
  intros x Hx [->|Hnil]%elem_of_cons; [|by apply elem_of_nil in Hnil].
  apply has_node_false in E. by apply E.
Qed.

Lemma NoDup_add_nodes (l : list Node) (g : Graph) :
  NoDup (node_ids g) → NoDup (node_ids (foldl (λ acc n, add_node n acc) g l)).
Proof.
  revert g. induction l as [|x l IH]; intros g H; simpl; [exact H|].
  by apply IH, NoDup_add_node.
Qed.

(** X1. [merge] is a left-biased union of the node stores: a lookup in
    the merged graph returns the node of the receiving graph when it has
    the id, and the node of the other graph otherwise; the ids are those
    of both graphs; the edges of the other graph are appended as they
    are; and ids that were pairwise distinct stay so. *)
Theorem merge_first_wins (other g : Graph) :
  (∀ nid, get_node (merge other g) nid
          = match get_node g nid with
            | Some n => Some n
            | None => get_node other nid
            end)
  ∧ (∀ nid, nid ∈ node_ids (merge other g) ↔ nid ∈ node_ids g ∨ nid ∈ node_ids other)
  ∧ edges (merge other g) = edges g ++ edges other
  ∧ (NoDup (node_ids g) → NoDup (node_ids (merge other g))).
Proof.
  unfold merge. split_and!.
  - intros nid. unfold get_node at 1. simpl.
    change (List.find _ (nodes ?x)) with (get_node x nid).
    apply (add_nodes_lookup (nodes other) g nid).
  - intros nid. apply (add_nodes_ids (nodes other) g nid).
  - simpl. by rewrite add_nodes_edges.
  - apply NoDup_add_nodes.
Qed.

(** ** Every extractor works through the three insertion methods *)

Lemma built_trans (P : Node → Prop) (Q : Edge → Prop) (g1 g2 g3 : Graph) :
  built P Q g1 g2 → built P Q g2 g3 → built P Q g1 g3.
Proof.
  intros H12 H23. induction H23 as [|n g IH ?|e g IH ?|e g IH ?].
  - exact H12.
  - by apply built_node.
  - by apply built_edge.
  - by apply built_deferred.
Qed.

Lemma built_foldl {A} (P : Node → Prop) (Q : Edge → Prop) (f : Graph → A → Graph)
    (l : list A) (g g1 : Graph) :
  (∀ acc x, built P Q acc (f acc x)) → built P Q g g1 → built P Q g (foldl f g1 l).
Proof.
  intros Hf. revert g1. induction l as [|x l IH]; intros g1 H; simpl; [exact H|].
  apply IH. apply (built_trans _ _ _ g1); [exact H | apply Hf].
Qed.

Lemma built_foldl_state {A S} (P : Node → Prop) (Q : Edge → Prop)
    (f : Graph * S → A → Graph * S) (l : list A) (g : Graph) (st : Graph * S) :
  (∀ st x, built P Q st.1 (f st x).1) → built P Q g st.1 → built P Q g (foldl f st l).1.
Proof.
  intros Hf. revert st. induction l as [|x l IH]; intros st H; simpl; [exact H|].
  apply IH. apply (built_trans _ _ _ st.1); [exact H | apply Hf].
Qed.

(** The types that the classifying functions return. *)
Ltac in_vocabulary := apply (bool_decide_unpack _); vm_compute; exact I.

Lemma classify_by_path_emitted (rel_path name ext : string) :
  _classify_by_path rel_path name ext ∈ EMITTED_NODE_TYPES.
Proof. unfold _classify_by_path. repeat case_match; in_vocabulary. Qed.

Lemma class_node_type_emitted (cname : string) (bases : list string) :
  class_node_type cname bases ∈ EMITTED_NODE_TYPES.
Proof. unfold class_node_type. repeat case_match; in_vocabulary. Qed.

Lemma function_node_type_emitted (fname : string) (decorators : list string) :
  function_node_type fname decorators ∈ EMITTED_NODE_TYPES.
Proof. unfold function_node_type. repeat case_match; in_vocabulary. Qed.

Lemma route_node_type_emitted (m : RouteMatch) : route_node_type m ∈ EMITTED_NODE_TYPES.
Proof. unfold route_node_type. case_match; in_vocabulary. Qed.

Lemma js_class_node_type_emitted (cname : string) : js_class_node_type cname ∈ EMITTED_NODE_TYPES.
Proof. unfold js_class_node_type. repeat case_match; in_vocabulary. Qed.

Lemma js_function_node_type_emitted (fname : string) (fi : FileInfo) :
  js_function_node_type fname fi ∈ EMITTED_NODE_TYPES.
Proof. unfold js_function_node_type. repeat case_match; in_vocabulary. Qed.

Lemma startswith_append (p s : string) : PyStr.startswith (p +:+ s) p = true.
Proof.
  unfold PyStr.startswith. induction p as [|a p IH]; simpl; [by destruct s|].
  by destruct (ascii_dec a a).
Qed.

(** The side conditions of a step: the shape of the new node or edge. *)
Ltac emitted_type :=
  lazymatch goal with
  | |- String _ _ ∈ _ => in_vocabulary
  | |- _classify_by_path _ _ _ ∈ _ => apply classify_by_path_emitted
  | |- class_node_type _ _ ∈ _ => apply class_node_type_emitted
  | |- function_node_type _ _ ∈ _ => apply function_node_type_emitted
  | |- route_node_type _ ∈ _ => apply route_node_type_emitted
  | |- js_class_node_type _ ∈ _ => apply js_class_node_type_emitted
  | |- js_function_node_type _ _ ∈ _ => apply js_function_node_type_emitted
  end.

Ltac node_side :=
  unfold node_from; cbn [node_type node_file_path node_id];
  split; [emitted_type
         | first [by left
                 | right; split_and!; [reflexivity | reflexivity | apply startswith_append]]].

Ltac edge_side :=
  unfold edge_from; cbn [edge_type edge_source edge_target];
  first
    [ left; split; reflexivity
    | right; left; split_and!; [emitted_type | reflexivity | reflexivity]
    | do 2 right; left; split; reflexivity
    | do 3 right; left; split;
      [reflexivity | first [by left | right; apply startswith_append]]
    | do 4 right; split_and!; [reflexivity | apply startswith_append..] ].

Ltac built_step :=
  first
    [ assumption
    | apply built_refl
    | apply built_edge; [|edge_side]
    | apply built_deferred; [|edge_side]
    | apply built_node; [|node_side]
    | apply built_foldl; [intros ? ?|]
    | match goal with |- built _ _ _ (if ?c then _ else _) => destruct c end
    | match goal with |- built _ _ _ (match ?c with _ => _ end) => destruct c end ].

Ltac built_tac := repeat built_step.

Lemma built_emit_imports (P : Node → Prop) (file_id : string) (targets : list string) (g g1 : Graph) :
  built P (edge_from file_id) g g1 →
  built P (edge_from file_id) g (emit_imports file_id targets g1).
Proof. intros H. unfold emit_imports, import_edge. built_tac. Qed.

Lemma built_generic_analyze_file (fi : FileInfo) (read : option GenericMatches)
    (g : Graph) :
  built (node_from (rel_path fi)) (edge_from (file_id_of fi)) g (generic_analyze_file fi read g).
Proof.
  unfold generic_analyze_file, _extract_generic_imports, file_node, file_id_of.
  destruct (member (ext fi) DEDICATED_EXTENSIONS); [built_tac|].
  destruct read; [apply built_emit_imports|]; built_tac.
Qed.

Lemma built_extract_class (fi : FileInfo) (file_id : string) (g : Graph) (node : ast) :
  built (node_from (rel_path fi)) (edge_from file_id) g (extract_class fi file_id g node).
Proof. unfold extract_class. destruct node; built_tac. Qed.

Lemma built_extract_function (fi : FileInfo) (file_id : string) (g : Graph)
    (node : ast) :
  built (node_from (rel_path fi)) (edge_from file_id) g (extract_function fi file_id g node).
Proof. unfold extract_function. built_tac. Qed.

Lemma built_extract_import (P : Node → Prop) (file_id : string) (g : Graph) (node : ast) :
  built P (edge_from file_id) g (extract_import file_id g node).
Proof. unfold extract_import, import_edge. built_tac. Qed.

Lemma built_extract_call (P : Node → Prop) (file_id : string) (g : Graph) (node : ast) :
  built P (edge_from file_id) g (extract_call file_id g node).
Proof. unfold extract_call, self_edge. built_tac. Qed.

Lemma built_py_analyze_file (fi : FileInfo) (src : PySource) (g : Graph) :
  built (node_from (rel_path fi)) (edge_from (file_id_of fi)) g (py_analyze_file fi src g).
Proof.
  unfold py_analyze_file. destruct src; try apply built_refl.
  unfold _extract_calls, py_extract_imports, _extract_functions, _extract_classes.
  repeat (apply built_foldl;
          [first [apply built_extract_call | apply built_extract_import
                 | apply built_extract_function | apply built_extract_class]|]).
  apply built_refl.
Qed.

Lemma built_extract_route (source : string) (fi : FileInfo) (file_id : string)
    (g : Graph) (m : RouteMatch) :
  built (node_from (rel_path fi)) (edge_from file_id) g (extract_route source fi file_id g m).
Proof. unfold extract_route, route_edge, route_node. built_tac. Qed.

Lemma built_extract_js_class (source : string) (fi : FileInfo) (file_id : string)
    (st : Graph * gset string) (m : ClassMatch) :
  built (node_from (rel_path fi)) (edge_from file_id) st.1 (extract_js_class source fi file_id st m).1.
Proof. destruct st as [g seen]. unfold extract_js_class. simpl. built_tac. Qed.

Lemma built_extract_js_function (source : string) (fi : FileInfo) (file_id : string)
    (st : Graph * gset string) (m : NameMatch) :
  built (node_from (rel_path fi)) (edge_from file_id) st.1 (extract_js_function source fi file_id st m).1.
Proof.
  destruct st as [g seen]. unfold extract_js_function.
  destruct (bool_decide (nm_name m ∈ seen)); simpl; built_tac.
Qed.

Lemma built_extract_model (source : string) (fi : FileInfo) (file_id : string)
    (g : Graph) (m : NameMatch) :
  built (node_from (rel_path fi)) (edge_from file_id) g (extract_model source fi file_id g m).
Proof. unfold extract_model. built_tac. Qed.

Lemma built_extract_routes (source : string) (matches : list RouteMatch)
    (fi : FileInfo) (file_id : string) (g g1 : Graph) :
  built (node_from (rel_path fi)) (edge_from file_id) g g1 →
  built (node_from (rel_path fi)) (edge_from file_id) g (_extract_routes source matches fi file_id g1).
Proof.
  intros H. unfold _extract_routes. apply built_foldl; [|exact H].
  intros acc m. apply built_extract_route.
Qed.

Lemma built_extract_functions_and_classes (src : JsMatches) (fi : FileInfo)
    (file_id : string) (g g1 : Graph) :
  built (node_from (rel_path fi)) (edge_from file_id) g g1 →
  built (node_from (rel_path fi)) (edge_from file_id) g (_extract_functions_and_classes src fi file_id g1).
Proof.
  intros H. unfold _extract_functions_and_classes.
  do 2 (apply built_foldl_state; [apply built_extract_js_function|]).
  apply built_foldl_state; [apply built_extract_js_class | exact H].
Qed.

Lemma built_extract_models (src : JsMatches) (fi : FileInfo) (file_id : string)
    (g g1 : Graph) :
  built (node_from (rel_path fi)) (edge_from file_id) g g1 →
  built (node_from (rel_path fi)) (edge_from file_id) g (_extract_models src fi file_id g1).
Proof.
  intros H. unfold _extract_models.
  do 2 (apply built_foldl; [intros acc m; apply built_extract_model|]). exact H.
Qed.

Lemma built_extract_api_calls (P : Node → Prop) (src : JsMatches) (file_id : string) (g g1 : Graph) :
  built P (edge_from file_id) g g1 →
  built P (edge_from file_id) g (_extract_api_calls src file_id g1).
Proof. intros H. unfold _extract_api_calls, self_edge. built_tac. Qed.

Lemma built_extract_db_ops (P : Node → Prop) (src : JsMatches) (file_id : string) (g g1 : Graph) :
  built P (edge_from file_id) g g1 →
  built P (edge_from file_id) g (_extract_db_ops src file_id g1).
Proof. intros H. unfold _extract_db_ops, self_edge. built_tac. Qed.

Lemma built_detect_router (src : JsMatches) (fi : FileInfo) (file_id : string)
    (g g1 : Graph) :
  built (node_from (rel_path fi)) (edge_from file_id) g g1 →
  built (node_from (rel_path fi)) (edge_from file_id) g (_detect_router src fi file_id g1).
Proof. intros H. unfold _detect_router. built_tac. Qed.

Lemma built_js_analyze_file (fi : FileInfo) (read : option JsMatches) (g : Graph) :
  built (node_from (rel_path fi)) (edge_from (file_id_of fi)) g (js_analyze_file fi read g).
Proof.
  unfold js_analyze_file. destruct read as [src|]; [|apply built_refl].
  apply built_detect_router, built_extract_db_ops, built_extract_api_calls.
  unfold js_extract_imports.
  apply built_emit_imports, built_extract_models, built_extract_functions_and_classes,
    built_extract_routes, built_refl.
Qed.

(** What holds of every graph built that way. *)
Lemma built_prefix (P : Node → Prop) (Q : Edge → Prop) (g g' : Graph) :
  built P Q g g' → nodes g `prefix_of` nodes g' ∧ edges g `prefix_of` edges g'.
Proof.
  induction 1 as [|n g1 _ [IHn IHe] _|e g1 _ [IHn IHe] _|e g1 _ [IHn IHe] _].
  - split; reflexivity.
  - rewrite edges_add_node. split; [|exact IHe].
    unfold add_node. destruct (has_node g1 (node_id n)); [exact IHn|].
    simpl. by apply prefix_app_r.
  - rewrite nodes_add_edge. split; [exact IHn|].
    unfold add_edge. destruct (_ && _); [|exact IHe]. simpl. by apply prefix_app_r.
  - split; [exact IHn|]. simpl. by apply prefix_app_r.
Qed.

Lemma built_NoDup (P : Node → Prop) (Q : Edge → Prop) (g g' : Graph) :
  built P Q g g' → NoDup (node_ids g) → NoDup (node_ids g').
Proof.
  induction 1 as [|n g1 _ IH _|e g1 _ IH _|e g1 _ IH _]; intros H.
  - exact H.
  - by apply NoDup_add_node, IH.
  - unfold node_ids. rewrite nodes_add_edge. by apply IH.
  - by apply IH.
Qed.

Lemma built_Forall (P : Node → Prop) (Q : Edge → Prop) (g g' : Graph) :
  built P Q g g' →
  Forall P (nodes g) ∧ Forall Q (edges g) →
  Forall P (nodes g') ∧ Forall Q (edges g').
Proof.
  induction 1 as [|n g1 _ IH Hn|e g1 _ IH He|e g1 _ IH He]; intros H.
  - exact H.
  - destruct (IH H) as [IHn IHe]. rewrite edges_add_node. split; [|exact IHe].
    unfold add_node. destruct (has_node g1 (node_id n)); [exact IHn|].
    simpl. apply Forall_app. split; [exact IHn | by constructor].
  - destruct (IH H) as [IHn IHe]. rewrite nodes_add_edge. split; [exact IHn|].
    unfold add_edge. destruct (_ && _); [|exact IHe].
    simpl. apply Forall_app. split; [exact IHe | by constructor].
  - destruct (IH H) as [IHn IHe]. split; [exact IHn|].
    simpl. apply Forall_app. split; [exact IHe | by constructor].
Qed.

Lemma built_impl (P P' : Node → Prop) (Q Q' : Edge → Prop) (g g' : Graph) :
  (∀ n, P n → P' n) → (∀ e, Q e → Q' e) → built P Q g g' → built P' Q' g g'.
Proof.
  intros HP HQ. induction 1 as [|n g1 _ IH Hn|e g1 _ IH He|e g1 _ IH He].
  - apply built_refl.
  - apply built_node; auto.
  - apply built_edge; auto.
  - apply built_deferred; auto.
Qed.

Lemma built_foldl_in {A} (P : Node → Prop) (Q : Edge → Prop) (f : Graph → A → Graph)
    (l : list A) (g g1 : Graph) :
  (∀ acc x, x ∈ l → built P Q acc (f acc x)) → built P Q g g1 →
  built P Q g (foldl f g1 l).
Proof.
  revert g1. induction l as [|x l IH]; intros g1 Hf H; simpl; [exact H|].
  apply IH.
  - intros acc y Hy. apply Hf, elem_of_cons. by right.
  - apply (built_trans _ _ _ g1); [exact H|]. apply Hf, elem_of_cons. by left.
Qed.

Lemma built_generic_pass (files : list SourceFile) (g : Graph) :
  built (node_of_files files) (edge_of_files files) g (generic_pass files g).
Proof.
  unfold generic_pass. apply built_foldl_in; [|apply built_refl].
  intros acc f Hf. eapply built_impl; [| |apply built_generic_analyze_file].
  - intros n Hn. by exists f.
  - intros e He. by exists f.
Qed.

Lemma built_python_extraction (l : list SourceFile) (g : Graph) :
  built (node_of_files l) (edge_of_files l) g (python_extraction l g).
Proof.
  unfold python_extraction. apply built_foldl_in; [|apply built_refl].
  intros acc f Hf. eapply built_impl; [| |apply built_py_analyze_file].
  - intros n Hn. by exists f.
  - intros e He. by exists f.
Qed.

Lemma built_js_extraction (l : list SourceFile) (g : Graph) :
  built (node_of_files l) (edge_of_files l) g (js_extraction l g).
Proof.
  unfold js_extraction. apply built_foldl_in; [|apply built_refl].
  intros acc f Hf. eapply built_impl; [| |apply built_js_analyze_file].
  - intros n Hn. by exists f.
  - intros e He. by exists f.
Qed.

(** The shapes are within the vocabularies of [graph.py]. *)
Lemma node_of_files_typed (files : list SourceFile) (n : Node) :
  node_of_files files n → typed_node n.
Proof.
  intros (f & _ & Ht & _). unfold typed_node.
  revert Ht. generalize (node_type n). intros t Ht.
  assert (Hsub : EMITTED_NODE_TYPES ⊆ NODE_TYPES)
    by (apply (bool_decide_unpack _); vm_compute; exact I).
  by apply Hsub.
Qed.

Lemma edge_of_files_typed (files : list SourceFile) (e : Edge) :
  edge_of_files files e → typed_edge e.
Proof.
  intros (f & _ & H). unfold typed_edge.
  assert (Hsub : ACTIVITY_TYPES ⊆ EDGE_TYPES)
    by (apply (bool_decide_unpack _); vm_compute; exact I).
  destruct H as [[-> _]|[(Ht & _)|[[-> _]|[[-> _]|[-> _]]]]];
    [in_vocabulary | by apply Hsub | in_vocabulary..].
Qed.

Lemma typed_generic_pass (files : list SourceFile) (g : Graph) :
  built typed_node typed_edge g (generic_pass files g).
Proof.
  eapply built_impl; [| |apply built_generic_pass];
    [apply node_of_files_typed | apply edge_of_files_typed].
Qed.

Lemma typed_python_extraction (l : list SourceFile) (g : Graph) :
  built typed_node typed_edge g (python_extraction l g).
Proof.
  eapply built_impl; [| |apply built_python_extraction];
    [apply node_of_files_typed | apply edge_of_files_typed].
Qed.

Lemma typed_js_extraction (l : list SourceFile) (g : Graph) :
  built typed_node typed_edge g (js_extraction l g).
Proof.
  eapply built_impl; [| |apply built_js_extraction];
    [apply node_of_files_typed | apply edge_of_files_typed].
Qed.

(** X2. Extraction is append-only: each of the three [analyze_file]
    methods returns a graph whose node list and edge list start with
    the node list and the edge list it was given. Nothing that an
    earlier file put into the graph is removed, changed or reordered. *)
Theorem extraction_is_append_only (fi : FileInfo) (g : Graph) :
  (∀ read, nodes g `prefix_of` nodes (generic_analyze_file fi read g)
           ∧ edges g `prefix_of` edges (generic_analyze_file fi read g))
  ∧ (∀ src, nodes g `prefix_of` nodes (py_analyze_file fi src g)
            ∧ edges g `prefix_of` edges (py_analyze_file fi src g))
  ∧ (∀ read, nodes g `prefix_of` nodes (js_analyze_file fi read g)
             ∧ edges g `prefix_of` edges (js_analyze_file fi read g)).
Proof.
  split_and!; intros x; eapply built_prefix.
  - apply built_generic_analyze_file.
  - apply built_py_analyze_file.
  - apply built_js_analyze_file.
Qed.

(** The resolvers keep everything of an edge but its target. *)
Lemma py_resolve_edge_frame (module_map suffix_map : gmap string string) (e : Edge) :
  edge_source (py_resolve_edge module_map suffix_map e) = edge_source e
  ∧ edge_type (py_resolve_edge module_map suffix_map e) = edge_type e
  ∧ edge_metadata (py_resolve_edge module_map suffix_map e) = edge_metadata e.
Proof. unfold py_resolve_edge. repeat case_match; done. Qed.

Lemma js_resolve_edge_frame (file_paths : gmap string string) (e : Edge) :
  edge_source (js_resolve_edge file_paths e) = edge_source e
  ∧ edge_type (js_resolve_edge file_paths e) = edge_type e
  ∧ edge_metadata (js_resolve_edge file_paths e) = edge_metadata e.
Proof. unfold js_resolve_edge. repeat case_match; done. Qed.

Lemma typed_py_resolve_imports (l : list FileInfo) (g : Graph) :
  Forall typed_edge (edges g) → Forall typed_edge (edges (py_resolve_imports l g)).
Proof.
  unfold py_resolve_imports. destruct (py_maps l) as [mm sm]. simpl.
  intros H. apply Forall_fmap. eapply Forall_impl; [exact H|].
  intros e He. unfold typed_edge, compose.
  by rewrite (proj1 (proj2 (py_resolve_edge_frame mm sm e))).
Qed.

Lemma typed_js_resolve_imports (l : list FileInfo) (g : Graph) :
  Forall typed_edge (edges g) → Forall typed_edge (edges (js_resolve_imports l g)).
Proof.
  unfold js_resolve_imports. simpl.
  intros H. apply Forall_fmap. eapply Forall_impl; [exact H|].
  intros e He. unfold typed_edge, compose.
  by rewrite (proj1 (proj2 (js_resolve_edge_frame _ e))).
Qed.

Lemma pending_graph_typed (files : list SourceFile) :
  Forall typed_node (nodes (pending_graph files))
  ∧ Forall typed_edge (edges (pending_graph files)).
Proof.
  unfold pending_graph.
  assert (H1 : Forall typed_node (nodes (generic_pass files empty_graph))
               ∧ Forall typed_edge (edges (generic_pass files empty_graph))).
  { apply (built_Forall _ _ empty_graph); [apply typed_generic_pass|]. by split. }
  assert (H2 : Forall typed_node (nodes (python_pass files (generic_pass files empty_graph)))
               ∧ Forall typed_edge
                   (edges (python_pass files (generic_pass files empty_graph)))).
  { unfold python_pass. destruct (python_files_of files) as [|f l]; [exact H1|].
    pose proof (built_Forall _ _ _ _ (typed_python_extraction (f :: l) _) H1) as [Hn He].
    split; [by rewrite nodes_py_resolve_imports | by apply typed_py_resolve_imports]. }
  unfold js_pass. destruct (js_files_of files) as [|f l]; [exact H2|].
  pose proof (built_Forall _ _ _ _ (typed_js_extraction (f :: l) _) H2) as [Hn He].
  split; [exact Hn | by apply typed_js_resolve_imports].
Qed.

Lemma pending_graph_NoDup (files : list SourceFile) :
  NoDup (node_ids (pending_graph files)).
Proof.
  unfold pending_graph.
  assert (H1 : NoDup (node_ids (generic_pass files empty_graph))).
  { apply (built_NoDup _ _ empty_graph _ (built_generic_pass files _)). constructor. }
  assert (H2 : NoDup (node_ids (python_pass files (generic_pass files empty_graph)))).
  { unfold python_pass. destruct (python_files_of files) as [|f l]; [exact H1|].
    unfold node_ids. rewrite nodes_py_resolve_imports.
    by apply (built_NoDup _ _ _ _ (built_python_extraction (f :: l) _)). }
  unfold js_pass. destruct (js_files_of files) as [|f l]; [exact H2|].
  by apply (built_NoDup _ _ _ _ (built_js_extraction (f :: l) _)).
Qed.

Lemma resolve_from_sublist (ids : gset string) (es : list Edge)
    (seen : gset (string * string * string)) :
  resolve_from ids seen es `sublist_of` es.
Proof.
  revert seen. induction es as [|e es IH]; intros seen; simpl; [constructor|].
  destruct (_ && _); [apply sublist_skip | apply sublist_cons]; apply IH.
Qed.

(** X3. The serialized output of every repository has pairwise distinct
    node ids. *)
Theorem output_node_ids_unique (repo_name : string) (files : list SourceFile) :
  NoDup (dict_node_ids (rr_graph (analyze_repo repo_name files))).
Proof.
  unfold analyze_repo. simpl. rewrite dict_node_ids_to_dict.
  change (node_ids (final_graph files)) with (node_ids (pending_graph files)).
  apply pending_graph_NoDup.
Qed.

(** X4. Every node of the output of a repository has a type of
    [NODE_TYPES] and every edge a type of [EDGE_TYPES], although no
    method of [Graph] checks the types: the classifier and every
    extractor only produce types of the two lists. *)
Theorem output_types_in_vocabulary (repo_name : string) (files : list SourceFile) :
  Forall (λ nd, node_type (nd_node nd) ∈ NODE_TYPES)
         (gd_nodes (rr_graph (analyze_repo repo_name files)))
  ∧ Forall (λ e, edge_type e ∈ EDGE_TYPES)
           (gd_edges (rr_graph (analyze_repo repo_name files))).
Proof.
  destruct (pending_graph_typed files) as [Hn He].
  change (gd_edges (rr_graph (analyze_repo repo_name files)))
    with (edges (resolve_edges (pending_graph files))).
  change (gd_nodes (rr_graph (analyze_repo repo_name files)))
    with ((λ n, mkNodeDict n (default 0 (node_degree (final_graph files) !! node_id n)))
            <$> nodes (pending_graph files)).
  split.
  - apply Forall_fmap. exact Hn.
  - rewrite edges_resolve_edges. rewrite Forall_forall in He.
    apply Forall_forall. intros e Hin. apply He.
    by apply resolve_from_kept in Hin as (Hin & _).
Qed.

(** ** Validation: order and fixed points *)

Lemma closed_resolve_from (g : Graph) :
  closed g →
  Forall (λ e, edge_source e ∈ (list_to_set (node_ids g) : gset string)
               ∧ edge_target e ∈ (list_to_set (node_ids g) : gset string)
               ∧ edge_key e ∉ (∅ : gset (string * string * string)))
         (edges g).
Proof.
  unfold closed. intros H. eapply Forall_impl; [exact H|]. intros e [Hs Ht].
  apply has_node_true in Hs, Ht. rewrite !elem_of_list_to_set.
  split_and!; [exact Hs | exact Ht | apply not_elem_of_empty].
Qed.

Lemma resolve_edges_closed (g : Graph) : closed (resolve_edges g).
Proof.
  unfold closed. rewrite edges_resolve_edges. apply Forall_forall. intros e He.
  apply resolve_from_kept in He as (_ & Hs & Ht & _).
  rewrite !elem_of_list_to_set in Hs, Ht.
  change (has_node (resolve_edges g)) with (has_node g). by rewrite !has_node_true.
Qed.

(** X5. [resolve_edges] keeps the edges it does not drop in their
    order: its edge list is a sublist of the one it was given. It
    returns the graph unchanged exactly when no edge dangles and no two
    edges have the same (source, target, type). *)
Theorem resolve_edges_sublist_and_fixed_points (g : Graph) :
  edges (resolve_edges g) `sublist_of` edges g
  ∧ (resolve_edges g = g ↔ closed g ∧ NoDup (edge_key <$> edges g)).
Proof.
  split.
  - rewrite edges_resolve_edges. apply resolve_from_sublist.
  - split.
    + intros Heq. apply (f_equal edges) in Heq. rewrite edges_resolve_edges in Heq.
      split.
      * unfold closed. rewrite <- Heq at 1. apply Forall_forall. intros e He.
        apply resolve_from_kept in He as (_ & Hs & Ht & _).
        rewrite !elem_of_list_to_set in Hs, Ht. by rewrite !has_node_true.
      * rewrite <- Heq. apply resolve_from_NoDup.
    + intros [Hc Hnd]. destruct g as [ns es]. unfold resolve_edges.
      rewrite resolve_loop_from. simpl. f_equal.
      apply resolve_from_fixed; [|exact Hnd]. by apply (closed_resolve_from (mkGraph ns es)).
Qed.

(** ** Serialization: degrees and counts *)

Lemma ends_at_cons (ns : list Node) (e : Edge) (es : list Edge) :
  sum_list_with (λ n, out_count (node_id n) (e :: es) + in_count (node_id n) (e :: es)) ns
  = sum_list_with (λ n, out_count (node_id n) es + in_count (node_id n) es) ns
    + length (filter (λ n, node_id n = edge_source e) ns)
    + length (filter (λ n, node_id n = edge_target e) ns).
Proof.
  induction ns as [|n ns IH]; [reflexivity|].
  cbn [sum_list_with]. rewrite IH. unfold out_count, in_count.
  rewrite !count_cons, !filter_cons.
  destruct (decide (node_id n = edge_source e)) as [Hs|Hs];
    destruct (decide (node_id n = edge_target e)) as [Ht|Ht];
    repeat case_bool_decide; simpl; try lia; congruence.
Qed.

Lemma one_node_per_id (ns : list Node) (nid : string) :
  NoDup (node_id <$> ns) → nid ∈ node_id <$> ns →
  length (filter (λ n, node_id n = nid) ns) = 1.
Proof.
  induction ns as [|n ns IH]; intros Hnd Hin; [by apply elem_of_nil in Hin|].
  rewrite fmap_cons in Hnd, Hin. apply NoDup_cons in Hnd as [Hn Hnd].
  rewrite filter_cons. destruct (decide (node_id n = nid)) as [<-|Hne].
  - simpl. f_equal.
    apply (id_count_absent (mkGraph ns []) (node_id n)). by apply has_node_false.
  - apply IH; [exact Hnd|]. apply elem_of_cons in Hin as [Heq|Hin]; [congruence|exact Hin].
Qed.

Lemma ends_sum_closed (ns : list Node) (es : list Edge) :
  NoDup (node_id <$> ns) →
  Forall (λ e, edge_source e ∈ node_id <$> ns ∧ edge_target e ∈ node_id <$> ns) es →
  sum_list_with (λ n, out_count (node_id n) es + in_count (node_id n) es) ns
  = 2 * length es.
Proof.
  intros Hnd. induction es as [|e es IH]; intros Hall.
  - unfold out_count, in_count. simpl. induction ns as [|n ns IHn]; [reflexivity|].
    simpl. rewrite fmap_cons in Hnd. apply NoDup_cons in Hnd as [_ Hnd]. by rewrite IHn.
  - apply Forall_cons in Hall as [[Hs Ht] Hall].
    rewrite ends_at_cons, IH by exact Hall.
    rewrite !one_node_per_id by assumption. simpl. lia.
Qed.

Lemma degree_sum_ends (g : Graph) :
  degree_sum (to_dict g)
  = sum_list_with (λ n, out_count (node_id n) (edges g) + in_count (node_id n) (edges g))
                  (nodes g).
Proof.
  unfold degree_sum, to_dict. simpl.
  induction (nodes g) as [|n ns IH]; [reflexivity|].
  rewrite fmap_cons. cbn [sum_list_with nd_degree]. by rewrite IH, node_degree_counts.
Qed.

(** X6. The degrees of a serialized graph add up to twice its number of
    edges when its node ids are pairwise distinct and no edge dangles;
    this is the case for the output of every repository, where the
    total is twice [total_edges]. *)
Theorem degree_sum_is_twice_the_edges :
  (∀ g : Graph, NoDup (node_ids g) → closed g →
                degree_sum (to_dict g) = 2 * length (edges g))
  ∧ (∀ (repo_name : string) (files : list SourceFile),
       degree_sum (rr_graph (analyze_repo repo_name files))
       = 2 * gd_total_edges (rr_graph (analyze_repo repo_name files))).
Proof.
  assert (Hg : ∀ g : Graph, NoDup (node_ids g) → closed g →
                            degree_sum (to_dict g) = 2 * length (edges g)).
  { intros g Hnd Hc. rewrite degree_sum_ends. apply ends_sum_closed; [exact Hnd|].
    eapply Forall_impl; [exact Hc|]. intros e [Hs Ht]. by rewrite !has_node_true in Hs, Ht. }
  split; [exact Hg|]. intros repo_name files. unfold analyze_repo. simpl.
  apply Hg.
  - apply pending_graph_NoDup.
  - apply resolve_edges_closed.
Qed.

Lemma count_total_bump (k : string) (d : gmap string nat) :
  count_total (bump k d) = S (count_total d).
Proof.
  unfold count_total, bump. destruct (d !! k) as [v|] eqn:E; simpl.
  - rewrite <- insert_delete_eq.
    rewrite map_fold_insert_L; [|intros; lia|apply lookup_delete_eq].
    rewrite (map_fold_delete_L _ _ k v d); [lia|intros; lia|exact E].
  - rewrite map_fold_insert_L; [lia|intros; lia|exact E].
Qed.

Lemma count_total_fold {A} (f : A → string) (l : list A) (d : gmap string nat) :
  count_total (foldl (λ d x, bump (f x) d) d l) = count_total d + length l.
Proof.
  revert d. induction l as [|x l IH]; intros d; simpl; [lia|].
  rewrite IH, count_total_bump. lia.
Qed.

Lemma count_fold_lookup {A} (f : A → string) (l : list A) (d : gmap string nat)
    (t : string) :
  foldl (λ d x, bump (f x) d) d l !! t
  = if decide (length (filter (λ x, f x = t) l) = 0) then d !! t
    else Some (default 0 (d !! t) + length (filter (λ x, f x = t) l)).
Proof.
  revert d. induction l as [|x l IH]; intros d; [reflexivity|].
  cbn [foldl]. rewrite IH, filter_cons. unfold bump.
  destruct (decide (f x = t)) as [->|Hne].
  - rewrite lookup_insert_eq. cbn [length default].
    rewrite (decide_False (P := S _ = 0)) by lia.
    destruct (decide (length (filter (λ x, f x = t) l) = 0)) as [->|Hn];
      f_equal; unfold id; lia.
  - by rewrite lookup_insert_ne.
Qed.

(** X7. The count maps of [to_dict] are exact: a type is a key of
    [node_type_counts] exactly when some node has it, and its value is
    the number of nodes of that type; likewise for the edges; and the
    counts of each map add up to [total_nodes] and to [total_edges]. *)
Theorem type_counts_are_exact (g : Graph) :
  (∀ t, gd_node_type_counts (to_dict g) !! t
        = if decide (node_type_count t (nodes g) = 0) then None
          else Some (node_type_count t (nodes g)))
  ∧ (∀ t, gd_edge_type_counts (to_dict g) !! t
          = if decide (edge_type_count t (edges g) = 0) then None
            else Some (edge_type_count t (edges g)))
  ∧ count_total (gd_node_type_counts (to_dict g)) = gd_total_nodes (to_dict g)
  ∧ count_total (gd_edge_type_counts (to_dict g)) = gd_total_edges (to_dict g).
Proof.
  unfold to_dict, node_type_count, edge_type_count. simpl. split_and!.
  - intros t. rewrite (count_fold_lookup node_type). by rewrite lookup_empty.
  - intros t. rewrite (count_fold_lookup edge_type). by rewrite lookup_empty.
  - rewrite (count_total_fold node_type). unfold count_total. by rewrite map_fold_empty.
  - rewrite (count_total_fold edge_type). unfold count_total. by rewrite map_fold_empty.
Qed.

(** ** Validated insertion keeps a graph free of dangling edges *)

Lemma has_node_add_node_mono (g : Graph) (n : Node) (nid : string) :
  has_node g nid = true → has_node (add_node n g) nid = true.
Proof. rewrite !has_node_true, node_ids_add_node. by left. Qed.

Lemma closed_more_nodes (g g' : Graph) :
  (∀ nid, has_node g nid = true → has_node g' nid = true) →
  edges g' = edges g → closed g → closed g'.
Proof.
  intros Hmono He. unfold closed. rewrite He. intros H.
  eapply Forall_impl; [exact H|]. intros e [Hs Ht]. split; by apply Hmono.
Qed.

Lemma closed_add_node (g : Graph) (n : Node) : closed g → closed (add_node n g).
Proof.
  apply closed_more_nodes; [|apply edges_add_node].
  intros nid. apply has_node_add_node_mono.
Qed.

Lemma closed_add_edge (g : Graph) (e : Edge) : closed g → closed (add_edge e g).
Proof.
  intros H. unfold add_edge. destruct (_ && _) eqn:E; [|exact H].
  apply andb_true_iff in E. unfold closed. simpl.
  apply Forall_app. split; [exact H|]. by constructor.
Qed.

Lemma closed_add_edge_deferred (g : Graph) (e : Edge) :
  closed g →
  closed (add_edge_deferred e g)
  ↔ has_node g (edge_source e) = true ∧ has_node g (edge_target e) = true.
Proof.
  intros H. unfold closed. simpl. rewrite Forall_app, Forall_singleton.
  change (has_node (add_edge_deferred e g)) with (has_node g). tauto.
Qed.

Lemma closed_merge (other g : Graph) : closed g → closed other → closed (merge other g).
Proof.
  intros Hg Ho. unfold closed, merge.
  set (g' := foldl (λ acc n, add_node n acc) g (nodes other)).
  assert (Hin : ∀ es nid, has_node (mkGraph (nodes g') es) nid = true
                          ↔ has_node g nid = true ∨ has_node other nid = true).
  { intros es nid. rewrite !has_node_true. apply (add_nodes_ids (nodes other) g nid). }
  simpl. replace (edges g') with (edges g) by (symmetry; apply add_nodes_edges).
  apply Forall_app. split.
  - eapply Forall_impl; [exact Hg|]. intros e [Hs Ht]. rewrite !Hin. tauto.
  - eapply Forall_impl; [exact Ho|]. intros e [Hs Ht]. rewrite !Hin. tauto.
Qed.

(** X8. In a graph without dangling edges, [add_node], [add_edge] and
    [merge] with another such graph leave no edge dangling, whatever
    they are given; [add_edge_deferred] does so exactly when both ends
    of its edge are nodes. *)
Theorem validated_insertions_keep_closed (g : Graph) :
  closed g →
  (∀ n, closed (add_node n g))
  ∧ (∀ e, closed (add_edge e g))
  ∧ (∀ e, closed (add_edge_deferred e g)
          ↔ has_node g (edge_source e) = true ∧ has_node g (edge_target e) = true)
  ∧ (∀ other, closed other → closed (merge other g)).
Proof.
  intros H. split_and!.
  - intros n. by apply closed_add_node.
  - intros e. by apply closed_add_edge.
  - intros e. by apply closed_add_edge_deferred.
  - intros other Ho. by apply closed_merge.
Qed.

(** The graph of two nodes and an edge stays without dangling edges
    when the edge back is added, which [add_edge] keeps. *)
Lemma validated_insertions_keep_closed_witness :
  closed two_node_graph
  ∧ closed (add_edge back_edge two_node_graph)
  ∧ edges (add_edge back_edge two_node_graph) = edges two_node_graph ++ [back_edge]
  ∧ (closed (add_edge_deferred back_edge two_node_graph)
     ↔ has_node two_node_graph (edge_source back_edge) = true
       ∧ has_node two_node_graph (edge_target back_edge) = true)
  ∧ closed (merge two_node_graph two_node_graph).
Proof.
  assert (H : closed two_node_graph) by (repeat constructor).
  destruct (validated_insertions_keep_closed two_node_graph H)
    as (_ & Hedge & Hdeferred & Hmerge).
  split_and!; [exact H | apply Hedge | reflexivity | apply Hdeferred | by apply Hmerge].
Defined.

(** ** Before validation only unresolved imports dangle *)

Lemma sound_more_nodes (g g' : Graph) :
  (∀ nid, has_node g nid = true → has_node g' nid = true) →
  edges g' = edges g → sound g → sound g'.
Proof.
  intros Hmono He. unfold sound. rewrite He. intros H.
  eapply Forall_impl; [exact H|]. intros e [Hs Ht]. split; [by apply Hmono|].
  destruct Ht as [Ht|Ht]; [left; by apply Hmono | by right].
Qed.

Lemma sound_with_add_node (file_id : string) (n : Node) (g : Graph) :
  sound_with file_id g → sound_with file_id (add_node n g).
Proof.
  intros [H Hf]. split; [|by apply has_node_add_node_mono].
  eapply sound_more_nodes; [|apply edges_add_node|exact H].
  intros nid. apply has_node_add_node_mono.
Qed.

Lemma sound_with_add_edge (file_id : string) (e : Edge) (g : Graph) :
  sound_with file_id g → sound_with file_id (add_edge e g).
Proof.
  intros [H Hf]. unfold add_edge. destruct (_ && _) eqn:E; [|by split].
  apply andb_true_iff in E as [Hs Ht]. split; [|exact Hf].
  unfold sound. simpl. apply Forall_app. split; [exact H|].
  constructor; [|constructor]. split; [exact Hs | by left].
Qed.

Lemma sound_with_deferred (file_id : string) (e : Edge) (g : Graph) :
  edge_ok g e → sound_with file_id g → sound_with file_id (add_edge_deferred e g).
Proof.
  intros He [H Hf]. split; [|exact Hf].
  unfold sound. simpl. apply Forall_app. split; [exact H|].
  constructor; [exact He | constructor].
Qed.

Lemma sound_with_self_edge (file_id etype : string) (md : Metadata) (g : Graph) :
  sound_with file_id g →
  sound_with file_id (add_edge_deferred (self_edge file_id etype md) g).
Proof.
  intros H. apply sound_with_deferred; [|exact H].
  destruct H as [_ Hf]. split; [exact Hf | by left].
Qed.

Lemma sound_with_import_edge (file_id target : string) (g : Graph) :
  sound_with file_id g →
  sound_with file_id (add_edge_deferred (import_edge file_id target) g).
Proof.
  intros H. apply sound_with_deferred; [|exact H].
  destruct H as [_ Hf]. split; [exact Hf|]. right. apply import_edge_is_module_import.
Qed.

(** A reference node and the [inherits] edge to it, from a class whose
    node is in the graph. *)
Lemma sound_with_inherits (file_id class_id : string) (ref : Node) (g : Graph) :
  sound_with file_id g ∧ has_node g class_id = true →
  sound_with file_id
    (add_edge_deferred (mkEdge class_id (node_id ref) "inherits" []) (add_node ref g))
  ∧ has_node (add_edge_deferred (mkEdge class_id (node_id ref) "inherits" [])
                                (add_node ref g)) class_id = true.
Proof.
  intros [H Hc].
  assert (Hc' : has_node (add_node ref g) class_id = true)
    by by apply has_node_add_node_mono.
  split; [|exact Hc'].
  apply sound_with_deferred; [|by apply sound_with_add_node].
  split; [exact Hc'|]. left. apply has_node_add_node_same.
Qed.

Lemma foldl_invariant {A} (I : Graph → Prop) (f : Graph → A → Graph) (l : list A)
    (g : Graph) :
  (∀ acc x, I acc → I (f acc x)) → I g → I (foldl f g l).
Proof.
  intros Hf. revert g. induction l as [|x l IH]; intros g H; simpl; [exact H|].
  by apply IH, Hf.
Qed.

Lemma foldl_state_invariant {A S} (I : Graph → Prop) (f : Graph * S → A → Graph * S)
    (l : list A) (st : Graph * S) :
  (∀ st x, I st.1 → I (f st x).1) → I st.1 → I (foldl f st l).1.
Proof.
  intros Hf. revert st. induction l as [|x l IH]; intros st H; simpl; [exact H|].
  by apply IH, Hf.
Qed.

Ltac sound_step :=
  first
    [ assumption
    | apply sound_with_add_edge
    | apply sound_with_add_node
    | apply sound_with_self_edge
    | apply sound_with_import_edge
    | apply foldl_invariant; [intros ? ? ?|]
    | match goal with |- sound_with _ (if ?c then _ else _) => destruct c end
    | match goal with |- sound_with _ (match ?c with _ => _ end) => destruct c end ].

Ltac sound_tac := repeat sound_step.

Lemma sound_emit_imports (file_id : string) (targets : list string) (g : Graph) :
  sound_with file_id g → sound_with file_id (emit_imports file_id targets g).
Proof. intros H. unfold emit_imports. sound_tac. Qed.

Lemma sound_generic_analyze_file (fi : FileInfo) (read : option GenericMatches)
    (g : Graph) :
  sound g → sound_with (file_id_of fi) (generic_analyze_file fi read g).
Proof.
  intros H.
  assert (H1 : sound_with (file_id_of fi) (add_node (file_node fi) g)).
  { split; [|apply (has_node_add_node_same g (file_node fi))].
    eapply sound_more_nodes; [|apply edges_add_node|exact H].
    intros nid. apply has_node_add_node_mono. }
  unfold generic_analyze_file, _extract_generic_imports.
  destruct (member (ext fi) DEDICATED_EXTENSIONS); [exact H1|].
  destruct read; [by apply sound_emit_imports | exact H1].
Qed.

Lemma sound_extract_class (fi : FileInfo) (file_id : string) (g : Graph) (node : ast) :
  sound_with file_id g → sound_with file_id (extract_class fi file_id g node).
Proof.
  intros H. unfold extract_class. destruct node; try exact H.
  apply foldl_invariant; [intros acc item Hacc; sound_tac|].
  match goal with
  | |- sound_with _ (foldl _ (add_edge _ (add_node ?cls _)) _) =>
      apply (foldl_invariant
               (λ acc, sound_with file_id acc ∧ has_node acc (node_id cls) = true))
  end.
  - intros acc base Hacc. destruct (member base IGNORED_BASES); [exact Hacc|].
    apply (sound_with_inherits file_id _
             (mkNode ("class_ref:" +:+ base) base "class" "" 0
                     [("external_ref", MBool true)]) acc Hacc).
  - split; [sound_tac|].
    unfold has_node, node_ids. rewrite nodes_add_edge. apply has_node_add_node_same.
Qed.

Lemma sound_extract_function (fi : FileInfo) (file_id : string) (g : Graph)
    (node : ast) :
  sound_with file_id g → sound_with file_id (extract_function fi file_id g node).
Proof. intros H. unfold extract_function. sound_tac. Qed.

Lemma sound_extract_import (file_id : string) (g : Graph) (node : ast) :
  sound_with file_id g → sound_with file_id (extract_import file_id g node).
Proof. intros H. unfold extract_import. sound_tac. Qed.

Lemma sound_extract_call (file_id : string) (g : Graph) (node : ast) :
  sound_with file_id g → sound_with file_id (extract_call file_id g node).
Proof. intros H. unfold extract_call. sound_tac. Qed.

Lemma sound_py_analyze_file (fi : FileInfo) (src : PySource) (g : Graph) :
  sound_with (file_id_of fi) g → sound_with (file_id_of fi) (py_analyze_file fi src g).
Proof.
  intros H. unfold py_analyze_file. destruct src; try exact H.
  unfold _extract_calls, py_extract_imports, _extract_functions, _extract_classes.
  apply foldl_invariant; [intros acc x; apply sound_extract_call|].
  apply foldl_invariant; [intros acc x; apply sound_extract_import|].
  apply foldl_invariant; [intros acc x; apply sound_extract_function|].
  apply foldl_invariant; [intros acc x; apply sound_extract_class|]. exact H.
Qed.

Lemma sound_extract_js_class (source : string) (fi : FileInfo) (file_id : string)
    (st : Graph * gset string) (m : ClassMatch) :
  sound_with file_id st.1 → sound_with file_id (extract_js_class source fi file_id st m).1.
Proof.
  destruct st as [g seen]. simpl. intros H. unfold extract_js_class.
  cbv zeta. cbn [fst].
  match goal with
  | |- sound_with _ (match cm_base m with _ => _ end) =>
      destruct (cm_base m) as [base|]; [|sound_tac]
  end.
  destruct (bool_decide (base = "")); [sound_tac|].
  match goal with
  | |- sound_with _ (add_edge_deferred _ (add_node ?ref (add_edge _ (add_node ?cls _)))) =>
      apply (sound_with_inherits file_id (node_id cls) ref)
  end.
  split; [sound_tac|].
  unfold has_node, node_ids. rewrite nodes_add_edge. apply has_node_add_node_same.
Qed.

Lemma sound_extract_js_function (source : string) (fi : FileInfo) (file_id : string)
    (st : Graph * gset string) (m : NameMatch) :
  sound_with file_id st.1 →
  sound_with file_id (extract_js_function source fi file_id st m).1.
Proof.
  destruct st as [g seen]. simpl. intros H. unfold extract_js_function.
  destruct (bool_decide (nm_name m ∈ seen)); simpl; sound_tac.
Qed.

Lemma sound_js_analyze_file (fi : FileInfo) (read : option JsMatches) (g : Graph) :
  sound_with (file_id_of fi) g → sound_with (file_id_of fi) (js_analyze_file fi read g).
Proof.
  intros H. unfold js_analyze_file. destruct read as [src|]; [|exact H].
  assert (H1 : sound_with (file_id_of fi)
                 (_extract_routes (js_source src) (js_express_route src) fi
                                  (file_id_of fi) g)).
  { unfold _extract_routes. apply foldl_invariant; [|exact H].
    intros acc m Hacc. unfold extract_route. sound_tac. }
  assert (H2 : sound_with (file_id_of fi)
                 (_extract_functions_and_classes src fi (file_id_of fi)
                    (_extract_routes (js_source src) (js_express_route src) fi
                                     (file_id_of fi) g))).
  { unfold _extract_functions_and_classes.
    do 2 (apply (foldl_state_invariant (sound_with (file_id_of fi)));
          [intros st m; apply sound_extract_js_function|]).
    apply (foldl_state_invariant (sound_with (file_id_of fi)));
      [intros st m; apply sound_extract_js_class | exact H1]. }
  assert (H3 : sound_with (file_id_of fi)
                 (_extract_models src fi (file_id_of fi)
                    (_extract_functions_and_classes src fi (file_id_of fi)
                       (_extract_routes (js_source src) (js_express_route src) fi
                                        (file_id_of fi) g)))).
  { unfold _extract_models.
    do 2 (apply foldl_invariant;
          [intros acc m Hacc; unfold extract_model; sound_tac|]). exact H2. }
  unfold _detect_router, _extract_db_ops, _extract_api_calls, js_extract_imports.
  pose proof (sound_emit_imports (file_id_of fi)
                (js_import_from src ++ js_require src ++ js_dynamic_import src) _ H3) as H4.
  sound_tac.
Qed.

(** ** The resolvers only write ids of their files *)

Lemma setdefault_fold_lookup (keys : list string) (v : string)
    (d : gmap string string) (k w : string) :
  foldl (λ sm key, setdefault key v sm) d keys !! k = Some w →
  d !! k = Some w ∨ w = v.
Proof.
  revert d. induction keys as [|key keys IH]; intros d; simpl; [by left|].
  intros H. apply IH in H as [H|H]; [|by right].
  unfold setdefault in H. destruct (d !! key) eqn:E; [by left|].
  destruct (decide (key = k)) as [->|Hne].
  - rewrite lookup_insert_eq in H. right. congruence.
  - rewrite lookup_insert_ne in H by exact Hne. by left.
Qed.

Lemma py_register_range (maps : gmap string string * gmap string string)
    (fi : FileInfo) (v : string) :
  in_py_maps (py_register maps fi) v → in_py_maps maps v ∨ v = file_id_of fi.
Proof.
  destruct maps as [mm sm]. unfold in_py_maps, py_register. cbv zeta. cbn [fst snd].
  intros (k & [H|H]).
  - destruct (decide (py_module_name (rel_path fi) = k)) as [Heq|Hne].
    + rewrite Heq, lookup_insert_eq in H. right. congruence.
    + rewrite lookup_insert_ne in H by exact Hne. left. exists k. by left.
  - rewrite <- (foldl_fmap (λ sm key, setdefault key (file_id_of fi) sm)) in H.
    apply setdefault_fold_lookup in H as [H|H]; [|by right].
    left. exists k. by right.
Qed.

Lemma py_maps_range (l : list FileInfo) (v : string) :
  in_py_maps (py_maps l) v → v ∈ file_id_of <$> l.
Proof.
  unfold py_maps.
  assert (H : ∀ maps, in_py_maps (foldl py_register maps l) v →
                      in_py_maps maps v ∨ v ∈ file_id_of <$> l).
  { induction l as [|fi l IH]; intros maps; simpl; [by left|].
    intros Hv. apply IH in Hv as [Hv|Hv].
    - apply py_register_range in Hv as [Hv| ->]; [by left|].
      right. apply elem_of_cons. by left.
    - right. apply elem_of_cons. by right. }
  intros Hv. apply H in Hv as [(k & [Hk|Hk])|Hv]; [| |exact Hv];
    cbn [fst snd] in Hk; by rewrite lookup_empty in Hk.
Qed.

Lemma py_prefix_loop_Some (module_map suffix_map : gmap string string)
    (parts : list string) (i : nat) (fid : string) :
  py_prefix_loop module_map suffix_map parts i = Some fid →
  in_py_maps (module_map, suffix_map) fid.
Proof.
  induction i as [|i IH]; [discriminate|]. simpl.
  destruct (module_map !! _) as [v|] eqn:Em.
  - intros [= <-]. eexists. left. exact Em.
  - destruct (suffix_map !! _) as [v|] eqn:Es; [|exact IH].
    intros [= <-]. eexists. right. exact Es.
Qed.

Lemma py_resolve_edge_cases (module_map suffix_map : gmap string string) (e : Edge) :
  py_resolve_edge module_map suffix_map e = e
  ∨ (is_module_import e = true
     ∧ ∃ fid, in_py_maps (module_map, suffix_map) fid
              ∧ py_resolve_edge module_map suffix_map e = set_target e fid).
Proof.
  unfold py_resolve_edge. destruct (is_module_import e); [|by left].
  destruct (module_map !! module_of e) as [v|] eqn:Em.
  { right. split; [reflexivity|]. exists v. split; [|reflexivity]. eexists. left. exact Em. }
  destruct (suffix_map !! module_of e) as [v|] eqn:Es.
  { right. split; [reflexivity|]. exists v. split; [|reflexivity]. eexists. right. exact Es. }
  cbv zeta. destruct (py_prefix_loop _ _ _ _) as [v|] eqn:El; [|by left].
  right. split; [reflexivity|]. exists v. split; [|reflexivity].
  by apply py_prefix_loop_Some in El.
Qed.

Lemma file_id_not_module_import (e : Edge) (fi : FileInfo) :
  is_module_import (set_target e (file_id_of fi)) = false.
Proof. unfold is_module_import. simpl. by rewrite andb_false_r. Qed.

Lemma py_resolve_edge_idempotent (l : list FileInfo) (e : Edge) :
  py_resolve_edge (py_maps l).1 (py_maps l).2
    (py_resolve_edge (py_maps l).1 (py_maps l).2 e)
  = py_resolve_edge (py_maps l).1 (py_maps l).2 e.
Proof.
  destruct (py_resolve_edge_cases (py_maps l).1 (py_maps l).2 e)
    as [H| (_ & fid & Hin & ->)]; [by rewrite !H|].
  assert (Hin' : in_py_maps (py_maps l) fid) by by destruct (py_maps l).
  apply py_maps_range, list_elem_of_fmap in Hin' as (fi & -> & _).
  unfold py_resolve_edge at 1. by rewrite file_id_not_module_import.
Qed.

(** X9. The Python resolver writes only ids of the files of its list:
    it returns an edge as it is, or, for an [imports] edge on a
    placeholder, with the target [file:<rel_path>] of one of the Python
    files. Running the resolver a second time changes nothing. *)
Theorem py_resolver_targets_and_idempotence (python_files : list FileInfo) :
  (∀ e, let e' := py_resolve_edge (py_maps python_files).1 (py_maps python_files).2 e in
        e' = e
        ∨ (is_module_import e = true
           ∧ ∃ fi, fi ∈ python_files ∧ e' = set_target e (file_id_of fi)))
  ∧ (∀ g, py_resolve_imports python_files (py_resolve_imports python_files g)
          = py_resolve_imports python_files g).
Proof.
  split.
  - intros e e'. subst e'.
    destruct (py_resolve_edge_cases (py_maps python_files).1 (py_maps python_files).2 e)
      as [H| (Hi & fid & Hin & H)]; [by left|]. right. split; [exact Hi|].
    assert (Hin' : in_py_maps (py_maps python_files) fid)
      by by destruct (py_maps python_files).
    apply py_maps_range, list_elem_of_fmap in Hin' as (fi & -> & Hfi). by exists fi.
  - intros g. unfold py_resolve_imports.
    pose proof (py_resolve_edge_idempotent python_files) as Hid.
    destruct (py_maps python_files) as [mm sm]. simpl in *. f_equal.
    rewrite <- list_fmap_compose. apply list_fmap_ext. intros _ e _. apply Hid.
Qed.

Lemma js_register_range (file_paths : gmap string string) (fi : FileInfo) (k v : string) :
  js_register file_paths fi !! k = Some v →
  file_paths !! k = Some v ∨ v = file_id_of fi.
Proof.
  unfold js_register. cbv zeta.
  destruct (PyStr.endswith (js_stem (rel_path fi)) "/index");
    rewrite ?lookup_insert; repeat case_decide; intros Hv;
    first [ right; congruence | by left ].
Qed.

Lemma js_file_paths_range (l : list FileInfo) (k v : string) :
  js_file_paths l !! k = Some v → v ∈ file_id_of <$> l.
Proof.
  unfold js_file_paths.
  assert (H : ∀ fp, foldl js_register fp l !! k = Some v →
                    fp !! k = Some v ∨ v ∈ file_id_of <$> l).
  { induction l as [|fi l IH]; intros fp; simpl; [by left|].
    intros Hv. apply IH in Hv as [Hv|Hv].
    - apply js_register_range in Hv as [Hv| ->]; [by left|].
      right. apply elem_of_cons. by left.
    - right. apply elem_of_cons. by right. }
  intros Hv. apply H in Hv as [Hv|Hv]; [by rewrite lookup_empty in Hv | exact Hv].
Qed.

Lemma js_probe_loop_Some (file_paths : gmap string string) (resolved : string)
    (exts : list string) (fid : string) :
  js_probe_loop file_paths resolved exts = Some fid → ∃ k, file_paths !! k = Some fid.
Proof.
  induction exts as [|e exts IH]; [discriminate|]. simpl.
  destruct (file_paths !! (resolved +:+ _)) as [v|] eqn:E1.
  - intros [= <-]. eexists. exact E1.
  - destruct (file_paths !! resolved) as [v|] eqn:E2; [|exact IH].
    intros [= <-]. eexists. exact E2.
Qed.

Lemma js_resolve_edge_cases (file_paths : gmap string string) (e : Edge) :
  js_resolve_edge file_paths e = e
  ∨ (is_module_import e = true
     ∧ PyStr.startswith (module_of e) "." = true
     ∧ ∃ k fid, file_paths !! k = Some fid
                ∧ js_resolve_edge file_paths e = set_target e fid).
Proof.
  unfold js_resolve_edge. destruct (is_module_import e); [|by left].
  destruct (PyStr.startswith (module_of e) "."); [|by left]. cbv zeta.
  destruct (file_paths !! js_resolved _ _) as [v|] eqn:E1.
  { right. split_and!; try reflexivity. by exists (js_resolved (edge_source e) (module_of e)), v. }
  destruct (js_probe_loop _ _ _) as [v|] eqn:E2; [|by left].
  right. split_and!; try reflexivity.
  apply js_probe_loop_Some in E2 as (k & Hk). by exists k, v.
Qed.

Lemma js_resolve_edge_idempotent (l : list FileInfo) (e : Edge) :
  js_resolve_edge (js_file_paths l) (js_resolve_edge (js_file_paths l) e)
  = js_resolve_edge (js_file_paths l) e.
Proof.
  destruct (js_resolve_edge_cases (js_file_paths l) e)
    as [H| (_ & _ & k & fid & Hk & ->)]; [by rewrite !H|].
  apply js_file_paths_range, list_elem_of_fmap in Hk as (fi & -> & _).
  unfold js_resolve_edge at 1. by rewrite file_id_not_module_import.
Qed.

(** X10. The JavaScript resolver rewrites only [imports] edges whose
    specifier starts with a dot, and only to the id [file:<rel_path>] of
    one of the script files of its list; every other edge is returned
    as it is. Running the resolver a second time changes nothing. *)
Theorem js_resolver_targets_and_idempotence (js_files : list FileInfo) :
  (∀ e, let e' := js_resolve_edge (js_file_paths js_files) e in
        e' = e
        ∨ (is_module_import e = true
           ∧ PyStr.startswith (module_of e) "." = true
           ∧ ∃ fi, fi ∈ js_files ∧ e' = set_target e (file_id_of fi)))
  ∧ (∀ g, js_resolve_imports js_files (js_resolve_imports js_files g)
          = js_resolve_imports js_files g).
Proof.
  split.
  - intros e e'. subst e'.
    destruct (js_resolve_edge_cases (js_file_paths js_files) e)
      as [H| (Hi & Hrel & k & fid & Hk & H)]; [by left|]. right. split_and!; try assumption.
    apply js_file_paths_range, list_elem_of_fmap in Hk as (fi & -> & Hfi). by exists fi.
  - intros g. unfold js_resolve_imports. simpl. f_equal.
    rewrite <- list_fmap_compose. apply list_fmap_ext. intros _ e _.
    apply js_resolve_edge_idempotent.
Qed.

(** ** Soundness of the graph before validation *)

Lemma is_module_import_frame (e e' : Edge) :
  edge_type e' = edge_type e → edge_target e' = edge_target e →
  is_module_import e' = is_module_import e.
Proof. unfold is_module_import. by intros -> ->. Qed.

Lemma sound_resolved (g g' : Graph) (f : Edge → Edge) (ids : list string) :
  nodes g' = nodes g → edges g' = f <$> edges g →
  (∀ e, f e = e ∨ ∃ fid, fid ∈ ids ∧ f e = set_target e fid) →
  (∀ fid, fid ∈ ids → has_node g fid = true) →
  sound g → sound g'.
Proof.
  intros Hn He Hf Hids H. unfold sound. rewrite He. apply Forall_fmap.
  assert (Hh : ∀ nid, has_node g' nid = has_node g nid).
  { intros nid. unfold has_node, node_ids. by rewrite Hn. }
  eapply Forall_impl; [exact H|]. intros e [Hs Ht]. unfold compose.
  destruct (Hf e) as [->| (fid & Hfid & ->)].
  - split; rewrite ?Hh; assumption.
  - split; [by rewrite Hh|]. left. rewrite Hh. by apply Hids.
Qed.

Lemma sound_py_resolve_imports (l : list FileInfo) (g : Graph) :
  (∀ fi, fi ∈ l → has_node g (file_id_of fi) = true) →
  sound g → sound (py_resolve_imports l g).
Proof.
  intros Hfiles. apply (sound_resolved g _ (py_resolve_edge (py_maps l).1 (py_maps l).2)
                          (file_id_of <$> l)).
  - apply nodes_py_resolve_imports.
  - unfold py_resolve_imports. by destruct (py_maps l).
  - intros e.
    destruct (py_resolve_edge_cases (py_maps l).1 (py_maps l).2 e)
      as [H| (_ & fid & Hin & H)]; [by left|]. right. exists fid. split; [|exact H].
    apply py_maps_range. by destruct (py_maps l).
  - intros fid (fi & -> & Hfi)%list_elem_of_fmap. by apply Hfiles.
Qed.

Lemma sound_js_resolve_imports (l : list FileInfo) (g : Graph) :
  (∀ fi, fi ∈ l → has_node g (file_id_of fi) = true) →
  sound g → sound (js_resolve_imports l g).
Proof.
  intros Hfiles. apply (sound_resolved g _ (js_resolve_edge (js_file_paths l))
                          (file_id_of <$> l)).
  - reflexivity.
  - reflexivity.
  - intros e.
    destruct (js_resolve_edge_cases (js_file_paths l) e)
      as [H| (_ & _ & k & fid & Hk & H)]; [by left|]. right. exists fid. split; [|exact H].
    by apply js_file_paths_range in Hk.
  - intros fid (fi & -> & Hfi)%list_elem_of_fmap. by apply Hfiles.
Qed.

Lemma generic_pass_has_files (files : list SourceFile) (g : Graph) (f : SourceFile) :
  f ∈ files → has_node (generic_pass files g) (file_id_of (sf_info f)) = true.
Proof.
  revert g. induction files as [|x files IH]; intros g Hin; [by apply elem_of_nil in Hin|].
  apply elem_of_cons in Hin as [->|Hin]; [|by apply IH].
  change (generic_pass (x :: files) g)
    with (generic_pass files (generic_analyze_file (sf_info x) (sf_generic x) g)).
  eapply grows_has_node; [apply grows_generic_pass|].
  unfold has_node, node_ids. rewrite nodes_generic_analyze_file.
  apply (has_node_add_node_same g (file_node (sf_info x))).
Qed.

(** *** The stages of [analyze_repo] and an invariant of the graph

    [analyze_repo] runs the generic extractor over every file, then the
    Python extractor and resolver, then the script extractor and
    resolver. When the extractors of the later stages run, the node of
    every file is in the graph. *)
Section pipeline_invariant.

Context (I : Graph → Prop).

Hypothesis generic_keeps : ∀ fi read g, I g → I (generic_analyze_file fi read g).
Hypothesis python_keeps : ∀ fi src g,
  I g ∧ has_node g (file_id_of fi) = true → I (py_analyze_file fi src g).
Hypothesis js_keeps : ∀ fi read g,
  I g ∧ has_node g (file_id_of fi) = true → I (js_analyze_file fi read g).
Hypothesis py_resolver_keeps : ∀ l g,
  (∀ fi, fi ∈ l → has_node g (file_id_of fi) = true) → I g → I (py_resolve_imports l g).
Hypothesis js_resolver_keeps : ∀ l g,
  (∀ fi, fi ∈ l → has_node g (file_id_of fi) = true) → I g → I (js_resolve_imports l g).

Lemma invariant_generic_pass (files : list SourceFile) (g : Graph) :
  I g → I (generic_pass files g).
Proof.
  unfold generic_pass. apply foldl_invariant. intros acc f Hacc.
  by apply generic_keeps.
Qed.

Lemma invariant_python_extraction (l : list SourceFile) (g : Graph) :
  (∀ f, f ∈ l → has_node g (file_id_of (sf_info f)) = true) →
  I g → I (python_extraction l g).
Proof.
  unfold python_extraction. revert g.
  induction l as [|x l IH]; intros g Hfiles H; simpl; [exact H|].
  apply IH.
  - intros f Hf. eapply grows_has_node; [apply grows_py_analyze_file|].
    apply Hfiles, elem_of_cons. by right.
  - apply python_keeps. split; [exact H|]. apply Hfiles, elem_of_cons. by left.
Qed.

Lemma invariant_js_extraction (l : list SourceFile) (g : Graph) :
  (∀ f, f ∈ l → has_node g (file_id_of (sf_info f)) = true) →
  I g → I (js_extraction l g).
Proof.
  unfold js_extraction. revert g.
  induction l as [|x l IH]; intros g Hfiles H; simpl; [exact H|].
  apply IH.
  - intros f Hf. eapply grows_has_node; [apply grows_js_analyze_file|].
    apply Hfiles, elem_of_cons. by right.
  - apply js_keeps. split; [exact H|]. apply Hfiles, elem_of_cons. by left.
Qed.

Lemma invariant_python_pass (files : list SourceFile) (g : Graph) :
  (∀ f, f ∈ files → has_node g (file_id_of (sf_info f)) = true) →
  I g → I (python_pass files g).
Proof.
  intros Hfiles H. unfold python_pass.
  assert (Hsub : ∀ f, f ∈ python_files_of files → f ∈ files).
  { intros f Hf. unfold python_files_of in Hf. by apply list_elem_of_filter in Hf as [_ Hf]. }
  destruct (python_files_of files) as [|x l] eqn:E; [exact H|].
  apply py_resolver_keeps.
  - intros fi (f & -> & Hf)%list_elem_of_fmap.
    eapply grows_has_node; [apply grows_python_extraction|]. by apply Hfiles, Hsub.
  - apply invariant_python_extraction; [|exact H]. intros f Hf. by apply Hfiles, Hsub.
Qed.

Lemma invariant_js_pass (files : list SourceFile) (g : Graph) :
  (∀ f, f ∈ files → has_node g (file_id_of (sf_info f)) = true) →
  I g → I (js_pass files g).
Proof.
  intros Hfiles H. unfold js_pass.
  assert (Hsub : ∀ f, f ∈ js_files_of files → f ∈ files).
  { intros f Hf. unfold js_files_of in Hf. by apply list_elem_of_filter in Hf as [_ Hf]. }
  destruct (js_files_of files) as [|x l] eqn:E; [exact H|].
  apply js_resolver_keeps.
  - intros fi (f & -> & Hf)%list_elem_of_fmap.
    eapply grows_has_node; [apply grows_js_extraction|]. by apply Hfiles, Hsub.
  - apply invariant_js_extraction; [|exact H]. intros f Hf. by apply Hfiles, Hsub.
Qed.

Lemma invariant_pending_graph (files : list SourceFile) :
  I empty_graph → I (pending_graph files).
Proof.
  intros H0. unfold pending_graph.
  assert (H1 : ∀ f, f ∈ files →
                    has_node (generic_pass files empty_graph) (file_id_of (sf_info f)) = true).
  { intros f. apply generic_pass_has_files. }
  apply invariant_js_pass.
  - intros f Hf. eapply grows_has_node; [apply grows_python_pass|]. by apply H1.
  - apply invariant_python_pass; [exact H1|]. by apply invariant_generic_pass.
Qed.

End pipeline_invariant.

Lemma sound_pending_graph (files : list SourceFile) : sound (pending_graph files).
Proof.
  apply invariant_pending_graph.
  - intros fi read g H. by apply sound_generic_analyze_file.
  - intros fi src g H. by apply sound_py_analyze_file.
  - intros fi read g H. by apply sound_js_analyze_file.
  - apply sound_py_resolve_imports.
  - apply sound_js_resolve_imports.
  - constructor.
Qed.

(** X11. In the graph of a repository, before validation, the source of
    every edge is a node, and the target of every edge is a node unless
    the edge is an [imports] edge still on a [module:] placeholder. So
    [resolve_edges] removes, besides duplicates, only unresolved
    imports: every other edge is represented in the final graph by an
    edge with its (source, target, type). *)
Theorem only_unresolved_imports_dangle (files : list SourceFile) :
  Forall (λ e, has_node (pending_graph files) (edge_source e) = true
               ∧ (has_node (pending_graph files) (edge_target e) = true
                  ∨ (edge_type e = "imports"
                     ∧ PyStr.startswith (edge_target e) "module:" = true)))
         (edges (pending_graph files))
  ∧ Forall (λ e, is_module_import e = false →
                 edge_key e ∈ edge_key <$> edges (final_graph files))
           (edges (pending_graph files)).
Proof.
  pose proof (sound_pending_graph files) as H. unfold sound in H. split.
  - eapply Forall_impl; [exact H|]. intros e [Hs Ht]. split; [exact Hs|].
    destruct Ht as [Ht|Ht]; [by left|]. right.
    unfold is_module_import in Ht. apply andb_true_iff in Ht as [Hty Htg].
    by apply bool_decide_eq_true in Hty.
  - rewrite Forall_forall in H. apply Forall_forall. intros e He Hi.
    destruct (H e He) as [Hs [Ht|Ht]]; [|congruence].
    unfold final_graph. rewrite edges_resolve_edges.
    apply has_node_true in Hs, Ht.
    apply resolve_from_complete; rewrite ?elem_of_list_to_set; done.
Qed.

(** ** The shape of the nodes and of the edges of a repository *)

(** A resolver keeps the shape of an edge: it changes the target of an
    [imports] edge, whose shape leaves the target open. *)
Lemma edge_from_retarget (file_id : string) (e e' : Edge) :
  e' = e ∨ (is_module_import e = true ∧ ∃ fid, e' = set_target e fid) →
  edge_from file_id e → edge_from file_id e'.
Proof.
  intros [->|(Hi & fid & ->)] H; [exact H|].
  apply andb_true_iff in Hi as [Hty _]. apply bool_decide_eq_true in Hty.
  left. split; [exact Hty|]. simpl.
  assert (Hno : "imports" ∉ ACTIVITY_TYPES)
    by (apply (bool_decide_unpack _); vm_compute; exact I).
  destruct H as [[_ Hs]|[(Ht & _)|[[Ht _]|[[Ht _]|[Ht _]]]]];
    [exact Hs | by rewrite Hty in Ht | congruence..].
Qed.

Lemma edge_of_files_resolved (files : list SourceFile) (f : Edge → Edge)
    (es : list Edge) :
  (∀ e, f e = e ∨ (is_module_import e = true ∧ ∃ fid, f e = set_target e fid)) →
  Forall (edge_of_files files) es → Forall (edge_of_files files) (f <$> es).
Proof.
  intros Hf H. apply Forall_fmap. eapply Forall_impl; [exact H|].
  intros e (x & Hx & He). exists x. split; [exact Hx|].
  by apply (edge_from_retarget _ e).
Qed.

Lemma of_files_mono (l files : list SourceFile) :
  (∀ f, f ∈ l → f ∈ files) →
  (∀ n, node_of_files l n → node_of_files files n)
  ∧ (∀ e, edge_of_files l e → edge_of_files files e).
Proof.
  intros Hsub. split; intros x (f & Hf & H); exists f; split; auto.
Qed.

Lemma pending_graph_shaped (files : list SourceFile) :
  Forall (node_of_files files) (nodes (pending_graph files))
  ∧ Forall (edge_of_files files) (edges (pending_graph files)).
Proof.
  unfold pending_graph.
  assert (H1 : Forall (node_of_files files) (nodes (generic_pass files empty_graph))
               ∧ Forall (edge_of_files files) (edges (generic_pass files empty_graph))).
  { apply (built_Forall _ _ empty_graph); [apply built_generic_pass|]. by split. }
  assert (H2 : Forall (node_of_files files)
                      (nodes (python_pass files (generic_pass files empty_graph)))
               ∧ Forall (edge_of_files files)
                        (edges (python_pass files (generic_pass files empty_graph)))).
  { unfold python_pass.
    destruct (of_files_mono (python_files_of files) files) as [Hn He].
    { intros f Hf. unfold python_files_of in Hf.
      by apply list_elem_of_filter in Hf as [_ Hf]. }
    destruct (python_files_of files) as [|f l]; [exact H1|].
    pose proof (built_Forall _ _ _ _
                  (built_impl _ _ _ _ _ _ Hn He (built_python_extraction (f :: l) _)) H1)
      as [Hns Hes].
    split; [by rewrite nodes_py_resolve_imports|].
    unfold py_resolve_imports. destruct (py_maps (sf_info <$> f :: l)) as [mm sm].
    cbn [edges]. apply edge_of_files_resolved; [|exact Hes].
    intros e. destruct (py_resolve_edge_cases mm sm e) as [H|(Hi & fid & _ & H)];
      [by left | right; eauto]. }
  unfold js_pass.
  destruct (of_files_mono (js_files_of files) files) as [Hn He].
  { intros f Hf. unfold js_files_of in Hf. by apply list_elem_of_filter in Hf as [_ Hf]. }
  destruct (js_files_of files) as [|f l]; [exact H2|].
  pose proof (built_Forall _ _ _ _
                (built_impl _ _ _ _ _ _ Hn He (built_js_extraction (f :: l) _)) H2)
    as [Hns Hes].
  split; [exact Hns|].
  unfold js_resolve_imports. cbn [edges]. apply edge_of_files_resolved; [|exact Hes].
  intros e. destruct (js_resolve_edge_cases (js_file_paths (sf_info <$> f :: l)) e)
    as [H|(Hi & _ & k & fid & _ & H)]; [by left | right; eauto].
Qed.

(** X12. Every edge of the output of a repository has one of five
    shapes, for one of the files [f] of the repository: an [imports]
    edge from the node of [f]; a [db_read], [db_write] or [api_call]
    edge from the node of [f] to itself; a [uses] edge from the node of
    [f]; an [endpoint_handler] edge from the node of [f] or from a
    [class:] node; an [inherits] edge from a [class:] node to a
    [class_ref:] node. No edge has the type [calls] or
    [middleware_chain] of [EDGE_TYPES]. *)
Theorem output_edges_have_five_shapes (repo_name : string) (files : list SourceFile) :
  Forall (λ e, ∃ f, f ∈ files ∧ edge_from (file_id_of (sf_info f)) e)
         (gd_edges (rr_graph (analyze_repo repo_name files)))
  ∧ Forall (λ e, edge_type e ≠ "calls" ∧ edge_type e ≠ "middleware_chain")
           (gd_edges (rr_graph (analyze_repo repo_name files))).
Proof.
  change (gd_edges (rr_graph (analyze_repo repo_name files)))
    with (edges (resolve_edges (pending_graph files))).
  assert (H : Forall (edge_of_files files) (edges (resolve_edges (pending_graph files)))).
  { destruct (pending_graph_shaped files) as [_ He].
    rewrite edges_resolve_edges. rewrite Forall_forall in He.
    apply Forall_forall. intros e Hin. apply He.
    by apply resolve_from_kept in Hin as (Hin & _). }
  split; [exact H|].
  eapply Forall_impl; [exact H|]. intros e (f & _ & He).
  assert (Hno : ("calls" ∉ ACTIVITY_TYPES) ∧ ("middleware_chain" ∉ ACTIVITY_TYPES))
    by (split; apply (bool_decide_unpack _); vm_compute; exact I).
  destruct Hno as [Hc Hm].
  destruct He as [[Ht _]|[(Ht & _)|[[Ht _]|[[Ht _]|[Ht _]]]]];
    split; intros Heq; rewrite Heq in Ht; done.
Qed.

Lemma filter_unique_key {A K} (key : A → K) (P : A → Prop) `{∀ x, Decision (P x)}
    (k : K) (l : list A) :
  NoDup (key <$> l) → (∀ x, x ∈ l → P x → key x = k) →
  (length (filter P l) ≤ 1)%nat.
Proof.
  induction l as [|x l IH]; intros Hnd Hk; [simpl; lia|].
  rewrite fmap_cons in Hnd. apply NoDup_cons in Hnd as [Hx Hnd].
  rewrite filter_cons. destruct (decide (P x)) as [HPx|HPx].
  - assert (Hnil : filter P l = []).
    { destruct (filter P l) as [|y l'] eqn:E; [reflexivity|]. exfalso.
      assert (Hy : y ∈ filter P l) by (rewrite E; apply elem_of_cons; by left).
      apply list_elem_of_filter in Hy as [HPy Hy]. apply Hx.
      rewrite (Hk x) by (done || (apply elem_of_cons; by left)).
      rewrite <- (Hk y) by (done || (apply elem_of_cons; by right)).
      apply list_elem_of_fmap. by exists y. }
    rewrite Hnil. simpl. lia.
  - apply IH; [exact Hnd|]. intros y Hy. apply Hk, elem_of_cons. by right.
Qed.

(** X13. However many database or HTTP calls the extractors find in a
    file, the output holds at most one edge of each of the types
    [db_read], [db_write] and [api_call] for it: the edges of these
    types are loops on the node of the file, and [resolve_edges] keeps
    one edge for each (source, target, type). *)
Theorem one_activity_edge_per_file_and_type (files : list SourceFile) :
  Forall (λ t, ∀ nid,
            (length (filter (λ e, edge_type e = t ∧ edge_source e = nid)
                            (edges (final_graph files))) ≤ 1)%nat)
         ACTIVITY_TYPES.
Proof.
  apply Forall_forall. intros t Ht nid.
  apply (filter_unique_key edge_key _ (nid, nid, t)).
  - unfold final_graph. rewrite edges_resolve_edges. apply resolve_from_NoDup.
  - intros e He [Hty Hsrc]. unfold edge_key. rewrite Hsrc, Hty. do 2 f_equal.
    unfold final_graph in He. rewrite edges_resolve_edges in He.
    apply resolve_from_kept in He as (He & _).
    destruct (pending_graph_shaped files) as [_ Hes].
    rewrite Forall_forall in Hes. destruct (Hes e He) as (f & _ & Hshape).
    rewrite <- Hty in Ht.
    assert (Hno : ("imports" ∉ ACTIVITY_TYPES) ∧ ("uses" ∉ ACTIVITY_TYPES)
                  ∧ ("endpoint_handler" ∉ ACTIVITY_TYPES)
                  ∧ ("inherits" ∉ ACTIVITY_TYPES))
      by (split_and!; apply (bool_decide_unpack _); vm_compute; exact I).
    destruct Hno as (H1 & H2 & H3 & H4).
    destruct Hshape as [[Hx _]|[(_ & Hs & Htg)|[[Hx _]|[[Hx _]|[Hx _]]]]];
      [by rewrite Hx in Ht | congruence | by rewrite Hx in Ht..].
Qed.

(** X14. Every node of the output of a repository has a type that some
    extractor assigns (never ["module"]), and its [file_path] is the
    [rel_path] of one of the files of the repository; the one exception
    is the reference to a base class, a [class_ref:] node of type
    ["class"] with an empty [file_path]. *)
Theorem output_nodes_come_from_files (repo_name : string) (files : list SourceFile) :
  Forall (λ nd, ∃ f, f ∈ files ∧ node_from (rel_path (sf_info f)) (nd_node nd))
         (gd_nodes (rr_graph (analyze_repo repo_name files)))
  ∧ Forall (λ nd, node_type (nd_node nd) ≠ "module")
           (gd_nodes (rr_graph (analyze_repo repo_name files))).
Proof.
  change (gd_nodes (rr_graph (analyze_repo repo_name files)))
    with ((λ n, mkNodeDict n (default 0 (node_degree (final_graph files) !! node_id n)))
            <$> nodes (pending_graph files)).
  destruct (pending_graph_shaped files) as [Hn _].
  split; apply Forall_fmap; [exact Hn|].
  eapply Forall_impl; [exact Hn|]. intros n (f & _ & Ht & _). unfold compose. simpl.
  assert (Hno : "module" ∉ EMITTED_NODE_TYPES)
    by (apply (bool_decide_unpack _); vm_compute; exact I).
  intros Heq. by rewrite Heq in Ht.
Qed.

(** ** Every node but those of the files hangs on a link *)

Lemma linked_more_edges (es es' : list Edge) (n : Node) :
  (∀ e, e ∈ es → e ∈ es') → linked es n → linked es' n.
Proof.
  intros Hsub [H|(e & He & Ht & Hty)]; [by left|]. right. exists e. auto.
Qed.

Lemma anchored_with_add_edge (file_id : string) (e : Edge) (g : Graph) :
  anchored_with file_id g → anchored_with file_id (add_edge e g).
Proof.
  intros [H Hf]. unfold add_edge. destruct (_ && _); [|by split].
  split; [|exact Hf]. unfold anchored. simpl.
  eapply Forall_impl; [exact H|]. intros n. apply linked_more_edges.
  intros x Hx. apply elem_of_app. by left.
Qed.

Lemma anchored_with_deferred (file_id : string) (e : Edge) (g : Graph) :
  anchored_with file_id g → anchored_with file_id (add_edge_deferred e g).
Proof.
  intros [H Hf]. split; [|exact Hf]. unfold anchored. simpl.
  eapply Forall_impl; [exact H|]. intros n. apply linked_more_edges.
  intros x Hx. apply elem_of_app. by left.
Qed.

(** A new node and the validated link to it, from a node of the graph. *)
Lemma anchored_with_link (file_id src t : string) (md : Metadata) (n : Node)
    (g : Graph) :
  t ∈ LINK_TYPES → src = file_id ∨ has_node g src = true →
  anchored_with file_id g →
  anchored_with file_id (add_edge (mkEdge src (node_id n) t md) (add_node n g)).
Proof.
  intros Ht Hsrc [H Hf].
  assert (Hs : has_node g src = true) by (by destruct Hsrc as [->|]).
  unfold add_node. destruct (has_node g (node_id n)) eqn:E.
  { by apply anchored_with_add_edge. }
  assert (Hsrc' : has_node (mkGraph (nodes g ++ [n]) (edges g)) src = true).
  { apply (has_node_add_node_mono g n) in Hs. unfold add_node in Hs. by rewrite E in Hs. }
  assert (Htg : has_node (mkGraph (nodes g ++ [n]) (edges g)) (node_id n) = true).
  { pose proof (has_node_add_node_same g n) as Hn. unfold add_node in Hn.
    by rewrite E in Hn. }
  unfold add_edge. cbn [edge_source edge_target]. rewrite Hsrc', Htg. simpl.
  split.
  - unfold anchored. simpl. apply Forall_app. split.
    + eapply Forall_impl; [exact H|]. intros x. apply linked_more_edges.
      intros y Hy. apply elem_of_app. by left.
    + constructor; [|constructor]. right.
      exists (mkEdge src (node_id n) t md). split_and!; [|reflexivity|exact Ht].
      apply elem_of_app. right. apply elem_of_cons. by left.
  - apply (has_node_add_node_mono g n) in Hf. unfold add_node in Hf. by rewrite E in Hf.
Qed.

(** A new node and the link to it that is not validated. *)
Lemma anchored_with_link_deferred (file_id src t : string) (md : Metadata) (n : Node)
    (g : Graph) :
  t ∈ LINK_TYPES → anchored_with file_id g →
  anchored_with file_id
    (add_edge_deferred (mkEdge src (node_id n) t md) (add_node n g)).
Proof.
  intros Ht [H Hf]. split; [|by apply has_node_add_node_mono].
  unfold anchored. cbn [add_edge_deferred nodes edges]. rewrite edges_add_node.
  assert (Hold : Forall (linked (edges g ++ [mkEdge src (node_id n) t md])) (nodes g)).
  { eapply Forall_impl; [exact H|]. intros x. apply linked_more_edges.
    intros y Hy. apply elem_of_app. by left. }
  unfold add_node. destruct (has_node g (node_id n)); [exact Hold|].
  simpl. apply Forall_app. split; [exact Hold|].
  constructor; [|constructor]. right.
  exists (mkEdge src (node_id n) t md). split_and!; [|reflexivity|exact Ht].
  apply elem_of_app. right. apply elem_of_cons. by left.
Qed.

Ltac anchored_step :=
  first
    [ assumption
    | match goal with
      | |- anchored_with _ (add_edge (mkEdge ?s _ ?t ?md) (add_node ?n ?g)) =>
          apply (anchored_with_link _ s t md n g); [in_vocabulary | by left |]
      | |- anchored_with _ (add_edge_deferred (mkEdge ?s _ ?t ?md) (add_node ?n ?g)) =>
          apply (anchored_with_link_deferred _ s t md n g); [in_vocabulary|]
      end
    | match goal with |- anchored_with _ (if ?c then _ else _) => destruct c end
    | match goal with |- anchored_with _ (match ?c with _ => _ end) => destruct c end
    | apply anchored_with_add_edge
    | apply anchored_with_deferred
    | match goal with
      | |- anchored_with _ (foldl _ _ _) => apply foldl_invariant; [intros ? ? ?|]
      end ].

Ltac anchored_tac := cbv zeta; repeat anchored_step.

Lemma anchored_generic_analyze_file (fi : FileInfo) (read : option GenericMatches)
    (g : Graph) :
  anchored g → anchored_with (file_id_of fi) (generic_analyze_file fi read g).
Proof.
  intros H.
  assert (H1 : anchored_with (file_id_of fi) (add_node (file_node fi) g)).
  { split; [|apply (has_node_add_node_same g (file_node fi))].
    unfold anchored. rewrite edges_add_node. unfold add_node.
    destruct (has_node g (node_id (file_node fi))); [exact H|].
    simpl. apply Forall_app. split; [exact H|]. constructor; [|constructor].
    left. apply startswith_append. }
  unfold generic_analyze_file, _extract_generic_imports, emit_imports.
  destruct (member (ext fi) DEDICATED_EXTENSIONS); [exact H1|].
  destruct read; [|exact H1]. anchored_tac.
Qed.

Lemma anchored_extract_class (fi : FileInfo) (file_id : string) (g : Graph)
    (node : ast) :
  anchored_with file_id g → anchored_with file_id (extract_class fi file_id g node).
Proof.
  intros H. unfold extract_class. destruct node; try exact H. cbv zeta.
  match goal with
  | |- anchored_with _ (foldl _ (foldl _ (add_edge _ (add_node ?cls _)) _) _) =>
      pose (J := λ acc, anchored_with file_id acc ∧ has_node acc (node_id cls) = true)
  end.
  match goal with
  | |- anchored_with _ ?t => enough (HJ : J t) by exact (proj1 HJ)
  end.
  apply (foldl_invariant J).
  { intros acc item [Hacc Hc]. destruct (is_function_def item); [|by split].
    destruct (existsb _ _); [|by split]. split.
    - match goal with
      | |- anchored_with _ (add_edge (mkEdge ?s _ ?t ?md) (add_node ?n ?g)) =>
          apply (anchored_with_link _ s t md n g); [in_vocabulary | by right | exact Hacc]
      end.
    - unfold has_node, node_ids. rewrite nodes_add_edge.
      by apply has_node_add_node_mono. }
  apply (foldl_invariant J).
  { intros acc base [Hacc Hc]. destruct (member base IGNORED_BASES); [by split|]. split.
    - anchored_tac.
    - by apply has_node_add_node_mono. }
  split; [anchored_tac|].
  unfold has_node, node_ids. rewrite nodes_add_edge. apply has_node_add_node_same.
Qed.

Lemma anchored_extract_function (fi : FileInfo) (file_id : string) (g : Graph)
    (node : ast) :
  anchored_with file_id g → anchored_with file_id (extract_function fi file_id g node).
Proof. intros H. unfold extract_function. anchored_tac. Qed.

Lemma anchored_extract_import (file_id : string) (g : Graph) (node : ast) :
  anchored_with file_id g → anchored_with file_id (extract_import file_id g node).
Proof. intros H. unfold extract_import. anchored_tac. Qed.

Lemma anchored_extract_call (file_id : string) (g : Graph) (node : ast) :
  anchored_with file_id g → anchored_with file_id (extract_call file_id g node).
Proof. intros H. unfold extract_call. anchored_tac. Qed.

Lemma anchored_py_analyze_file (fi : FileInfo) (src : PySource) (g : Graph) :
  anchored_with (file_id_of fi) g →
  anchored_with (file_id_of fi) (py_analyze_file fi src g).
Proof.
  intros H. unfold py_analyze_file. destruct src; try exact H.
  unfold _extract_calls, py_extract_imports, _extract_functions, _extract_classes.
  apply foldl_invariant; [intros acc x; apply anchored_extract_call|].
  apply foldl_invariant; [intros acc x; apply anchored_extract_import|].
  apply foldl_invariant; [intros acc x; apply anchored_extract_function|].
  apply foldl_invariant; [intros acc x; apply anchored_extract_class|]. exact H.
Qed.

Lemma anchored_extract_js_class (source : string) (fi : FileInfo) (file_id : string)
    (st : Graph * gset string) (m : ClassMatch) :
  anchored_with file_id st.1 →
  anchored_with file_id (extract_js_class source fi file_id st m).1.
Proof.
  destruct st as [g seen]. simpl. intros H. unfold extract_js_class.
  cbv zeta. cbn [fst]. anchored_tac.
Qed.

Lemma anchored_extract_js_function (source : string) (fi : FileInfo) (file_id : string)
    (st : Graph * gset string) (m : NameMatch) :
  anchored_with file_id st.1 →
  anchored_with file_id (extract_js_function source fi file_id st m).1.
Proof.
  destruct st as [g seen]. simpl. intros H. unfold extract_js_function.
  destruct (bool_decide (nm_name m ∈ seen)); simpl; anchored_tac.
Qed.

Lemma anchored_js_analyze_file (fi : FileInfo) (read : option JsMatches) (g : Graph) :
  anchored_with (file_id_of fi) g →
  anchored_with (file_id_of fi) (js_analyze_file fi read g).
Proof.
  intros H. unfold js_analyze_file. destruct read as [src|]; [|exact H].
  assert (H1 : anchored_with (file_id_of fi)
                 (_extract_routes (js_source src) (js_express_route src) fi
                                  (file_id_of fi) g)).
  { unfold _extract_routes. apply foldl_invariant; [|exact H].
    intros acc m Hacc. unfold extract_route, route_edge, route_node. anchored_tac. }
  assert (H2 : anchored_with (file_id_of fi)
                 (_extract_functions_and_classes src fi (file_id_of fi)
                    (_extract_routes (js_source src) (js_express_route src) fi
                                     (file_id_of fi) g))).
  { unfold _extract_functions_and_classes.
    do 2 (apply (foldl_state_invariant (anchored_with (file_id_of fi)));
          [intros st m; apply anchored_extract_js_function|]).
    apply (foldl_state_invariant (anchored_with (file_id_of fi)));
      [intros st m; apply anchored_extract_js_class | exact H1]. }
  assert (H3 : anchored_with (file_id_of fi)
                 (_extract_models src fi (file_id_of fi)
                    (_extract_functions_and_classes src fi (file_id_of fi)
                       (_extract_routes (js_source src) (js_express_route src) fi
                                        (file_id_of fi) g)))).
  { unfold _extract_models.
    do 2 (apply foldl_invariant;
          [intros acc m Hacc; unfold extract_model; anchored_tac|]). exact H2. }
  unfold _detect_router, _extract_db_ops, _extract_api_calls, js_extract_imports,
    emit_imports.
  anchored_tac.
Qed.

(** A resolver rewrites [imports] edges only, so it keeps the links. *)
Lemma anchored_resolved (g g' : Graph) (f : Edge → Edge) :
  nodes g' = nodes g → edges g' = f <$> edges g →
  (∀ e, f e = e ∨ is_module_import e = true) →
  anchored g → anchored g'.
Proof.
  intros Hn He Hf H. unfold anchored. rewrite Hn, He.
  eapply Forall_impl; [exact H|]. intros n [Hfile|(e & Hin & Ht & Hty)]; [by left|].
  right. exists e. split_and!; [|exact Ht|exact Hty].
  destruct (Hf e) as [Hsame|Hi].
  - rewrite <- Hsame. apply list_elem_of_fmap. by exists e.
  - exfalso. apply andb_true_iff in Hi as [Hi _]. apply bool_decide_eq_true in Hi.
    assert (Hno : "imports" ∉ LINK_TYPES)
      by (apply (bool_decide_unpack _); vm_compute; exact I).
    by rewrite Hi in Hty.
Qed.

Lemma anchored_pending_graph (files : list SourceFile) : anchored (pending_graph files).
Proof.
  apply invariant_pending_graph.
  - intros fi read g H. by apply anchored_generic_analyze_file.
  - intros fi src g H. by apply anchored_py_analyze_file.
  - intros fi read g H. by apply anchored_js_analyze_file.
  - intros l g _. apply (anchored_resolved g _ (py_resolve_edge (py_maps l).1 (py_maps l).2)).
    + apply nodes_py_resolve_imports.
    + unfold py_resolve_imports. by destruct (py_maps l).
    + intros e. destruct (py_resolve_edge_cases (py_maps l).1 (py_maps l).2 e)
        as [H|(H & _)]; [by left | by right].
  - intros l g _. apply (anchored_resolved g _ (js_resolve_edge (js_file_paths l))).
    + reflexivity.
    + reflexivity.
    + intros e. destruct (js_resolve_edge_cases (js_file_paths l) e)
        as [H|(H & _)]; [by left | by right].
  - constructor.
Qed.

(** X15. The output of a repository has no orphan symbol: every node
    whose id does not start with [file:] is the target of an edge of
    type [uses], [endpoint_handler] or [inherits] of the output. The
    edge that an extractor added for the node may have been removed as
    a duplicate; an edge with the same source, target and type is then
    in its place. *)
Theorem every_symbol_node_is_linked (repo_name : string) (files : list SourceFile) :
  Forall (λ nd, PyStr.startswith (node_id (nd_node nd)) "file:" = true
                ∨ ∃ e, e ∈ gd_edges (rr_graph (analyze_repo repo_name files))
                       ∧ edge_target e = node_id (nd_node nd)
                       ∧ edge_type e ∈ LINK_TYPES)
         (gd_nodes (rr_graph (analyze_repo repo_name files))).
Proof.
  change (gd_edges (rr_graph (analyze_repo repo_name files)))
    with (edges (resolve_edges (pending_graph files))).
  change (gd_nodes (rr_graph (analyze_repo repo_name files)))
    with ((λ n, mkNodeDict n (default 0 (node_degree (final_graph files) !! node_id n)))
            <$> nodes (pending_graph files)).
  apply Forall_fmap.
  pose proof (anchored_pending_graph files) as Ha.
  pose proof (sound_pending_graph files) as Hs.
  unfold anchored in Ha. unfold sound in Hs.
  rewrite Forall_forall in Ha. rewrite Forall_forall in Hs.
  apply Forall_forall. intros n Hn. unfold compose. cbn [nd_node].
  destruct (Ha n Hn) as [Hfile|(e & He & Ht & Hty)]; [by left|]. right.
  destruct (Hs e He) as [Hsrc _].
  assert (Htg : has_node (pending_graph files) (edge_target e) = true).
  { rewrite Ht. apply has_node_true. apply list_elem_of_fmap. by exists n. }
  apply has_node_true in Hsrc, Htg.
  assert (Hk : edge_key e ∈ edge_key <$> edges (resolve_edges (pending_graph files))).
  { rewrite edges_resolve_edges.
    apply resolve_from_complete; rewrite ?elem_of_list_to_set; done. }
  apply list_elem_of_fmap in Hk as (e' & Hk & He').
  exists e'. unfold edge_key in Hk. injection Hk as Hks Hkt Hky.
  split_and!; [exact He' | congruence | congruence].
Qed.

(** ** Discovery *)

(** Induction on a tree, with the property for the sub-directories. *)
Lemma FsDir_induction (P : FsDir → Prop) :
  (∀ filenames dirnames,
     Forall (λ p, P p.2) dirnames → P (Dir filenames dirnames)) →
  ∀ d, P d.
Proof.
  intros H. fix IH 1. intros [filenames dirnames]. apply H.
  induction dirnames as [|[name sub] l IHl]; constructor; [apply IH | exact IHl].
Qed.

Lemma walk_files_spec (spec : GitIgnore) (d : FsDir) :
  ∀ dirpath rel_dir fi,
    fi ∈ walk_files spec dirpath rel_dir d
    ↔ ∃ dirs fname,
        in_tree d dirs fname ∧ path_kept spec rel_dir dirs = true
        ∧ file_entry spec (descend dirpath dirs) (descend rel_dir dirs) fname = Some fi.
Proof.
  induction d as [filenames dirnames IH] using FsDir_induction.
  intros dirpath rel_dir fi. cbn [walk_files]. rewrite elem_of_app. split.
  - intros [Hin|Hin].
    + apply list_elem_of_omap in Hin as (fname & Hf & He).
      exists [], fname. split_and!; [by constructor | reflexivity | exact He].
    + apply list_elem_of_In, in_flat_map in Hin as ([name sub] & Hp & Hin).
      apply list_elem_of_In in Hp, Hin.
      destruct (keep_dir spec rel_dir name) eqn:Hk; [|by apply elem_of_nil in Hin].
      rewrite Forall_forall in IH. apply (IH _ Hp) in Hin as (dirs & fname & Ht & Hp' & He).
      exists (name :: dirs), fname. split_and!.
      * by apply (in_tree_below _ _ name sub).
      * simpl. by rewrite Hk.
      * exact He.
  - intros (dirs & fname & Ht & Hk & He). inversion Ht as [? ? ? Hf|? ? name sub ds ? Hp Hsub]; subst.
    + left. apply list_elem_of_omap. by exists fname.
    + right. apply list_elem_of_In, in_flat_map. exists (name, sub).
      split; [by apply list_elem_of_In|]. apply list_elem_of_In.
      simpl in Hk. apply andb_true_iff in Hk as [Hk1 Hk2]. rewrite Hk1.
      rewrite Forall_forall in IH. apply (IH _ Hp). by exists ds, fname.
Qed.

(** *** Paths made of the names of a listing *)

Lemma startswith_other_char (c a : ascii) (p s : string) :
  a ≠ c → PyStr.startswith (String c s) (String a p) = false.
Proof.
  intros H. unfold PyStr.startswith. cbn [String.prefix].
  by destruct (ascii_dec a c).
Qed.

Lemma count_cons_zero (c a : ascii) (s : string) :
  PyStr.count c (String a s) = 0 ↔ a ≠ c ∧ PyStr.count c s = 0.
Proof.
  cbn [PyStr.count]. destruct (decide (a = c)) as [Heq|Hne].
  - split; [lia | by intros [Hn _]].
  - split; [intros H; split; [exact Hne | lia] | by intros [_ ->]].
Qed.

Lemma append_empty_r (s : string) : s +:+ "" = s.
Proof.
  induction s as [|a s IH]; [reflexivity|].
  change (String a s +:+ "") with (String a (s +:+ "")). by rewrite IH.
Qed.

Lemma count_app (c : ascii) (a b : string) :
  PyStr.count c (a +:+ b) = PyStr.count c a + PyStr.count c b.
Proof. induction a as [|x a IH]; simpl; [reflexivity|]. rewrite IH. lia. Qed.

Lemma split_no_sep (sep : ascii) (x : string) :
  PyStr.count sep x = 0 → PyStr.split sep x = [x].
Proof.
  induction x as [|c x IH]; simpl; [reflexivity|].
  destruct (decide (c = sep)); [lia|]. intros H. by rewrite IH.
Qed.

Lemma split_app_sep (sep : ascii) (x r : string) :
  PyStr.count sep x = 0 →
  PyStr.split sep (x +:+ String sep r) = x :: PyStr.split sep r.
Proof.
  induction x as [|c x IH]; simpl.
  - intros _. by rewrite decide_True.
  - destruct (decide (c = sep)); [lia|]. intros H. by rewrite IH.
Qed.

Lemma split_join (sep : ascii) (l : list string) :
  Forall (λ x, PyStr.count sep x = 0) l → l ≠ [] →
  PyStr.split sep (PyStr.join (String sep "") l) = l.
Proof.
  induction l as [|x l IH]; intros Hall Hne; [done|].
  apply Forall_cons in Hall as [Hx Hall]. destruct l as [|y l].
  - simpl. by apply split_no_sep.
  - change (PyStr.join (String sep "") (x :: y :: l))
      with (x +:+ String sep (PyStr.join (String sep "") (y :: l))).
    rewrite split_app_sep by exact Hx. f_equal. by apply IH.
Qed.

Lemma ok_name_parts (x : string) :
  ok_name x = true ↔
  x ≠ "" ∧ x ≠ "." ∧ PyStr.count "/" x = 0 ∧ PyStr.count "\" x = 0.
Proof.
  unfold ok_name. rewrite !andb_true_iff, !negb_true_iff, !bool_decide_eq_false,
    !bool_decide_eq_true. tauto.
Qed.

Lemma parse_ok_name (x : string) :
  ok_name x = true → PosixPath.parse x = PosixPath.mk "" [x].
Proof.
  intros (Hne & Hdot & Hs & _)%ok_name_parts. unfold PosixPath.parse. f_equal.
  - unfold PosixPath.parse_root. destruct x as [|c x]; [done|].
    apply count_cons_zero in Hs as [Hc _].
    by rewrite startswith_other_char by done.
  - rewrite split_no_sep by exact Hs. rewrite filter_cons, filter_nil.
    unfold PosixPath.keep_component.
    rewrite (bool_decide_eq_false_2 (x = "")), (bool_decide_eq_false_2 (x = ".")) by done.
    by rewrite decide_True.
Qed.

Lemma joinpath_ok_name (p : PosixPath.t) (x : string) :
  ok_name x = true →
  PosixPath.joinpath p x = PosixPath.mk (PosixPath.root p) (PosixPath.names p ++ [x]).
Proof. intros H. unfold PosixPath.joinpath. by rewrite parse_ok_name. Qed.

Lemma descend_ok_names (p : PosixPath.t) (dirs : list string) :
  Forall (λ x, ok_name x = true) dirs →
  descend p dirs = PosixPath.mk (PosixPath.root p) (PosixPath.names p ++ dirs).
Proof.
  unfold descend. revert p. induction dirs as [|d dirs IH]; intros p Hall; simpl.
  - rewrite app_nil_r. by destruct p.
  - apply Forall_cons in Hall as [Hd Hall]. rewrite joinpath_ok_name by exact Hd.
    rewrite IH by exact Hall. simpl. by rewrite <- app_assoc.
Qed.

Lemma replace_absent (c : ascii) (new s : string) :
  PyStr.count c s = 0 → PyStr.replace (String c "") new s = s.
Proof.
  unfold PyStr.replace. induction s as [|a s IH]; [reflexivity|].
  intros [Ha Hs]%count_cons_zero. cbn [PyStr.replace_from].
  change (String.prefix (String c "") (String a s))
    with (PyStr.startswith (String a s) (String c "")).
  rewrite startswith_other_char by done. f_equal. by apply IH.
Qed.

Lemma count_join (c : ascii) (l : list string) :
  c ≠ "/"%char → Forall (λ x, PyStr.count c x = 0) l →
  PyStr.count c (PyStr.join "/" l) = 0.
Proof.
  intros Hc. induction l as [|x l IH]; intros Hall; [reflexivity|].
  apply Forall_cons in Hall as [Hx Hall]. destruct l as [|y l]; [exact Hx|].
  change (PyStr.join "/" (x :: y :: l)) with (x +:+ "/" +:+ PyStr.join "/" (y :: l)).
  rewrite !count_app, Hx, IH by exact Hall. simpl. by rewrite decide_False.
Qed.

Lemma join_not_dot_slash (x : string) (l : list string) :
  ok_name x = true → PyStr.startswith (PyStr.join "/" (x :: l)) "./" = false.
Proof.
  intros (Hne & Hdot & Hs & _)%ok_name_parts.
  destruct x as [|a x]; [done|].
  assert (Hjoin : ∃ r, PyStr.join "/" (String a x :: l) = String a (x +:+ r)).
  { destruct l as [|y l]; [exists ""; by rewrite append_empty_r|].
    eexists. simpl. reflexivity. }
  destruct Hjoin as [r ->].
  destruct (decide (a = "."%char)) as [->|Ha];
    [|by rewrite startswith_other_char by done].
  unfold PyStr.startswith. cbn [String.prefix].
  destruct (ascii_dec "." ".") as [_|Hn]; [|done].
  destruct x as [|b x]; [done|].
  apply count_cons_zero in Hs as [_ [Hb _]%count_cons_zero].
  change (String b x +:+ r) with (String b (x +:+ r)).
  change (String.prefix "/" (String b (x +:+ r)))
    with (PyStr.startswith (String b (x +:+ r)) "/").
  by rewrite startswith_other_char by done.
Qed.

Lemma forallb_Forall {A} (f : A → bool) (l : list A) :
  forallb f l = true ↔ Forall (λ x, f x = true) l.
Proof.
  induction l as [|x l IH]; simpl; [by split|].
  rewrite andb_true_iff, Forall_cons, IH. tauto.
Qed.

Lemma well_formed_parts (filenames : list string) (dirnames : list (string * FsDir)) :
  well_formed (Dir filenames dirnames) = true ↔
  Forall (λ x, ok_name x = true) filenames ∧ NoDup filenames
  ∧ Forall (λ p, ok_name p.1 = true) dirnames ∧ NoDup dirnames.*1
  ∧ Forall (λ p, well_formed p.2 = true) dirnames.
Proof.
  cbn [well_formed].
  rewrite !andb_true_iff, !bool_decide_eq_true, !forallb_Forall.
  assert (Hsub : Forall (λ p : string * FsDir, (let '(_, sub) := p in well_formed sub) = true)
                        dirnames
                 ↔ Forall (λ p, well_formed p.2 = true) dirnames).
  { split; intros H; (eapply Forall_impl; [exact H|]); by intros [? ?]. }
  rewrite Hsub. tauto.
Qed.

Lemma in_tree_ok_names (d : FsDir) (dirs : list string) (fname : string) :
  in_tree d dirs fname → well_formed d = true →
  Forall (λ x, ok_name x = true) dirs ∧ ok_name fname = true.
Proof.
  induction 1 as [filenames dirnames fname Hf
                 |filenames dirnames name sub dirs fname Hp _ IH];
    intros (Hfs & _ & Hds & _ & Hsubs)%well_formed_parts.
  - split; [constructor|]. rewrite Forall_forall in Hfs. by apply Hfs.
  - rewrite Forall_forall in Hds, Hsubs.
    destruct (IH (Hsubs _ Hp)) as [Hdirs Hfname].
    split; [|exact Hfname]. constructor; [exact (Hds _ Hp) | exact Hdirs].
Qed.

Lemma ok_names_no_slash (l : list string) :
  Forall (λ x, ok_name x = true) l → Forall (λ x, PyStr.count "/" x = 0) l.
Proof.
  intros H. eapply Forall_impl; [exact H|]. by intros x (_ & _ & Hs & _)%ok_name_parts.
Qed.

Lemma join_inj (l1 l2 : list string) :
  Forall (λ x, ok_name x = true) l1 → Forall (λ x, ok_name x = true) l2 →
  l1 ≠ [] → l2 ≠ [] → PyStr.join "/" l1 = PyStr.join "/" l2 → l1 = l2.
Proof.
  intros H1 H2 Hn1 Hn2 Heq.
  rewrite <- (split_join "/" l1), <- (split_join "/" l2)
    by (done || by apply ok_names_no_slash).
  by rewrite Heq.
Qed.

(** The entry of a file with a regular name, in a directory reached by
    regular names. *)
Lemma file_entry_ok_names (spec : GitIgnore) (dirpath : PosixPath.t)
    (ds : list string) (fname : string) (fi : FileInfo) :
  Forall (λ x, ok_name x = true) ds → ok_name fname = true →
  file_entry spec dirpath (PosixPath.mk "" ds) fname = Some fi →
  rel_path fi = PyStr.join "/" (ds ++ [fname]) ∧ name fi = fname
  ∧ ext fi = PyStr.lower (path_suffix fname)
  ∧ full_path fi = PosixPath.to_str (PosixPath.joinpath dirpath fname).
Proof.
  intros Hds Hf. unfold file_entry. rewrite joinpath_ok_name by exact Hf. cbv zeta.
  destruct (_is_binary _); [done|].
  assert (Hall : Forall (λ x, ok_name x = true) (ds ++ [fname])).
  { apply Forall_app. split; [exact Hds | by constructor]. }
  assert (Hstr : PosixPath.to_str (PosixPath.mk "" (ds ++ [fname]))
                 = PyStr.join "/" (ds ++ [fname])).
  { unfold PosixPath.to_str. cbn [PosixPath.root PosixPath.names].
    destruct (ds ++ [fname]) as [|x l] eqn:E; [by destruct ds|reflexivity]. }
  cbn [PosixPath.root PosixPath.names]. rewrite Hstr.
  rewrite replace_absent.
  2:{ apply count_join; [done|]. eapply Forall_impl; [exact Hall|].
      by intros x (_ & _ & _ & Hb)%ok_name_parts. }
  assert (Hdot : PyStr.startswith (PyStr.join "/" (ds ++ [fname])) "./" = false).
  { destruct (ds ++ [fname]) as [|x l] eqn:E; [by destruct ds|].
    apply join_not_dot_slash. by apply Forall_cons in Hall as [Hx _]. }
  rewrite Hdot. destruct (ignored spec _); [done|].
  intros [= <-]. by split_and!.
Qed.

(** Every collected file of a regular tree, by the names on its way. *)
Lemma walk_files_rel_path (spec : GitIgnore) (d : FsDir) (dirpath : PosixPath.t)
    (ds : list string) (fi : FileInfo) :
  well_formed d = true → Forall (λ x, ok_name x = true) ds →
  fi ∈ walk_files spec dirpath (PosixPath.mk "" ds) d →
  ∃ dirs fname,
    in_tree d dirs fname ∧ Forall (λ x, ok_name x = true) (dirs ++ [fname])
    ∧ path_kept spec (PosixPath.mk "" ds) dirs = true
    ∧ rel_path fi = PyStr.join "/" (ds ++ dirs ++ [fname]) ∧ name fi = fname
    ∧ ext fi = PyStr.lower (path_suffix fname).
Proof.
  intros Hwf Hds (dirs & fname & Ht & Hk & He)%walk_files_spec.
  destruct (in_tree_ok_names _ _ _ Ht Hwf) as [Hdirs Hf].
  rewrite (descend_ok_names (PosixPath.mk "" ds)) in He by exact Hdirs.
  cbn [PosixPath.root PosixPath.names] in He.
  apply file_entry_ok_names in He as (Hrel & Hname & Hext & _);
    [|apply Forall_app; by split|exact Hf].
  exists dirs, fname. split_and!; try done.
  - apply Forall_app. split; [exact Hdirs | by constructor].
  - by rewrite Hrel, <- app_assoc.
Qed.

Lemma NoDup_fmap_omap {A B C} (g : B → C) (h : A → option B) (l : list A) :
  NoDup l →
  (∀ x y fx fy, x ∈ l → y ∈ l → h x = Some fx → h y = Some fy → g fx = g fy → x = y) →
  NoDup (g <$> omap h l).
Proof.
  induction l as [|x l IH]; intros Hnd Hinj; [constructor|].
  apply NoDup_cons in Hnd as [Hx Hnd]. cbn [omap list_omap].
  assert (Hrest : NoDup (g <$> omap h l)).
  { apply IH; [exact Hnd|]. intros a b fa fb Ha Hb. apply Hinj; apply elem_of_cons; by right. }
  destruct (h x) as [fx|] eqn:E; [|exact Hrest].
  rewrite fmap_cons. constructor; [|exact Hrest].
  intros (fy & Hg & (y & Hy & Hh)%list_elem_of_omap)%list_elem_of_fmap.
  assert (Heq : x = y).
  { apply (Hinj x y fx fy); try done; apply elem_of_cons; [by left | by right]. }
  apply Hx. by rewrite Heq.
Qed.

Lemma walk_files_NoDup (spec : GitIgnore) (d : FsDir) :
  ∀ dirpath ds,
    well_formed d = true → Forall (λ x, ok_name x = true) ds →
    NoDup (rel_path <$> walk_files spec dirpath (PosixPath.mk "" ds) d).
Proof.
  induction d as [filenames dirnames IH] using FsDir_induction.
  intros dirpath ds Hwf Hds.
  pose proof Hwf as (Hfs & Hndf & Hdn & Hndd & Hsubs)%well_formed_parts.
  (* the paths below the sub-directory [name] *)
  assert (Hbelow : ∀ name sub r,
            (name, sub) ∈ dirnames →
            r ∈ rel_path <$> (if keep_dir spec (PosixPath.mk "" ds) name
                              then walk_files spec (PosixPath.joinpath dirpath name)
                                     (PosixPath.joinpath (PosixPath.mk "" ds) name) sub
                              else []) →
            ∃ suf, suf ≠ [] ∧ Forall (λ x, ok_name x = true) (name :: suf)
                   ∧ r = PyStr.join "/" (ds ++ name :: suf)).
  { intros name sub r Hp (fi & -> & Hfi)%list_elem_of_fmap.
    destruct (keep_dir _ _ _); [|by apply elem_of_nil in Hfi].
    rewrite Forall_forall in Hdn, Hsubs.
    pose proof (Hdn _ Hp) as Hname. pose proof (Hsubs _ Hp) as Hsub. simpl in Hname, Hsub.
    rewrite !joinpath_ok_name in Hfi by exact Hname.
    cbn [PosixPath.root PosixPath.names] in Hfi.
    apply walk_files_rel_path in Hfi as (dirs & fname & _ & Hok & _ & Hrel & _);
      [|exact Hsub|apply Forall_app; split; [exact Hds | by constructor]].
    exists (dirs ++ [fname]). split_and!; [by destruct dirs | by constructor|].
    by rewrite Hrel, <- app_assoc. }
  cbn [walk_files]. rewrite fmap_app. apply NoDup_app. split_and!.
  - apply NoDup_fmap_omap; [exact Hndf|].
    intros x y fx fy Hx Hy Hex Hey Heq. rewrite Forall_forall in Hfs.
    apply file_entry_ok_names in Hex as (Hrx & _); [|exact Hds|by apply Hfs].
    apply file_entry_ok_names in Hey as (Hry & _); [|exact Hds|by apply Hfs].
    rewrite Hrx, Hry in Heq. apply join_inj in Heq.
    + by apply app_inv_head in Heq as [= ->].
    + apply Forall_app. split; [exact Hds|]. constructor; [by apply Hfs | constructor].
    + apply Forall_app. split; [exact Hds|]. constructor; [by apply Hfs | constructor].
    + by destruct ds.
    + by destruct ds.
  - intros r (fi & -> & (fname & Hf & He)%list_elem_of_omap)%list_elem_of_fmap Hin.
    rewrite Forall_forall in Hfs.
    apply file_entry_ok_names in He as (Hr & _); [|exact Hds|by apply Hfs].
    apply list_elem_of_fmap in Hin as (fi' & Heq & Hin).
    apply list_elem_of_In, in_flat_map in Hin as ([name sub] & Hp & Hin).
    apply list_elem_of_In in Hp, Hin.
    destruct (Hbelow name sub (rel_path fi') Hp) as (suf & Hne & Hok & Hrel).
    { apply list_elem_of_fmap. by exists fi'. }
    rewrite Hr, Hrel in Heq. apply join_inj in Heq.
    + apply app_inv_head in Heq. injection Heq as _ Hnil. by destruct suf.
    + apply Forall_app. split; [exact Hds|]. constructor; [by apply Hfs | constructor].
    + apply Forall_app. by split.
    + by destruct ds.
    + by destruct ds.
  - clear Hfs Hndf Hwf.
    induction dirnames as [|[name sub] l IHl]; [constructor|].
    cbn [flat_map]. rewrite fmap_app.
    rewrite fmap_cons in Hndd. apply NoDup_cons in Hndd as [Hfresh Hndd].
    apply Forall_cons in IH as [IHsub IHrest].
    apply Forall_cons in Hdn as [Hname Hdn].
    apply Forall_cons in Hsubs as [Hsub Hsubs].
    simpl in Hname, Hsub, IHsub, Hfresh.
    apply NoDup_app. split_and!.
    + destruct (keep_dir _ _ _); [|constructor].
      rewrite !joinpath_ok_name by exact Hname. cbn [PosixPath.root PosixPath.names].
      apply IHsub; [exact Hsub|]. apply Forall_app. split; [exact Hds | by constructor].
    + intros r Hr Hin.
      destruct (Hbelow name sub r) as (suf & Hne & Hok & Hrel);
        [apply elem_of_cons; by left | exact Hr |].
      apply list_elem_of_fmap in Hin as (fi' & Heq & Hin).
      apply list_elem_of_In, in_flat_map in Hin as ([name' sub'] & Hp & Hin).
      apply list_elem_of_In in Hp, Hin.
      destruct (Hbelow name' sub' (rel_path fi')) as (suf' & Hne' & Hok' & Hrel');
        [apply elem_of_cons; by right | apply list_elem_of_fmap; by exists fi' |].
      rewrite Heq, Hrel' in Hrel. apply join_inj in Hrel.
      * apply app_inv_head in Hrel. injection Hrel as -> _.
        apply Hfresh, list_elem_of_fmap. by exists (name, sub').
      * apply Forall_app. by split.
      * apply Forall_app. by split.
      * by destruct ds.
      * by destruct ds.
    + apply IHl; try assumption.
      intros name0 sub0 r Hp. apply Hbelow, elem_of_cons. by right.
Qed.

Lemma path_kept_not_skipped (spec : GitIgnore) (rel_dir : PosixPath.t)
    (dirs : list string) :
  path_kept spec rel_dir dirs = true → Forall (λ x, _should_skip_dir x = false) dirs.
Proof.
  revert rel_dir. induction dirs as [|x dirs IH]; intros rel_dir; [constructor|].
  simpl. intros [[Hx _]%andb_true_iff Hk]%andb_true_iff.
  constructor; [by apply negb_true_iff in Hx | by apply (IH _ Hk)].
Qed.

Lemma file_entry_Some (spec : GitIgnore) (dirpath rel_dir : PosixPath.t)
    (fname : string) (fi : FileInfo) :
  file_entry spec dirpath rel_dir fname = Some fi →
  name fi = fname ∧ ext fi = PyStr.lower (path_suffix fname)
  ∧ _is_binary (ext fi) = false ∧ ignored spec (rel_path fi) = false.
Proof.
  unfold file_entry. cbv zeta. destruct (_is_binary _) eqn:Eb; [done|].
  destruct (ignored spec _) eqn:Ei; [done|]. intros [= <-]. by split_and!.
Qed.

(** X16. [collect_files] raises for a root that is no directory.
    Otherwise it returns the entries of exactly the files that are
    reached from the root through directories that the pruning keeps,
    each directory tested on the way down. So no file below a directory
    of [ALWAYS_SKIP_DIRS], or below a directory whose name starts with a
    dot, is collected, at any depth; and no collected file has a binary
    extension or is matched by the [.gitignore]. The extension of an
    entry is the lower-cased suffix of the name. *)
Theorem collect_files_walks_kept_directories (root : PosixPath.t) (spec : GitIgnore)
    (d : FsDir) :
  collect_files root None spec = None
  ∧ ∃ l, collect_files root (Some d) spec = Some l
         ∧ (∀ fi, fi ∈ l ↔
                  ∃ dirs fname,
                    in_tree d dirs fname
                    ∧ path_kept spec (PosixPath.mk "" []) dirs = true
                    ∧ file_entry spec (descend root dirs)
                                 (descend (PosixPath.mk "" []) dirs) fname = Some fi)
         ∧ Forall (λ fi, ∃ dirs,
                     in_tree d dirs (name fi)
                     ∧ Forall (λ x, _should_skip_dir x = false) dirs
                     ∧ ext fi = PyStr.lower (path_suffix (name fi))
                     ∧ _is_binary (ext fi) = false
                     ∧ ignored spec (rel_path fi) = false) l.
Proof.
  split; [reflexivity|]. eexists. split; [reflexivity|]. split.
  - intros fi. apply walk_files_spec.
  - apply Forall_forall. intros fi (dirs & fname & Ht & Hk & He)%walk_files_spec.
    apply file_entry_Some in He as (<- & Hext & Hbin & Hign).
    exists dirs. split_and!; try done. by apply path_kept_not_skipped in Hk.
Qed.

(** X17. In a tree with regular names, the [rel_path] of a collected
    file is its way from the root, joined by ["/"], and the [rel_path]s
    of the collected files are pairwise distinct: so are the ids of the
    file nodes that [analyze_repo] builds from them. *)
Theorem collect_files_rel_paths_distinct (root : PosixPath.t) (spec : GitIgnore)
    (d : FsDir) :
  well_formed d = true →
  ∃ l, collect_files root (Some d) spec = Some l
       ∧ NoDup (rel_path <$> l)
       ∧ NoDup (file_id_of <$> l)
       ∧ Forall (λ fi, ∃ dirs, in_tree d dirs (name fi)
                               ∧ rel_path fi = PyStr.join "/" (dirs ++ [name fi])) l.
Proof.
  intros Hwf. eexists. split; [reflexivity|].
  assert (Hnd : NoDup (rel_path <$> walk_files spec root (PosixPath.mk "" []) d))
    by by apply walk_files_NoDup.
  split_and!.
  - exact Hnd.
  - unfold file_id_of.
    rewrite (list_fmap_compose rel_path (String.append "file:")).
    apply NoDup_fmap_2; [|exact Hnd]. intros x y. apply append_inj_l.
  - apply Forall_forall. intros fi Hfi.
    apply walk_files_rel_path in Hfi as (dirs & fname & Ht & _ & _ & Hrel & <- & _);
      [|exact Hwf|constructor].
    by exists dirs.
Qed.

Lemma collect_files_rel_paths_distinct_witness :
  well_formed sample_tree = true
  ∧ ∃ l, collect_files (PosixPath.mk "/" ["repo"]) (Some sample_tree) None = Some l
         ∧ NoDup (rel_path <$> l)
         ∧ NoDup (file_id_of <$> l)
         ∧ Forall (λ fi, ∃ dirs, in_tree sample_tree dirs (name fi)
                                 ∧ rel_path fi = PyStr.join "/" (dirs ++ [name fi])) l.
Proof.
  split; [reflexivity|].
  apply (collect_files_rel_paths_distinct (PosixPath.mk "/" ["repo"]) None sample_tree).
  reflexivity.
Defined.

(** A relative path made of regular names is read back by [Path]. *)
Lemma parse_join_ok_names (l : list string) :
  Forall (λ x, ok_name x = true) l → l ≠ [] →
  PosixPath.parse (PyStr.join "/" l) = PosixPath.mk "" l.
Proof.
  intros Hall Hne. unfold PosixPath.parse. f_equal.
  - destruct l as [|x l]; [done|]. apply Forall_cons in Hall as [Hx _].
    apply ok_name_parts in Hx as (Hx & _ & Hs & _).
    destruct x as [|a x]; [done|]. apply count_cons_zero in Hs as [Ha _].
    assert (Hjoin : ∃ r, PyStr.join "/" (String a x :: l) = String a r).
    { destruct l; eexists; simpl; reflexivity. }
    destruct Hjoin as [r ->]. unfold PosixPath.parse_root.
    by rewrite startswith_other_char by done.
  - rewrite split_join by (done || by apply ok_names_no_slash).
    clear Hne. induction Hall as [|x l Hx _ IH]; [reflexivity|].
    rewrite filter_cons, IH.
    apply ok_name_parts in Hx as (Hx & Hdot & _).
    unfold PosixPath.keep_component.
    rewrite (bool_decide_eq_false_2 (x = "")), (bool_decide_eq_false_2 (x = ".")) by done.
    by rewrite decide_True.
Qed.

(** X18. The classifier reads back from the [rel_path] of a collected
    file the directories on its way from the root: in a tree with
    regular names, the [parts] that [_classify_by_path] looks at are
    exactly these directory names. So a file anywhere below a directory
    whose lower-cased name is in [TEST_PATTERNS] gets the node type
    ["test"], whatever its own name and extension. *)
Theorem collected_file_is_classified_by_its_directories (root : PosixPath.t)
    (spec : GitIgnore) (d : FsDir) :
  well_formed d = true →
  ∃ l, collect_files root (Some d) spec = Some l
       ∧ Forall (λ fi, ∃ dirs,
                   in_tree d dirs (name fi)
                   ∧ removelast (PosixPath.parts (PosixPath.parse (rel_path fi))) = dirs
                   ∧ (any_part_in dirs TEST_PATTERNS = true →
                      node_type (file_node fi) = "test")) l.
Proof.
  intros Hwf. eexists. split; [reflexivity|].
  apply Forall_forall. intros fi Hfi.
  apply walk_files_rel_path in Hfi as (dirs & fname & Ht & Hok & _ & Hrel & <- & _);
    [|exact Hwf|constructor].
  exists dirs. split; [exact Ht|]. simpl in Hrel.
  assert (Hparts : removelast (PosixPath.parts (PosixPath.parse (rel_path fi))) = dirs).
  { rewrite Hrel, parse_join_ok_names by (done || by destruct dirs).
    unfold PosixPath.parts. cbn [PosixPath.root PosixPath.names].
    rewrite bool_decide_eq_true_2 by reflexivity. simpl.
    by rewrite removelast_last. }
  split; [exact Hparts|]. intros Htest.
  unfold file_node. cbn [node_type]. unfold _classify_by_path. cbv zeta.
  by rewrite Hparts, Htest.
Qed.

Lemma collected_file_is_classified_by_its_directories_witness :
  well_formed sample_tree = true
  ∧ ∃ l, collect_files (PosixPath.mk "/" ["repo"]) (Some sample_tree) None = Some l
         ∧ Forall (λ fi, ∃ dirs,
                     in_tree sample_tree dirs (name fi)
                     ∧ removelast (PosixPath.parts (PosixPath.parse (rel_path fi))) = dirs
                     ∧ (any_part_in dirs TEST_PATTERNS = true →
                        node_type (file_node fi) = "test")) l.
Proof.
  split; [reflexivity|].
  apply (collected_file_is_classified_by_its_directories
           (PosixPath.mk "/" ["repo"]) None sample_tree).
  reflexivity.
Defined.

(** ** The lookup tables of the resolvers *)

Lemma setdefault_fold_exact (keys : list string) (v : string) (d : gmap string string)
    (k : string) :
  foldl (λ sm key, setdefault key v sm) d keys !! k
  = match d !! k with
    | Some w => Some w
    | None => if bool_decide (k ∈ keys) then Some v else None
    end.
Proof.
  revert d. induction keys as [|key keys IH]; intros d; simpl.
  { by destruct (d !! k). }
  rewrite IH. unfold setdefault at 1.
  destruct (decide (key = k)) as [->|Hne].
  - rewrite (bool_decide_eq_true_2 (k ∈ k :: keys)) by (apply elem_of_cons; by left).
    destruct (d !! k) as [w|] eqn:E; [by rewrite E|]. by rewrite lookup_insert_eq.
  - assert (Hlook : (match d !! key with Some _ => d | None => <[key:=v]> d end) !! k
                    = d !! k).
    { destruct (d !! key); [reflexivity|]. by rewrite lookup_insert_ne. }
    rewrite Hlook. destruct (d !! k); [reflexivity|].
    destruct (decide (k ∈ keys)) as [Hin|Hout].
    + rewrite !bool_decide_eq_true_2; [reflexivity | apply elem_of_cons; by right | exact Hin].
    + rewrite !bool_decide_eq_false_2; [reflexivity | | exact Hout].
      intros [->|Hin]%elem_of_cons; done.
Qed.

Lemma last_filter_cons {A} (P : A → Prop) `{∀ x, Decision (P x)} (x : A) (l : list A) :
  last (filter P (x :: l))
  = match last (filter P l) with
    | Some y => Some y
    | None => if decide (P x) then Some x else None
    end.
Proof.
  rewrite filter_cons. destruct (decide (P x)); [|by destruct (last _)].
  rewrite last_cons. by destruct (last _).
Qed.

Lemma py_register_lookup (mm sm : gmap string string) (fi : FileInfo) (m : string) :
  (py_register (mm, sm) fi).1 !! m
  = (if decide (py_module_name (rel_path fi) = m) then Some (file_id_of fi) else mm !! m)
  ∧ (py_register (mm, sm) fi).2 !! m
    = match sm !! m with
      | Some w => Some w
      | None => if bool_decide (m ∈ py_suffixes (rel_path fi))
                then Some (file_id_of fi) else None
      end.
Proof.
  unfold py_register. cbv zeta. cbn [fst snd]. split.
  - destruct (decide _) as [->|Hne];
      [by rewrite lookup_insert_eq | by rewrite lookup_insert_ne].
  - unfold py_suffixes. cbv zeta. rewrite <- setdefault_fold_exact.
    generalize (seq 1 (length (PyStr.split "." (py_module_name (rel_path fi))))).
    intros idx. revert sm. induction idx as [|i idx IH]; intros sm; [reflexivity|].
    rewrite fmap_cons. simpl. by rewrite IH.
Qed.

Lemma py_maps_lookup (l : list FileInfo) (mm sm : gmap string string) (m : string) :
  (foldl py_register (mm, sm) l).1 !! m
  = match last (filter (λ fi, py_module_name (rel_path fi) = m) l) with
    | Some fi => Some (file_id_of fi)
    | None => mm !! m
    end
  ∧ (foldl py_register (mm, sm) l).2 !! m
    = match sm !! m with
      | Some w => Some w
      | None => file_id_of <$> head (filter (λ fi, m ∈ py_suffixes (rel_path fi)) l)
      end.
Proof.
  revert mm sm. induction l as [|fi l IH]; intros mm sm.
  { simpl. split; [reflexivity | by destruct (sm !! m)]. }
  cbn [foldl]. destruct (py_register (mm, sm) fi) as [mm' sm'] eqn:E.
  destruct (IH mm' sm') as [IH1 IH2]. rewrite IH1, IH2.
  pose proof (py_register_lookup mm sm fi m) as [H1 H2]. rewrite E in H1, H2.
  cbn [fst snd] in H1, H2. rewrite H1, H2. split.
  - rewrite last_filter_cons. by destruct (last _), (decide _).
  - rewrite filter_cons. destruct (sm !! m); [reflexivity|].
    destruct (decide (m ∈ py_suffixes (rel_path fi))) as [Hin|Hout].
    + by rewrite bool_decide_eq_true_2.
    + by rewrite bool_decide_eq_false_2.
Qed.

(** X19. The two tables of the Python resolver, by their ties. Under a
    module name, [module_map] holds the last file of the list with that
    module name (a later file overwrites an earlier one). Under a dotted
    name, [suffix_map] holds the first file of the list that has the
    name as a suffix of its module name ([setdefault] keeps the earlier
    file). An [imports] edge on the placeholder of the module name of
    some file of the list gets the last such file as its target. *)
Theorem py_tables_keep_last_module_and_first_suffix (python_files : list FileInfo)
    (m : string) :
  (py_maps python_files).1 !! m
  = file_id_of <$> last (filter (λ fi, py_module_name (rel_path fi) = m) python_files)
  ∧ (py_maps python_files).2 !! m
    = file_id_of <$> head (filter (λ fi, m ∈ py_suffixes (rel_path fi)) python_files)
  ∧ (∀ e fi,
       is_module_import e = true → module_of e = m →
       last (filter (λ fi, py_module_name (rel_path fi) = m) python_files) = Some fi →
       py_resolve_edge (py_maps python_files).1 (py_maps python_files).2 e
       = set_target e (file_id_of fi)).
Proof.
  destruct (py_maps_lookup python_files ∅ ∅ m) as [H1 H2].
  rewrite lookup_empty in H1, H2. fold (py_maps python_files) in H1, H2.
  assert (Hmm : (py_maps python_files).1 !! m
                = file_id_of <$> last (filter (λ fi, py_module_name (rel_path fi) = m)
                                              python_files)).
  { rewrite H1. by destruct (last _). }
  split_and!; [exact Hmm | exact H2 |].
  intros e fi Hi Hm Hlast. unfold py_resolve_edge. rewrite Hi, Hm, Hmm, Hlast.
  reflexivity.
Qed.

Lemma js_register_lookup (d : gmap string string) (fi : FileInfo) (k : string) :
  js_register d fi !! k
  = if bool_decide (k ∈ js_keys (rel_path fi)) then Some (file_id_of fi) else d !! k.
Proof.
  unfold js_register, js_keys. cbv zeta.
  destruct (PyStr.endswith (js_stem (rel_path fi)) "/index").
  - destruct (decide (k = PyStr.drop_last 6 (js_stem (rel_path fi)))) as [->|H1].
    { rewrite lookup_insert_eq, bool_decide_eq_true_2; [reflexivity|].
      apply elem_of_app. right. apply elem_of_cons. by left. }
    rewrite lookup_insert_ne by done.
    destruct (decide (k = rel_path fi)) as [->|H2].
    { rewrite lookup_insert_eq, bool_decide_eq_true_2; [reflexivity|].
      apply elem_of_cons. right. apply elem_of_cons. by left. }
    rewrite lookup_insert_ne by done.
    destruct (decide (k = js_stem (rel_path fi))) as [->|H3].
    { rewrite lookup_insert_eq, bool_decide_eq_true_2; [reflexivity|].
      apply elem_of_cons. by left. }
    rewrite lookup_insert_ne by done. rewrite bool_decide_eq_false_2; [reflexivity|].
    intros [->|[->|[->|Hin%elem_of_nil]%elem_of_cons]%elem_of_cons]%elem_of_cons; done.
  - destruct (decide (k = rel_path fi)) as [->|H2].
    { rewrite lookup_insert_eq, bool_decide_eq_true_2; [reflexivity|].
      apply elem_of_cons. right. apply elem_of_cons. by left. }
    rewrite lookup_insert_ne by done.
    destruct (decide (k = js_stem (rel_path fi))) as [->|H3].
    { rewrite lookup_insert_eq, bool_decide_eq_true_2; [reflexivity|].
      apply elem_of_cons. by left. }
    rewrite lookup_insert_ne by done. rewrite bool_decide_eq_false_2; [reflexivity|].
    rewrite app_nil_r.
    intros [->|[->|Hin%elem_of_nil]%elem_of_cons]%elem_of_cons; done.
Qed.

Lemma js_file_paths_lookup (l : list FileInfo) (d : gmap string string) (k : string) :
  foldl js_register d l !! k
  = match last (filter (λ fi, k ∈ js_keys (rel_path fi)) l) with
    | Some fi => Some (file_id_of fi)
    | None => d !! k
    end.
Proof.
  revert d. induction l as [|fi l IH]; intros d; [reflexivity|].
  cbn [foldl]. rewrite IH, last_filter_cons, js_register_lookup.
  destruct (last _); [reflexivity|].
  destruct (decide (k ∈ js_keys (rel_path fi))) as [Hin|Hout].
  - by rewrite bool_decide_eq_true_2.
  - by rewrite bool_decide_eq_false_2.
Qed.

(** X20. The table of the script resolver, by its ties: a file is
    entered under its path, under its path without the extension and,
    for an [index] file, under its directory; under a key the table
    holds the last file of the list that has the key. A relative
    specifier that names a key of some file resolves to the last such
    file at the first probe. *)
Theorem js_table_keeps_last_file (js_files : list FileInfo) (k : string) :
  js_file_paths js_files !! k
  = file_id_of <$> last (filter (λ fi, k ∈ js_keys (rel_path fi)) js_files)
  ∧ (∀ e fi,
       is_module_import e = true → PyStr.startswith (module_of e) "." = true →
       js_resolved (edge_source e) (module_of e) = k →
       last (filter (λ fi, k ∈ js_keys (rel_path fi)) js_files) = Some fi →
       js_resolve_edge (js_file_paths js_files) e = set_target e (file_id_of fi)).
Proof.
  assert (Hfp : js_file_paths js_files !! k
                = file_id_of <$> last (filter (λ fi, k ∈ js_keys (rel_path fi)) js_files)).
  { unfold js_file_paths. rewrite js_file_paths_lookup, lookup_empty.
    by destruct (last _). }
  split; [exact Hfp|].
  intros e fi Hi Hrel Hk Hlast. unfold js_resolve_edge. rewrite Hi, Hrel. cbv zeta.
  rewrite Hk, Hfp, Hlast. reflexivity.
Qed.

(** ** Module names of Python files *)

Lemma replace_char_cons (a b c : ascii) (s : string) :
  PyStr.replace (String a "") (String b "") (String c s)
  = String (if decide (c = a) then b else c)
           (PyStr.replace (String a "") (String b "") s).
Proof.
  unfold PyStr.replace. cbn [PyStr.replace_from String.length Nat.sub].
  destruct (decide (c = a)) as [->|Hne].
  - cbn [String.prefix]. destruct (ascii_dec a a); [|done]. by destruct s.
  - change (String.prefix (String a "") (String c s))
      with (PyStr.startswith (String c s) (String a "")).
    by rewrite startswith_other_char by done.
Qed.

Lemma replace_char_app (a b : ascii) (x y : string) :
  PyStr.count a x = 0 →
  PyStr.replace (String a "") (String b "") (x +:+ y)
  = x +:+ PyStr.replace (String a "") (String b "") y.
Proof.
  induction x as [|c x IH]; [reflexivity|]. intros [Hc Hx]%count_cons_zero.
  change (String c x +:+ y) with (String c (x +:+ y)).
  rewrite replace_char_cons, decide_False by done. rewrite IH by exact Hx. reflexivity.
Qed.

Lemma replace_join (a b : ascii) (l : list string) :
  Forall (λ x, PyStr.count a x = 0) l →
  PyStr.replace (String a "") (String b "") (PyStr.join (String a "") l)
  = PyStr.join (String b "") l.
Proof.
  induction l as [|x l IH]; intros Hall; [reflexivity|].
  apply Forall_cons in Hall as [Hx Hall]. destruct l as [|y l].
  - simpl. by apply replace_absent.
  - change (PyStr.join (String a "") (x :: y :: l))
      with (x +:+ String a (PyStr.join (String a "") (y :: l))).
    rewrite replace_char_app by exact Hx.
    rewrite replace_char_cons, decide_True by reflexivity.
    rewrite IH by exact Hall. reflexivity.
Qed.

Lemma count_join_sep (c sep : ascii) (l : list string) :
  c ≠ sep → Forall (λ x, PyStr.count c x = 0) l →
  PyStr.count c (PyStr.join (String sep "") l) = 0.
Proof.
  intros Hc. induction l as [|x l IH]; intros Hall; [reflexivity|].
  apply Forall_cons in Hall as [Hx Hall]. destruct l as [|y l]; [exact Hx|].
  change (PyStr.join (String sep "") (x :: y :: l))
    with (x +:+ String sep (PyStr.join (String sep "") (y :: l))).
  rewrite count_app, Hx. apply count_cons_zero. split; [done | by apply IH].
Qed.

Lemma append_assoc (a b c : string) : (a +:+ b) +:+ c = a +:+ b +:+ c.
Proof.
  induction a as [|x a IH]; [reflexivity|].
  change ((String x a +:+ b) +:+ c) with (String x ((a +:+ b) +:+ c)). by rewrite IH.
Qed.

Lemma join_snoc_append (sep : string) (l : list string) (x s : string) :
  PyStr.join sep (l ++ [x +:+ s]) = PyStr.join sep (l ++ [x]) +:+ s.
Proof.
  induction l as [|y l IH]; [reflexivity|].
  destruct l as [|z l].
  - change (y +:+ sep +:+ x +:+ s = (y +:+ sep +:+ x) +:+ s).
    by rewrite !append_assoc.
  - change (y +:+ sep +:+ PyStr.join sep ((z :: l) ++ [x +:+ s])
            = (y +:+ sep +:+ PyStr.join sep ((z :: l) ++ [x])) +:+ s).
    by rewrite IH, !append_assoc.
Qed.

Lemma join_snoc (sep : string) (l : list string) (x : string) :
  l ≠ [] → PyStr.join sep (l ++ [x]) = PyStr.join sep l +:+ sep +:+ x.
Proof.
  induction l as [|y l IH]; [done|]. intros _. destruct l as [|z l]; [reflexivity|].
  change (y +:+ sep +:+ PyStr.join sep ((z :: l) ++ [x])
          = (y +:+ sep +:+ PyStr.join sep (z :: l)) +:+ sep +:+ x).
  rewrite IH by done. by rewrite !append_assoc.
Qed.

Lemma length_append (a b : string) :
  String.length (a +:+ b) = String.length a + String.length b.
Proof.
  induction a as [|x a IH]; [reflexivity|].
  change (String x a +:+ b) with (String x (a +:+ b)). simpl. by rewrite IH.
Qed.

Lemma drop_append (a b : string) : PyStr.drop (String.length a) (a +:+ b) = b.
Proof.
  induction a as [|x a IH]; [by destruct b|].
  change (String x a +:+ b) with (String x (a +:+ b)). simpl. exact IH.
Qed.

Lemma take_append (a b : string) : PyStr.take (String.length a) (a +:+ b) = a.
Proof.
  induction a as [|x a IH]; [by destruct b|].
  change (String x a +:+ b) with (String x (a +:+ b)). simpl. by rewrite IH.
Qed.

Lemma take_drop (n : nat) (s : string) : PyStr.take n s +:+ PyStr.drop n s = s.
Proof.
  revert s. induction n as [|n IH]; intros s; [by destruct s|].
  destruct s as [|c s]; [reflexivity|]. simpl.
  change (String c (PyStr.take n s) +:+ PyStr.drop n s)
    with (String c (PyStr.take n s +:+ PyStr.drop n s)). by rewrite IH.
Qed.

Lemma endswith_append (a suf : string) : PyStr.endswith (a +:+ suf) suf = true.
Proof.
  unfold PyStr.endswith. apply bool_decide_eq_true. rewrite length_append.
  replace (String.length a + String.length suf - String.length suf)
    with (String.length a) by lia.
  apply drop_append.
Qed.

Lemma drop_last_append (a suf : string) :
  PyStr.drop_last (String.length suf) (a +:+ suf) = a.
Proof.
  unfold PyStr.drop_last. rewrite length_append.
  replace (String.length a + String.length suf - String.length suf)
    with (String.length a) by lia.
  apply take_append.
Qed.

Lemma endswith_inv (s suf : string) :
  PyStr.endswith s suf = true → ∃ a, s = a +:+ suf.
Proof.
  unfold PyStr.endswith. intros H%bool_decide_eq_true.
  remember (String.length s - String.length suf) as n eqn:Hn.
  exists (PyStr.take n s). rewrite <- H. symmetry. apply take_drop.
Qed.

Lemma split_app_sep_last (sep : ascii) (a b : string) :
  PyStr.count sep b = 0 →
  ∃ h t, PyStr.split sep (a +:+ String sep b) = h :: t ++ [b].
Proof.
  intros Hb. induction a as [|c a (h & t & IH)].
  - exists "", []. change ("" +:+ String sep b) with (String sep b).
    cbn [PyStr.split]. rewrite decide_True by reflexivity. by rewrite split_no_sep.
  - change (String c a +:+ String sep b) with (String c (a +:+ String sep b)).
    cbn [PyStr.split]. rewrite IH. destruct (decide (c = sep)).
    + by exists "", (h :: t).
    + by exists (String c h), t.
Qed.

Lemma plain_name_parts (x : string) :
  plain_name x = true ↔
  PyStr.count "/" x = 0 ∧ PyStr.count "\" x = 0 ∧ PyStr.count "." x = 0.
Proof.
  unfold plain_name. rewrite !andb_true_iff, !bool_decide_eq_true. tauto.
Qed.

(** A dotted name of plain parts ends with [.__init__] only when its
    last part is [__init__] and is not the only one. *)
Lemma dotted_endswith_init (dirs : list string) (stem : string) :
  Forall (λ x, plain_name x = true) (dirs ++ [stem]) →
  PyStr.endswith (PyStr.join "." (dirs ++ [stem])) ".__init__" = true →
  stem = "__init__" ∧ dirs ≠ [].
Proof.
  intros Hall (a & Heq)%endswith_inv.
  assert (Hdots : Forall (λ x, PyStr.count "." x = 0) (dirs ++ [stem])).
  { eapply Forall_impl; [exact Hall|]. by intros x (_ & _ & H)%plain_name_parts. }
  assert (Hsplit : PyStr.split "." (PyStr.join "." (dirs ++ [stem])) = dirs ++ [stem]).
  { apply split_join; [exact Hdots | by destruct dirs]. }
  destruct (split_app_sep_last "." a "__init__") as (h & t & Hlast); [reflexivity|].
  change (a +:+ String "." "__init__") with (a +:+ ".__init__") in Hlast.
  rewrite <- Heq, Hsplit in Hlast.
  change (h :: t ++ ["__init__"]) with ((h :: t) ++ ["__init__"]) in Hlast.
  apply app_inj_tail in Hlast as [Hd Hs]. split; [exact Hs | by rewrite Hd].
Qed.

(** X21. The module name of a Python file, from its path: for a path
    [d1/.../dn/stem.py] of plain names the resolver computes
    [d1. ... .dn.stem], and for a file [__init__.py] below at least one
    directory the name of its package, [d1. ... .dn]. *)
Theorem py_module_name_of_path (dirs : list string) (stem : string) :
  Forall (λ x, plain_name x = true) (dirs ++ [stem]) →
  py_module_name (PyStr.join "/" (dirs ++ [stem +:+ ".py"]))
  = if bool_decide (stem = "__init__" ∧ dirs ≠ [])
    then PyStr.join "." dirs
    else PyStr.join "." (dirs ++ [stem]).
Proof.
  intros Hall. unfold py_module_name.
  assert (Hparts : ∀ c : ascii, PyStr.count c ".py" = 0 →
            Forall (λ x, PyStr.count c x = 0) (dirs ++ [stem]) →
            Forall (λ x, PyStr.count c x = 0) (dirs ++ [stem +:+ ".py"])).
  { intros c Hc H. apply Forall_app in H as [Hd Hs]. apply Forall_app. split; [exact Hd|].
    apply Forall_cons in Hs as [Hs _]. constructor; [|constructor].
    by rewrite count_app, Hs, Hc. }
  assert (Hslash : Forall (λ x, PyStr.count "/" x = 0) (dirs ++ [stem]))
    by (eapply Forall_impl; [exact Hall|]; by intros x (H & _)%plain_name_parts).
  assert (Hback : Forall (λ x, PyStr.count "\" x = 0) (dirs ++ [stem]))
    by (eapply Forall_impl; [exact Hall|]; by intros x (_ & H & _)%plain_name_parts).
  change (PyStr.replace "/" "." (PyStr.join "/" (dirs ++ [stem +:+ ".py"])))
    with (PyStr.replace (String "/" "") (String "." "")
            (PyStr.join (String "/" "") (dirs ++ [stem +:+ ".py"]))).
  rewrite replace_join by (by apply Hparts).
  change (PyStr.replace "\" "." (PyStr.join (String "." "") (dirs ++ [stem +:+ ".py"])))
    with (PyStr.replace (String "\" "") "."
            (PyStr.join (String "." "") (dirs ++ [stem +:+ ".py"]))).
  rewrite replace_absent by (apply count_join_sep; [done | by apply Hparts]).
  cbv zeta. change (String "." "") with ".".
  rewrite join_snoc_append, endswith_append.
  change 3 with (String.length ".py"). rewrite drop_last_append.
  destruct (PyStr.endswith (PyStr.join "." (dirs ++ [stem])) ".__init__") eqn:E.
  - apply dotted_endswith_init in E as [-> Hne]; [|exact Hall].
    rewrite bool_decide_eq_true_2 by done.
    rewrite join_snoc by exact Hne.
    change (PyStr.join "." dirs +:+ "." +:+ "__init__")
      with (PyStr.join "." dirs +:+ ".__init__").
    change 9 with (String.length ".__init__"). apply drop_last_append.
  - rewrite bool_decide_eq_false_2; [reflexivity|]. intros [-> Hne].
    rewrite join_snoc in E by exact Hne.
    change (PyStr.join "." dirs +:+ "." +:+ "__init__")
      with (PyStr.join "." dirs +:+ ".__init__") in E.
    by rewrite endswith_append in E.
Qed.

Lemma py_module_name_of_path_witness :
  Forall (λ x, plain_name x = true) (["pkg"; "sub"] ++ ["__init__"])
  ∧ py_module_name (PyStr.join "/" (["pkg"; "sub"] ++ ["__init__" +:+ ".py"]))
    = if bool_decide ("__init__" = "__init__" ∧ ["pkg"; "sub"] ≠ [])
      then PyStr.join "." ["pkg"; "sub"]
      else PyStr.join "." (["pkg"; "sub"] ++ ["__init__"]).
Proof.
  assert (H : Forall (λ x, plain_name x = true) (["pkg"; "sub"] ++ ["__init__"]))
    by (repeat constructor).
  split; [exact H|]. apply (py_module_name_of_path ["pkg"; "sub"] "__init__" H).
Defined.

(** ** From the tree to the graph *)

(** X22. Discovery and analysis fit together. For a tree with regular
    names, whatever the extractors read in the files, every file that
    [collect_files] returns has in the output graph of [analyze_repo]
    the node [file:<rel_path>] that the generic extractor builds for
    it, with the type of the path classifier: no other file and no
    symbol takes its id. *)
Theorem every_collected_file_has_its_node (root : PosixPath.t) (spec : GitIgnore)
    (d : FsDir) :
  well_formed d = true →
  ∃ l, collect_files root (Some d) spec = Some l
       ∧ ∀ files, sf_info <$> files = l →
           Forall (λ f, get_node (final_graph files) (file_id_of (sf_info f))
                        = Some (file_node (sf_info f))) files.
Proof.
  intros Hwf. eexists. split; [reflexivity|]. intros files Hfiles.
  assert (Hnd : NoDup ((λ f, rel_path (sf_info f)) <$> files)).
  { rewrite (list_fmap_compose sf_info rel_path), Hfiles. by apply walk_files_NoDup. }
  apply Forall_forall. intros f Hf.
  rewrite (get_node_same_nodes _ (pending_graph files)) by reflexivity.
  eapply grows_get_node; [apply grows_pending_graph|].
  by apply file_lookup_after_generic_pass.
Qed.

Lemma every_collected_file_has_its_node_witness :
  well_formed sample_tree = true
  ∧ ∃ l, collect_files (PosixPath.mk "/" ["repo"]) (Some sample_tree) None = Some l
         ∧ ∀ files, sf_info <$> files = l →
             Forall (λ f, get_node (final_graph files) (file_id_of (sf_info f))
                          = Some (file_node (sf_info f))) files.
Proof.
  split; [reflexivity|].
  apply (every_collected_file_has_its_node (PosixPath.mk "/" ["repo"]) None sample_tree).
  reflexivity.
Defined.

(** ** Import specifiers are a set *)

Lemma foldl_add_edges {A} (f : A → Edge) (l : list A) (g : Graph) :
  foldl (λ acc x, add_edge_deferred (f x) acc) g l
  = mkGraph (nodes g) (edges g ++ (f <$> l)).
Proof.
  revert g. induction l as [|x l IH]; intros g; simpl.
  - rewrite app_nil_r. by destruct g.
  - rewrite IH. simpl. by rewrite <- app_assoc.
Qed.

(** [emit_imports] appends one edge for each distinct target. *)
Lemma emit_imports_edges (file_id : string) (targets : list string) (g : Graph) :
  ∃ added,
    emit_imports file_id targets g = mkGraph (nodes g) (edges g ++ added)
    ∧ NoDup added
    ∧ length added = length (remove_dups targets)
    ∧ ∀ e, e ∈ added ↔ ∃ t, t ∈ targets ∧ e = mkEdge file_id ("module:" +:+ t) "imports" [].
Proof.
  exists (import_edge file_id <$> set_iter targets). unfold emit_imports, set_iter.
  split_and!.
  - apply foldl_add_edges.
  - apply NoDup_fmap_2; [|apply NoDup_elements].
    intros a b [= H]. by apply append_inj_l in H.
  - rewrite length_fmap. apply Permutation_length, NoDup_Permutation.
    + apply NoDup_elements.
    + apply NoDup_remove_dups.
    + intros t. by rewrite elem_of_elements, elem_of_list_to_set, elem_of_remove_dups.
  - intros e. rewrite list_elem_of_fmap. split.
    + intros (t & -> & Ht). exists t. split; [|reflexivity].
      by apply elem_of_elements, elem_of_list_to_set in Ht.
    + intros (t & Ht & ->). exists t. split; [reflexivity|].
      by apply elem_of_elements, elem_of_list_to_set.
Qed.

(** X23. The generic and the script extractor collect the import
    specifiers of a file in a set. [_extract_generic_imports] leaves
    the nodes alone and appends exactly one [imports] edge, from the
    file to the placeholder [module:<specifier>], for each distinct
    text among the matches of [RE_INCLUDE], of [RE_USING], of [RE_USE]
    with ["::"] replaced by ["/"], and of [RE_GO_IMPORT]; it leaves the
    graph as it is when the file cannot be read. The script extractor
    does the same for the matches of [RE_IMPORT_FROM], [RE_REQUIRE] and
    [RE_DYNAMIC_IMPORT]. However often and by whichever pattern a
    specifier was found, it has one edge. *)
Theorem import_extractors_emit_one_edge_per_specifier (file_id : string) (g : Graph) :
  (∀ m, ∃ added,
      _extract_generic_imports (Some m) file_id g = mkGraph (nodes g) (edges g ++ added)
      ∧ NoDup added
      ∧ length added
        = length (remove_dups (gm_include m ++ gm_using m
                               ++ (PyStr.replace "::" "/" <$> gm_use m)
                               ++ gm_go_import m))
      ∧ ∀ e, e ∈ added ↔
             ∃ t, (t ∈ gm_include m ∨ t ∈ gm_using m
                   ∨ (∃ u, u ∈ gm_use m ∧ t = PyStr.replace "::" "/" u)
                   ∨ t ∈ gm_go_import m)
                  ∧ e = mkEdge file_id ("module:" +:+ t) "imports" [])
  ∧ _extract_generic_imports None file_id g = g
  ∧ (∀ src, ∃ added,
       js_extract_imports src file_id g = mkGraph (nodes g) (edges g ++ added)
       ∧ NoDup added
       ∧ length added
         = length (remove_dups (js_import_from src ++ js_require src
                                ++ js_dynamic_import src))
       ∧ ∀ e, e ∈ added ↔
              ∃ t, (t ∈ js_import_from src ∨ t ∈ js_require src
                    ∨ t ∈ js_dynamic_import src)
                   ∧ e = mkEdge file_id ("module:" +:+ t) "imports" []).
Proof.
  split_and!.
  - intros m. unfold _extract_generic_imports.
    destruct (emit_imports_edges file_id
                (gm_include m ++ gm_using m ++ (PyStr.replace "::" "/" <$> gm_use m)
                 ++ gm_go_import m) g) as (added & Heq & Hnd & Hlen & Hin).
    exists added. split_and!; try assumption.
    intros e. rewrite Hin. split.
    + intros (t & Ht & ->). exists t. split; [|reflexivity].
      rewrite !elem_of_app, list_elem_of_fmap in Ht.
      destruct Ht as [Ht|[Ht|[(u & -> & Hu)|Ht]]]; eauto 6.
    + intros (t & Ht & ->). exists t. split; [|reflexivity].
      rewrite !elem_of_app, list_elem_of_fmap.
      destruct Ht as [Ht|[Ht|[(u & Hu & ->)|Ht]]]; eauto 6.
  - reflexivity.
  - intros src. unfold js_extract_imports.
    destruct (emit_imports_edges file_id
                (js_import_from src ++ js_require src ++ js_dynamic_import src) g)
      as (added & Heq & Hnd & Hlen & Hin).
    exists added. split_and!; try assumption.
    intros e. rewrite Hin. split.
    + intros (t & Ht & ->). exists t. split; [|reflexivity].
      by rewrite !elem_of_app in Ht.
    + intros (t & Ht & ->). exists t. split; [|reflexivity].
      by rewrite !elem_of_app.
Qed.

(** ** The helpers of the Python extractor *)

Lemma attr_chain_parts_dotted (base : ast) (attrs : list string) :
  attr_chain_parts (dotted base attrs) = reverse attrs ++ attr_chain_parts base.
Proof.
  unfold dotted. revert base. induction attrs as [|a attrs IH]; intros base; [reflexivity|].
  simpl. rewrite IH, reverse_cons, <- app_assoc. reflexivity.
Qed.

(** X24. [_attr_chain] prints a dotted name back: for the expression
    [x.a1. ... .an] it returns the text ["x.a1. ... .an"], which is
    also the base name that [_get_base_names] records for it. When the
    innermost expression is a call, only the attributes are printed. *)
Theorem attr_chain_prints_dotted_names (attrs : list string) :
  (∀ x, _attr_chain (dotted (Name x) attrs) = PyStr.join "." (x :: attrs)
        ∧ base_name (dotted (Name x) attrs) = Some (PyStr.join "." (x :: attrs)))
  ∧ (∀ f args kws, _attr_chain (dotted (Call f args kws) attrs) = PyStr.join "." attrs).
Proof.
  split.
  - intros x.
    assert (H : _attr_chain (dotted (Name x) attrs) = PyStr.join "." (x :: attrs)).
    { unfold _attr_chain. rewrite attr_chain_parts_dotted. simpl.
      by rewrite reverse_app, reverse_involutive. }
    split; [exact H|].
    destruct attrs as [|a attrs _] using rev_ind; [reflexivity|].
    unfold dotted in *. rewrite foldl_snoc in *. simpl. by rewrite H.
  - intros f args kws. unfold _attr_chain. rewrite attr_chain_parts_dotted. simpl.
    by rewrite app_nil_r, reverse_involutive.
Qed.

(** X25. The HTTP method that the Python extractor records for an
    endpoint is one of the seven upper-case methods: the upper-cased
    first decorator name that is a verb, whatever its case and whatever
    its place among the decorators, and [GET] when no decorator name is
    a verb. *)
Theorem guess_http_method_is_a_method (decorators : list string) :
  _guess_http_method decorators ∈ HTTP_METHODS
  ∧ (Forall (λ d, PyStr.lower d ∉ HTTP_VERBS) decorators →
     _guess_http_method decorators = "GET")
  ∧ (∀ before d after,
       decorators = before ++ d :: after →
       Forall (λ x, PyStr.lower x ∉ HTTP_VERBS) before →
       PyStr.lower d ∈ HTTP_VERBS →
       _guess_http_method decorators = PyStr.upper (PyStr.lower d)).
Proof.
  unfold _guess_http_method, member. split_and!.
  - destruct (List.find _ decorators) as [d|] eqn:E; [|in_vocabulary].
    apply find_some in E as [_ H]. apply bool_decide_eq_true in H.
    repeat (apply elem_of_cons in H as [->|H]; [in_vocabulary|]).
    by apply elem_of_nil in H.
  - intros Hall. destruct (List.find _ decorators) as [d|] eqn:E; [|reflexivity].
    apply find_some in E as [Hin H]. apply bool_decide_eq_true in H.
    rewrite Forall_forall in Hall. by destruct (Hall d (proj2 (list_elem_of_In _ _) Hin)).
  - intros before d after -> Hbefore Hd.
    induction Hbefore as [|x before Hx _ IH]; simpl.
    + by rewrite bool_decide_eq_true_2.
    + by rewrite bool_decide_eq_false_2.
Qed.

(** ** The helpers of the script extractor *)

Lemma count_take_le (c : ascii) (s : string) (a k : nat) :
  (PyStr.count c (PyStr.take a s) ≤ PyStr.count c (PyStr.take (a + k) s))%nat.
Proof.
  revert s. induction a as [|a IH]; intros s; [simpl; lia|].
  destruct s as [|x s]; [simpl; lia|]. simpl. specialize (IH s). lia.
Qed.

Lemma count_take_all (c : ascii) (s : string) (a : nat) :
  (PyStr.count c (PyStr.take a s) ≤ PyStr.count c s)%nat
  ∧ ((String.length s ≤ a)%nat → PyStr.take a s = s).
Proof.
  revert s. induction a as [|a IH]; intros s.
  - split; [simpl; lia|]. destruct s; [reflexivity | simpl; lia].
  - destruct s as [|x s]; [by split|]. destruct (IH s) as [IH1 IH2]. simpl. split; [lia|].
    intros H. rewrite IH2 by lia. reflexivity.
Qed.

(** X26. The line of a match: [_line_of] is at least 1 and at most the
    number of lines of the text, it does not decrease with the offset,
    so the matches of [finditer] get non-decreasing lines, and an
    offset at or beyond the end of the text gets the last line. *)
Theorem line_of_bounds_and_monotone (source : string) (a k : nat) :
  (1 ≤ _line_of source a)%nat
  ∧ (_line_of source a ≤ _line_of source (a + k))%nat
  ∧ (_line_of source a ≤ PyStr.count newline source + 1)%nat
  ∧ _line_of source (String.length source + k) = PyStr.count newline source + 1.
Proof.
  unfold _line_of. split_and!.
  - lia.
  - pose proof (count_take_le newline source a k). lia.
  - pose proof (proj1 (count_take_all newline source a)). lia.
  - rewrite (proj2 (count_take_all newline source (String.length source + k))) by lia.
    reflexivity.
Qed.

Lemma has_node_add_node_other (g : Graph) (n : Node) (nid : string) :
  node_id n ≠ nid → has_node (add_node n g) nid = has_node g nid.
Proof.
  intros Hne. unfold has_node.
  apply bool_decide_ext. rewrite node_ids_add_node.
  split; [|by left]. intros [H|H]; [exact H | by symmetry in H].
Qed.

Lemma has_node_add_edge (g : Graph) (e : Edge) (nid : string) :
  has_node (add_edge e g) nid = has_node g nid.
Proof. unfold has_node, node_ids. by rewrite nodes_add_edge. Qed.

Lemma has_node_add_edge_deferred (g : Graph) (e : Edge) (nid : string) :
  has_node (add_edge_deferred e g) nid = has_node g nid.
Proof. reflexivity. Qed.

Lemma func_id_inj (rel a b : string) :
  "func:" +:+ rel +:+ ":" +:+ a = "func:" +:+ rel +:+ ":" +:+ b → a = b.
Proof. intros H. by do 3 apply append_inj_l in H. Qed.

Lemma class_id_not_func (x y : string) : "class:" +:+ x ≠ "func:" +:+ y.
Proof.
  change ("class:" +:+ x) with (String "c" ("lass:" +:+ x)).
  change ("func:" +:+ y) with (String "f" ("unc:" +:+ y)). intros H. discriminate H.
Qed.

Lemma class_ref_id_not_func (x y : string) : "class_ref:" +:+ x ≠ "func:" +:+ y.
Proof.
  change ("class_ref:" +:+ x) with (String "c" ("lass_ref:" +:+ x)).
  change ("func:" +:+ y) with (String "f" ("unc:" +:+ y)). intros H. discriminate H.
Qed.

Lemma extract_js_class_func (source : string) (fi : FileInfo) (file_id : string)
    (st : Graph * gset string) (m : ClassMatch) (name : string) :
  let st' := extract_js_class source fi file_id st m in
  has_node st'.1 ("func:" +:+ rel_path fi +:+ ":" +:+ name)
  = has_node st.1 ("func:" +:+ rel_path fi +:+ ":" +:+ name)
  ∧ cm_name m ∈ st'.2 ∧ (∀ x, x ∈ st.2 → x ∈ st'.2).
Proof.
  destruct st as [g seen]. unfold extract_js_class. cbv zeta. cbn [fst snd].
  split_and!.
  - destruct (cm_base m) as [base|]; [destruct (bool_decide (base = ""))|];
      rewrite ?has_node_add_edge_deferred, ?has_node_add_edge;
      repeat (rewrite has_node_add_node_other
                by (first [apply class_id_not_func | apply class_ref_id_not_func]);
              rewrite ?has_node_add_edge);
      reflexivity.
  - apply elem_of_union. left. by apply elem_of_singleton.
  - intros x Hx. apply elem_of_union. by right.
Qed.

Lemma extract_js_function_func (source : string) (fi : FileInfo) (file_id : string)
    (st : Graph * gset string) (m : NameMatch) (name : string) :
  name ∈ st.2 →
  let st' := extract_js_function source fi file_id st m in
  has_node st'.1 ("func:" +:+ rel_path fi +:+ ":" +:+ name)
  = has_node st.1 ("func:" +:+ rel_path fi +:+ ":" +:+ name)
  ∧ name ∈ st'.2.
Proof.
  destruct st as [g seen]. cbn [fst snd]. intros Hname. unfold extract_js_function.
  destruct (bool_decide (nm_name m ∈ seen)) eqn:E; cbn [fst snd]; [by split|].
  apply bool_decide_eq_false in E. split; [|apply elem_of_union; by right].
  rewrite has_node_add_edge, has_node_add_node_other; [reflexivity|].
  cbn [node_id]. intros Heq%func_id_inj. apply E. by rewrite Heq.
Qed.

(** X27. [seen_names] keeps the classes apart from the functions: for a
    name that a class declaration of the file has, the function
    patterns add no node. Whether [func:<rel_path>:<name>] is a node is
    the same after [_extract_functions_and_classes] as before, however
    many function matches carry the name. *)
Theorem class_names_get_no_function_node (src : JsMatches) (fi : FileInfo)
    (file_id : string) (g : Graph) :
  Forall (λ m, has_node (_extract_functions_and_classes src fi file_id g)
                        ("func:" +:+ rel_path fi +:+ ":" +:+ cm_name m)
               = has_node g ("func:" +:+ rel_path fi +:+ ":" +:+ cm_name m))
         (js_class_decl src).
Proof.
  apply Forall_forall. intros m Hm. unfold _extract_functions_and_classes. cbv zeta.
  set (T := "func:" +:+ rel_path fi +:+ ":" +:+ cm_name m).
  assert (Hclasses : ∀ l st,
            let st' := foldl (extract_js_class (js_source src) fi file_id) st l in
            has_node st'.1 T = has_node st.1 T
            ∧ (∀ x, x ∈ st.2 → x ∈ st'.2) ∧ (∀ c, c ∈ l → cm_name c ∈ st'.2)).
  { induction l as [|c l IH]; intros st; simpl.
    { split_and!; [reflexivity | done |]. intros c Hc. by apply elem_of_nil in Hc. }
    destruct (IH (extract_js_class (js_source src) fi file_id st c)) as (H1 & H2 & H3).
    destruct (extract_js_class_func (js_source src) fi file_id st c (cm_name m))
      as (H4 & H5 & H6).
    split_and!.
    - by rewrite H1.
    - intros x Hx. by apply H2, H6.
    - intros c' [->|Hc']%elem_of_cons; [by apply H2 | by apply H3]. }
  assert (Hfuncs : ∀ l st, cm_name m ∈ st.2 →
            let st' := foldl (extract_js_function (js_source src) fi file_id) st l in
            has_node st'.1 T = has_node st.1 T ∧ cm_name m ∈ st'.2).
  { induction l as [|f l IH]; intros st Hst; simpl; [by split|].
    destruct (extract_js_function_func (js_source src) fi file_id st f (cm_name m) Hst)
      as [H1 H2].
    destruct (IH _ H2) as [H3 H4]. split; [by rewrite H3 | exact H4]. }
  destruct (Hclasses (js_class_decl src) (g, ∅)) as (H1 & _ & H3).
  specialize (H3 m Hm).
  destruct (Hfuncs (js_function_export src) _ H3) as [H4 H5].
  destruct (Hfuncs (js_const_arrow src) _ H5) as [H6 _].
  by rewrite H6, H4, H1.
Qed.
